(** * Todo Attack: task-line parsing and line patching

    A shallow embedding of the editor's text logic (the Monaco variant
    [parseTasks], [toggleTaskStatus], [addTodaysDate],
    [updateTaskStatusAtLine], [updateTaskDatesAtLine], and the Ace variant of
    [toggleTaskStatus] / [addTodaysDate] in app.js).

    The source is written almost entirely with JavaScript regular
    expressions, so the embedding has two layers:
    - a small backtracking matcher for the fragment of ECMAScript regular
      expressions the source uses (character classes, greedy and lazy
      quantifiers on a class, capturing groups, an optional group, [^], [$]
      and [\b]), with [exec], [test], [replace] and global [match];
    - the source functions, each regex literal transcribed as a [regex]
      value and each function written over lists of lines.

    The further properties at the end cover the Tab and Enter actions,
    [insertTask], the new-task dialog ([collectHeadings],
    [createTaskFromDialog], [insertTaskUnderHeading]), the folding provider,
    the Kanban board ([escapeHtml], [renderKanban] with its filters, the drop
    handler), the completion provider and the priority decorations. *)

From Stdlib Require Import Ascii String DecimalString.
From Stdlib Require Import List NArith Bool Arith Lia Sorted.
Import ListNotations.
Local Open Scope list_scope.
Local Open Scope N_scope.

Set Warnings "-comment-terminator-in-string".

(** ** Strings

    A JavaScript string is a sequence of UTF-16 code units. *)

Abbreviation char := N (only parsing).
Abbreviation str := (list N) (only parsing).

Definition lit (s : string) : str := map N_of_ascii (list_ascii_of_string s).
Arguments lit s%_string.

Definition str_eqb (a b : str) : bool :=
  if list_eq_dec N.eq_dec a b then true else false.

(** *** Character classes *)

(** [\s]: WhiteSpace and LineTerminator code points. *)
Definition isSpace (c : char) : bool :=
  existsb (N.eqb c)
    [9; 10; 11; 12; 13; 32; 160; 5760; 8232; 8233; 8239; 8287; 12288; 65279]
  || ((8192 <=? c) && (c <=? 8202)).

(** LineTerminator: LF, CR, LS, PS.  [.] matches everything else. *)
Definition isLineTerminator (c : char) : bool :=
  existsb (N.eqb c) [10; 13; 8232; 8233].

Definition isDot (c : char) : bool := negb (isLineTerminator c).

(** [\d] *)
Definition isDigit (c : char) : bool := (48 <=? c) && (c <=? 57).

(** [\w]: [A-Za-z0-9_] *)
Definition isWord (c : char) : bool :=
  ((65 <=? c) && (c <=? 90)) || ((97 <=? c) && (c <=? 122))
  || isDigit c || (c =? 95).

(** [[\w-]] *)
Definition isWordOrHyphen (c : char) : bool := isWord c || (c =? 45).

(** [[0-9A-Fa-f]] *)
Definition isHex (c : char) : bool :=
  isDigit c || ((65 <=? c) && (c <=? 70)) || ((97 <=? c) && (c <=? 102)).

(** [[-*+]] *)
Definition isBullet (c : char) : bool := (c =? 45) || (c =? 42) || (c =? 43).

(** [[ x/]] *)
Definition isStatusChar (c : char) : bool := (c =? 32) || (c =? 120) || (c =? 47).

(** [[abc]] *)
Definition isPrio (c : char) : bool := (97 <=? c) && (c <=? 99).

Definition isHash (c : char) : bool := c =? 35.     (* # *)
Definition isDash (c : char) : bool := c =? 45.     (* - *)
Definition isLBracket (c : char) : bool := c =? 91. (* [ *)
Definition isRBracket (c : char) : bool := c =? 93. (* ] *)
Definition isSlash (c : char) : bool := c =? 47.    (* / *)
Definition isX (c : char) : bool := c =? 120.       (* x *)

(** *** String methods *)

Fixpoint startsWith (p s : str) : bool :=
  match p, s with
  | [], _ => true
  | a :: p', b :: s' => (a =? b) && startsWith p' s'
  | _ :: _, [] => false
  end.

(** [s.includes(p)] *)
Fixpoint includes (p s : str) : bool :=
  startsWith p s || match s with [] => false | _ :: s' => includes p s' end.

(** [s.endsWith(p)] *)
Definition endsWith (p s : str) : bool := startsWith (rev p) (rev s).

Fixpoint trimStart (s : str) : str :=
  match s with
  | c :: s' => if isSpace c then trimStart s' else s
  | [] => []
  end.

Definition trimEnd (s : str) : str := rev (trimStart (rev s)).

(** [s.trim()] *)
Definition trim (s : str) : str := trimEnd (trimStart s).

(** Decimal rendering of a number inside a template literal. *)
Definition numToStr (n : nat) : str := lit (NilEmpty.string_of_uint (Nat.to_uint n)).

(** ** Regular expressions *)

Inductive regex : Type :=
| Empty
| Class (p : char -> bool)
| Seq (r1 r2 : regex)
| Group (i : nat) (r : regex)
| Optional (r : regex)
| Repeat (greedy : bool) (lo : nat) (hi : option nat) (p : char -> bool)
| Bol
| Eol
| WordBoundary.

Declare Scope regex_scope.
Delimit Scope regex_scope with regex.
Bind Scope regex_scope with regex.
Infix ";;" := Seq (at level 61, right associativity) : regex_scope.

Definition Chr (c : char) : regex := Class (N.eqb c).

(** A literal run of characters. *)
Fixpoint Lit (s : str) : regex :=
  match s with
  | [] => Empty
  | c :: s' => Seq (Chr c) (Lit s')
  end.

Definition star p := Repeat true 0 None p.          (* p*   *)
Definition plus p := Repeat true 1 None p.          (* p+   *)
Definition lazyStar p := Repeat false 0 None p.     (* p*?  *)
Definition lazyPlus p := Repeat false 1 None p.     (* p+?  *)
Definition times n p := Repeat true n (Some n) p.   (* p{n} *)

(** Captures: group number and captured text, most recent first. *)
Definition caps := list (nat * str).

Fixpoint cap (i : nat) (cs : caps) : option str :=
  match cs with
  | [] => None
  | (j, s) :: cs' => if Nat.eqb i j then Some s else cap i cs'
  end.

(** The matcher walks the input keeping the consumed part reversed
    ([b], which also holds what precedes the match) and the remaining part
    ([r]).  [span b b'] is the text consumed between two such points. *)
Definition span (b b' : str) : str := rev (firstn (length b' - length b) b').

Definition mresult : Type := str * str * caps.
Definition cont := str -> str -> caps -> option mresult.

Definition canMore (hi : option nat) : bool :=
  match hi with Some 0%nat => false | _ => true end.

Definition decr (hi : option nat) : option nat := option_map pred hi.

Definition stopAt (lo : nat) (k : cont) (b r : str) (cs : caps) : option mresult :=
  match lo with 0%nat => k b r cs | _ => None end.

(** Greedy quantifier on a class: take as many as allowed, give back one at
    a time while the continuation fails. *)
Fixpoint repeatG (p : char -> bool) (lo : nat) (hi : option nat) (k : cont)
    (b r : str) (cs : caps) : option mresult :=
  match r with
  | c :: r' =>
      if p c && canMore hi then
        match repeatG p (pred lo) (decr hi) k (c :: b) r' cs with
        | Some x => Some x
        | None => stopAt lo k b r cs
        end
      else stopAt lo k b r cs
  | [] => stopAt lo k b r cs
  end.

(** Lazy quantifier on a class: try the continuation first, take one more
    while it fails. *)
Fixpoint repeatL (p : char -> bool) (lo : nat) (hi : option nat) (k : cont)
    (b r : str) (cs : caps) : option mresult :=
  match stopAt lo k b r cs with
  | Some x => Some x
  | None =>
      match r with
      | c :: r' =>
          if p c && canMore hi then repeatL p (pred lo) (decr hi) k (c :: b) r' cs
          else None
      | [] => None
      end
  end.

Definition headIsWord (b : str) : bool :=
  match b with c :: _ => isWord c | [] => false end.

Fixpoint run (re : regex) (k : cont) (b r : str) (cs : caps) : option mresult :=
  match re with
  | Empty => k b r cs
  | Class p =>
      match r with
      | c :: r' => if p c then k (c :: b) r' cs else None
      | [] => None
      end
  | Seq r1 r2 => run r1 (run r2 k) b r cs
  | Group i r1 => run r1 (fun b' r' cs' => k b' r' ((i, span b b') :: cs')) b r cs
  | Optional r1 =>
      match run r1 k b r cs with
      | Some x => Some x
      | None => k b r cs
      end
  | Repeat g lo hi p => (if g then repeatG else repeatL) p lo hi k b r cs
  | Bol => match b with [] => k b r cs | _ :: _ => None end
  | Eol => match r with [] => k b r cs | _ :: _ => None end
  | WordBoundary => if xorb (headIsWord b) (headIsWord r) then k b r cs else None
  end.

Definition accept : cont := fun b r cs => Some (b, r, cs).

(** The result of [RegExp.prototype.exec]: the text before the match, the
    match, the text after it and the captures. *)
Record Match : Type := mkMatch {
  pre : str;
  matched : str;
  post : str;
  groups : caps
}.

Definition matchAt (re : regex) (b r : str) : option Match :=
  match run re accept b r [] with
  | Some (b', r', cs) => Some (mkMatch (rev b) (span b b') r' cs)
  | None => None
  end.

(** Try every start index from the left. *)
Fixpoint search (re : regex) (b r : str) : option Match :=
  match matchAt re b r with
  | Some m => Some m
  | None =>
      match r with
      | c :: r' => search re (c :: b) r'
      | [] => None
      end
  end.

Definition exec (re : regex) (s : str) : option Match := search re [] s.

Definition test (re : regex) (s : str) : bool :=
  match exec re s with Some _ => true | None => false end.

(** [s.replace(re, f)] for a regex without the [g] flag: the first match is
    replaced by what the replacer returns. *)
Definition replace (re : regex) (f : Match -> str) (s : str) : str :=
  match exec re s with
  | Some m => pre m ++ f m ++ post m
  | None => s
  end.

(** [s.match(re)] for a regex with the [g] flag: every match, left to right,
    the search resuming where the previous match ended (one further on after
    an empty match).  [skip] counts the characters of the previous match
    still to step over. *)
Fixpoint matchAllFrom (re : regex) (skip : nat) (b r : str) : list str :=
  match skip with
  | S n =>
      match r with
      | c :: r' => matchAllFrom re n (c :: b) r'
      | [] => []
      end
  | O =>
      match matchAt re b r with
      | Some m =>
          matched m ::
          match r with
          | c :: r' => matchAllFrom re (Nat.pred (length (matched m))) (c :: b) r'
          | [] => []
          end
      | None =>
          match r with
          | c :: r' => matchAllFrom re 0 (c :: b) r'
          | [] => []
          end
      end
  end.

Definition matchAll (re : regex) (s : str) : list str := matchAllFrom re 0 [] s.

(** [a.join(sep)] *)
Fixpoint join (sep : str) (a : list str) : str :=
  match a with
  | [] => []
  | [x] => x
  | x :: a' => x ++ sep ++ join sep a'
  end.

(** ** The editor model

    The Monaco text model hands out its content as lines
    ([model.getLinesContent()], [model.getLineContent(n)], lines numbered
    from 1) and takes single-line edits ([pushEditOperations] /
    [executeEdits] with a range covering one whole line). *)

Definition Model := list str.

Definition LF : char := 10.
Definition CR : char := 13.

(** Modelled from the spec: the editor widget is an external collaborator
    of which the code only uses "get full text / replace a line range"; the
    spec's "split into lines" is modelled here as the split of a text at
    LF, CR LF and CR that the widget performs when it builds its model. *)
Fixpoint splitLines (cur : str) (text : str) : list str :=
  match text with
  | [] => [rev cur]
  | c :: text' =>
      if c =? LF then rev cur :: splitLines [] text'
      else if c =? CR then
        match text' with
        | d :: text'' =>
            if d =? LF then rev cur :: splitLines [] text''
            else rev cur :: splitLines [] text'
        | [] => rev cur :: splitLines [] text'
        end
      else splitLines (c :: cur) text'
  end.

Definition createModel (text : str) : Model := splitLines [] text.

(** [model.getLineContent(lineNumber)]; the widget raises an error for a
    line number outside the model ([None]). *)
Definition getLineContent (m : Model) (lineNumber : nat) : option str :=
  match lineNumber with
  | O => None
  | S i => nth_error m i
  end.

Fixpoint setNth (i : nat) (x : str) (m : Model) : Model :=
  match m, i with
  | [], _ => []
  | _ :: m', O => x :: m'
  | y :: m', S i' => y :: setNth i' x m'
  end.

(** The edit [{range: Range(n, 1, n, line.length + 1), text: newLine}]:
    the content of line [n] becomes [newLine]. *)
Definition replaceLine (m : Model) (lineNumber : nat) (newLine : str) : Model :=
  match lineNumber with
  | O => m
  | S i => setNth i newLine m
  end.

(** ** parseTasks *)

(** The regex literal "/^(#{1,3})\s+(.*?)(?:\s+(#[0-9A-Fa-f]{6}))?\s*$/" *)
Definition reHeading : regex :=
  (Bol ;; Group 1 (Repeat true 1 (Some 3%nat) isHash) ;; plus isSpace ;;
   Group 2 (lazyStar isDot) ;;
   Optional (plus isSpace ;; Group 3 (Class isHash ;; times 6 isHex)) ;;
   star isSpace ;; Eol)%regex.

(** The regex literal "/^(\s*)[-*+]\s*\[([ x/])\]\s*(.*)$/" *)
Definition reTask : regex :=
  (Bol ;; Group 1 (star isSpace) ;; Class isBullet ;; star isSpace ;;
   Class isLBracket ;; Group 2 (Class isStatusChar) ;; Class isRBracket ;;
   star isSpace ;; Group 3 (star isDot) ;; Eol)%regex.

(** The regex literal "/\+[\w-]+/g" *)
Definition reTag : regex := (Chr 43 ;; plus isWordOrHyphen)%regex.

(** The date pattern "\d{4}-\d{2}-\d{2}" *)
Definition reDate : regex :=
  (times 4 isDigit ;; Class isDash ;; times 2 isDigit ;; Class isDash ;;
   times 2 isDigit)%regex.

(** The regex literal "/\bdue:\d{4}-\d{2}-\d{2}\b/" *)
Definition reDueB : regex :=
  (WordBoundary ;; Lit (lit "due:") ;; reDate ;; WordBoundary)%regex.

(** The regex literal "/\bstart:\d{4}-\d{2}-\d{2}\b/" *)
Definition reStartB : regex :=
  (WordBoundary ;; Lit (lit "start:") ;; reDate ;; WordBoundary)%regex.

(** The regex literal "/\(([abc])\)/" *)
Definition rePrio : regex := (Chr 40 ;; Group 1 (Class isPrio) ;; Chr 41)%regex.

Record Task : Type := mkTask {
  id : str;
  lineNumber : nat;
  status : str;
  text : str;
  heading : option str;
  color : str;
  tags : str;
  due : option str;
  start : option str;
  priority : option str
}.

Definition defaultColor : str := lit "#1976D2".

(** The text of capture [i].  The source reads this way only groups that
    are not optional, so that they took part whenever the regex matched; the
    empty default stands for a group that did not. *)
Definition group (i : nat) (m : Match) : str :=
  match cap i (groups m) with Some s => s | None => [] end.

(** [a || b] on strings: the empty string is falsy. *)
Definition orElse (a b : str) : str :=
  match a with [] => b | _ :: _ => a end.

Definition statusOfChar (statusCh : str) : str :=
  if str_eqb statusCh (lit "/") then lit "inprogress"
  else if str_eqb statusCh (lit "x") then lit "done"
  else lit "backlog".

(** The body of the [if (m)] branch: the task record of line [i + 1]. *)
Definition taskOfMatch (i : nat) (lastHeading : option str) (lastColor : str)
    (m : Match) : Task :=
  let statusCh := group 2 m in
  let status := statusOfChar statusCh in
  let text := group 3 m in
  let tags := join (lit " ") (matchAll reTag text) in
  let due := option_map matched (exec reDueB text) in
  let start := option_map matched (exec reStartB text) in
  let prio := match exec rePrio text with
              | Some pm => cap 1 (groups pm)
              | None => None
              end in
  mkTask (lit "ln-" ++ numToStr (i + 1)) (i + 1) status text lastHeading
         (orElse lastColor defaultColor) tags due start prio.

(** The trackers after a heading line: [lastHeading = h[2].trim()], and
    [lastColor = h[3]] only when the heading carries a colour. *)
Definition headingColor (h : Match) (lastColor : str) : str :=
  match cap 3 (groups h) with
  | Some c => orElse c lastColor
  | None => lastColor
  end.

(** The [for] loop over the lines, from index [i] on. *)
Fixpoint parseLoop (i : nat) (lastHeading : option str) (lastColor : str)
    (lines : list str) : list Task :=
  match lines with
  | [] => []
  | line :: rest =>
      match exec reHeading line with
      | Some h =>
          parseLoop (S i) (Some (trim (group 2 h))) (headingColor h lastColor) rest
      | None =>
          match exec reTask line with
          | Some m =>
              taskOfMatch i lastHeading lastColor m
              :: parseLoop (S i) lastHeading lastColor rest
          | None => parseLoop (S i) lastHeading lastColor rest
          end
      end
  end.

(** [parseTasks()]; [editor] is the global editor instance, [None] while it
    has not been created. *)
Definition parseTasks (editor : option Model) : list Task :=
  match editor with
  | None => []
  | Some model => parseLoop 0 None defaultColor model
  end.

(** ** Line patchers *)

(** The regex literal "/^(\s*-\s*\[)([ x/])(\])/" *)
Definition reToggle : regex :=
  (Bol ;; Group 1 (star isSpace ;; Class isDash ;; star isSpace ;; Class isLBracket) ;;
   Group 2 (Class isStatusChar) ;; Group 3 (Class isRBracket))%regex.

(** The replacer of [toggleTaskStatus]. *)
Definition toggleReplacer (m : Match) : str :=
  let p1 := group 1 m in
  let p2 := group 2 m in
  let p3 := group 3 m in
  if str_eqb p2 (lit " ") then p1 ++ lit "/" ++ p3
  else if str_eqb p2 (lit "/") then p1 ++ lit "x" ++ p3
  else p1 ++ lit " " ++ p3.

(** [toggleTaskStatus()] of the Monaco editor, as the new content of the
    cursor's line. *)
Definition toggleTaskStatus (line : str) : str :=
  replace reToggle toggleReplacer line.

(** The Ace editor's [toggleTaskStatus] (app.js) tests three patterns in
    turn: "/^(\s*)-\s*\[\s*\]/", "/^(\s*)-\s*\[\/\]/", "/^(\s*)-\s*\[x\]/". *)
Definition reAcePending : regex :=
  (Bol ;; Group 1 (star isSpace) ;; Class isDash ;; star isSpace ;;
   Class isLBracket ;; star isSpace ;; Class isRBracket)%regex.

Definition reAceInProgress : regex :=
  (Bol ;; Group 1 (star isSpace) ;; Class isDash ;; star isSpace ;;
   Class isLBracket ;; Class isSlash ;; Class isRBracket)%regex.

Definition reAceDone : regex :=
  (Bol ;; Group 1 (star isSpace) ;; Class isDash ;; star isSpace ;;
   Class isLBracket ;; Class isX ;; Class isRBracket)%regex.

(** "/^(\s*)/" and "/^-\s*/" of the fallback branch. *)
Definition reIndent : regex := (Bol ;; Group 1 (star isSpace))%regex.
Definition reLeadingDash : regex := (Bol ;; Class isDash ;; star isSpace)%regex.

Definition aceToggleTaskStatus (line : str) : str :=
  if test reAcePending line then
    replace reAcePending (fun m => group 1 m ++ lit "- [/]") line
  else if test reAceInProgress line then
    replace reAceInProgress (fun m => group 1 m ++ lit "- [x]") line
  else if test reAceDone line then
    replace reAceDone (fun m => group 1 m ++ lit "- [ ]") line
  else
    let indent := match exec reIndent line with
                  | Some m => group 1 m
                  | None => []
                  end in
    let content := replace reLeadingDash (fun _ => [])
                     (replace reIndent (fun _ => []) line) in
    indent ++ lit "- [ ] " ++ content.

(** The regex literal "/due:\d{4}-\d{2}-\d{2}/" *)
Definition reDue : regex := (Lit (lit "due:") ;; reDate)%regex.

(** The regex literal "/start:\d{4}-\d{2}-\d{2}/" *)
Definition reStart : regex := (Lit (lit "start:") ;; reDate)%regex.

(** [addTodaysDate()] of the Monaco editor, as the new content of the
    cursor's line.  [today] is [new Date().toISOString().split('T')[0]], a
    run of digits and hyphens, so the replacement text holds no [$]
    pattern and is inserted as it is. *)
Definition addTodaysDate (today : str) (line : str) : str :=
  if includes (lit "due:") line then
    replace reDue (fun _ => lit "due:" ++ today) line
  else
    let separator := if endsWith (lit " ") line then [] else lit " " in
    line ++ separator ++ lit "due:" ++ today.

(** The Ace editor's [addTodaysDate] (app.js). *)
Definition aceAddTodaysDate (today : str) (line : str) : str :=
  if includes (lit "due:") line then
    replace reDue (fun _ => lit "due:" ++ today) line
  else
    line ++ lit " due:" ++ today.

(** The "Replace or add start" and "Replace or add due" steps of
    [updateTaskDatesAtLine]; the date arguments are the formatted dates
    [format(startDate)] and [format(endDate)]. *)
Definition setStart (startDate : str) (newLine : str) : str :=
  if test reStartB newLine then
    replace reStart (fun _ => lit "start:" ++ startDate) newLine
  else
    newLine ++ (if endsWith (lit " ") newLine then [] else lit " ")
            ++ lit "start:" ++ startDate.

Definition setDue (endDate : str) (newLine : str) : str :=
  if test reDueB newLine then
    replace reDue (fun _ => lit "due:" ++ endDate) newLine
  else
    newLine ++ (if endsWith (lit " ") newLine then [] else lit " ")
            ++ lit "due:" ++ endDate.

(** [updateTaskDatesAtLine(lineNumber, startDate, endDate)]; [None] when
    the model has no such line. *)
Definition updateTaskDatesAtLine (m : Model) (lineNumber : nat)
    (startDate endDate : str) : option Model :=
  match getLineContent m lineNumber with
  | None => None
  | Some line =>
      Some (replaceLine m lineNumber (setDue endDate (setStart startDate line)))
  end.

(** The regex literal "/^(\s*[-*+]\s*\[)([ x/])(\])/" *)
Definition reUpdate : regex :=
  (Bol ;; Group 1 (star isSpace ;; Class isBullet ;; star isSpace ;; Class isLBracket) ;;
   Group 2 (Class isStatusChar) ;; Group 3 (Class isRBracket))%regex.

(** [mapped[targetStatus] || ' '] with
    [mapped = { backlog: ' ', inprogress: '/', done: 'x' }]; the target is a
    column's [data-status]. *)
Definition mapped (targetStatus : str) : str :=
  if str_eqb targetStatus (lit "backlog") then lit " "
  else if str_eqb targetStatus (lit "inprogress") then lit "/"
  else if str_eqb targetStatus (lit "done") then lit "x"
  else lit " ".

(** [updateTaskStatusAtLine(lineNumber, targetStatus)]; [None] when the
    model has no such line. *)
Definition updateTaskStatusAtLine (m : Model) (lineNumber : nat)
    (targetStatus : str) : option Model :=
  match getLineContent m lineNumber with
  | None => None
  | Some line =>
      let ch := mapped targetStatus in
      let newLine := replace reUpdate (fun mt => group 1 mt ++ ch ++ group 3 mt) line in
      if negb (str_eqb newLine line) then Some (replaceLine m lineNumber newLine)
      else Some m
  end.

(** ** The heading decoration regex of applyHeadingColors

    The regex literal "/^#{1,3}\s+(.*?)(?:\s+(#[0-9A-Fa-f]{6}))?$/" *)
Definition reHeadingColor : regex :=
  (Bol ;; Repeat true 1 (Some 3%nat) isHash ;; plus isSpace ;;
   Group 1 (lazyStar isDot) ;;
   Optional (plus isSpace ;; Group 2 (Class isHash ;; times 6 isHex)) ;; Eol)%regex.

(** The colour [applyHeadingColors] decorates a line with
    ([match && match[2]]). *)
Definition decoratedColor (line : str) : option str :=
  match exec reHeadingColor line with
  | Some m => match cap 2 (groups m) with
              | Some (_ :: _) as c => c
              | _ => None
              end
  | None => None
  end.

(** * Vocabulary of the statements

    Auxiliary definitions used to state and prove the properties below:
    the pieces of the regexes that several of them share, the shapes of
    lines, and sample documents. *)

(** The longest prefix of [s] in the class [p], and what follows it. *)
Fixpoint takeWhile (p : char -> bool) (s : str) : str :=
  match s with
  | c :: s' => if p c then c :: takeWhile p s' else []
  | [] => []
  end.

Fixpoint dropWhile (p : char -> bool) (s : str) : str :=
  match s with
  | c :: s' => if p c then dropWhile p s' else s
  | [] => []
  end.

(** A continuation that fails on every input starting with a character of
    the class [p]: what follows [p*] in the regex cannot start with [p]. *)
Definition rejects (p : char -> bool) (k : cont) : Prop :=
  forall c b r cs, p c = true -> k b (c :: r) cs = None.

(** [checkboxPrefix q] splits a line at its checkbox: indentation, a bullet
    of class [q], whitespace, an opening bracket, the status character, a
    closing bracket, and the rest of the line. *)
Definition checkboxPrefix (q : char -> bool) (line : str)
    : option (str * char * str * char * str) :=
  match dropWhile isSpace line with
  | bul :: r1 =>
      if q bul then
        match dropWhile isSpace r1 with
        | lb :: st :: rb :: r2 =>
            if isLBracket lb && isStatusChar st && isRBracket rb
            then Some (takeWhile isSpace line, bul, takeWhile isSpace r1, st, r2)
            else None
        | _ => None
        end
      else None
  | [] => None
  end.

(** The shape shared by [reUpdate] ([q] is the bullet class) and
    [reToggle] ([q] is the dash). *)
Definition reBracketed (q : char -> bool) : regex :=
  (Bol ;; Group 1 (star isSpace ;; Class q ;; star isSpace ;; Class isLBracket) ;;
   Group 2 (Class isStatusChar) ;; Group 3 (Class isRBracket))%regex.

(** [reTask] up to its closing bracket, followed by [tail]. *)
Definition reTaskWith (tail : regex) : regex :=
  (Bol ;; Group 1 (star isSpace) ;; Class isBullet ;; star isSpace ;;
   Class isLBracket ;; Group 2 (Class isStatusChar) ;; Class isRBracket ;;
   tail)%regex.

(** What follows the checkbox in [reTask]. *)
Definition taskTail : regex := (star isSpace ;; Group 3 (star isDot) ;; Eol)%regex.

(** A sample document, and the two tasks its parse finds. *)
Definition demoModel : Model :=
  [lit "# Work #00AA00"; lit "  * [/] write report +doc"; lit "notes"; lit "- [ ] call Bob"].

Definition demoTask : Task :=
  Eval vm_compute in
    nth 0 (parseTasks (Some demoModel)) (mkTask [] 0 [] [] None [] [] None None None).

Definition demoPending : Task :=
  Eval vm_compute in
    nth 1 (parseTasks (Some demoModel)) (mkTask [] 0 [] [] None [] [] None None None).

(** The lines the parse recognises, written out: indentation, a bullet,
    optional whitespace, the bracketed status character, optional
    whitespace, and a body free of line terminators. *)
Definition taskShape (line : str) : Prop :=
  exists ind bul ws st ws' body,
    line = ind ++ bul :: ws ++ lit "[" ++ st :: lit "]" ++ ws' ++ body /\
    forallb isSpace ind = true /\ isBullet bul = true /\
    forallb isSpace ws = true /\ isStatusChar st = true /\
    forallb isSpace ws' = true /\ forallb isDot body = true.

(** The documents of the literal scenarios. *)
Definition milkLine : str := lit "- [ ] buy milk +grocery due:2025-01-20 (a)".

Definition inheritDoc : str :=
  lit "# A" ++ LF :: lit "## B #FF0000" ++ LF :: lit "- [ ] t1" ++ LF ::
  lit "# C" ++ LF :: lit "- [ ] t2".

(** The optional colour of a heading regex, and the part of a heading
    regex from its title on; [fin] is what closes the line. *)
Definition colorGroup (j : nat) : regex :=
  (plus isSpace ;; Group j (Class isHash ;; times 6 isHex))%regex.

Definition colorTail (i j : nat) (fin : regex) : regex :=
  (Group i (lazyStar isDot) ;; Optional (colorGroup j) ;; fin)%regex.

(** [fin] matches at the end of the line, matches nothing but trailing
    whitespace, and captures nothing. *)
Definition endsLine (fin : regex) : Prop :=
  (forall b cs, run fin accept b [] cs = Some (b, [], cs)) /\
  (forall b v cs x, run fin accept b v cs = Some x ->
     forallb isSpace v = true /\ exists b', x = (b', [], cs)).

(** A heading line of level three: three hashes, whitespace, the title,
    whitespace, and a colour of six hex digits. *)
Definition coloredHeading (ws title ws2 hex : str) : str :=
  lit "###" ++ ws ++ title ++ ws2 ++ lit "#" ++ hex.

(** A title with something in it besides whitespace. *)
Definition nonBlank (s : str) : bool := existsb (fun c => negb (isSpace c)) s.

(** The cycle of the status character: space, slash, x, space. *)
Definition nextStatusChar (c : char) : char :=
  if c =? 32 then 47 else if c =? 47 then 120 else 32.

(** A task line whose bullet is a dash. *)
Definition dashLine (ind ws : str) (st : char) (rest : str) : str :=
  ind ++ lit "-" ++ ws ++ lit "[" ++ st :: lit "]" ++ rest.

(** The status character the parse reads off a line. *)
Definition statusCharOf (line : str) : option char :=
  match exec reTask line with
  | Some m => hd_error (group 2 m)
  | None => None
  end.

(** The three patterns of the Ace toggle share all but the bracket
    content [mid]. *)
Definition reAceWith (mid : regex) : regex :=
  (Bol ;; Group 1 (star isSpace) ;; Class isDash ;; star isSpace ;;
   Class isLBracket ;; mid ;; Class isRBracket)%regex.

(** The number of positions of [s] at which [p] occurs. *)
Fixpoint countOcc (p s : str) : nat :=
  (if startsWith p s then 1 else 0) +
  match s with
  | [] => 0
  | _ :: s' => countOcc p s'
  end.

(** A formatted date as [toISOString] gives it: digits and hyphens. *)
Definition isDateText (d : str) : bool :=
  forallb (fun c => isDigit c || isDash c) d.

(** A text of the form "\d{4}-\d{2}-\d{2}". *)
Definition isDate (X : str) : bool :=
  match X with
  | [y1; y2; y3; y4; h1; m1; m2; h2; d1; d2] =>
      isDigit y1 && isDigit y2 && isDigit y3 && isDigit y4 && isDash h1 &&
      isDigit m1 && isDigit m2 && isDash h2 && isDigit d1 && isDigit d2
  | _ => false
  end.

(** [X] is the first "due:" date of [line]: the line splits around it and no
    "due:" date starts further left. *)
Definition firstDueDate (line pre X post : str) : Prop :=
  line = pre ++ lit "due:" ++ X ++ post /\ isDate X = true /\
  forall pre' X' post',
    line = pre' ++ lit "due:" ++ X' ++ post' -> isDate X' = true ->
    (length pre <= length pre')%nat.

(** ** Vocabulary of the further properties *)

(** A task record with another status. *)
Definition withStatus (s : str) (t : Task) : Task :=
  mkTask (id t) (lineNumber t) s (text t) (heading t) (color t) (tags t)
         (due t) (start t) (priority t).

(** The three status names of the board. *)
Definition statusNames : list str := [lit "backlog"; lit "inprogress"; lit "done"].

(** The next status of the toggle cycle, by name. *)
Definition nextStatus (s : str) : str :=
  if str_eqb s (lit "backlog") then lit "inprogress"
  else if str_eqb s (lit "inprogress") then lit "done"
  else lit "backlog".

(** What an edit of one line does to the parse: the task of line [n] gets
    the status [s], every other task stays. *)
Definition restatus (n : nat) (s : str) (ts : list Task) : list Task :=
  map (fun u => if (lineNumber u =? n)%nat then withStatus s u else u) ts.

(** Looking upward from a line ([aboveRev] holds the lines above it,
    nearest first): the trimmed title of the nearest heading line, and the
    colour of the nearest heading line that carries one. *)
Fixpoint nearestHeading (aboveRev : list str) : option str :=
  match aboveRev with
  | [] => None
  | l :: above =>
      match exec reHeading l with
      | Some h => Some (trim (group 2 h))
      | None => nearestHeading above
      end
  end.

Fixpoint nearestColor (aboveRev : list str) : str :=
  match aboveRev with
  | [] => defaultColor
  | l :: above =>
      match exec reHeading l with
      | Some h =>
          match cap 3 (groups h) with
          | Some ((_ :: _) as c) => c
          | _ => nearestColor above
          end
      | None => nearestColor above
      end
  end.

(** The lines above line [n] of a model, nearest first. *)
Definition linesAbove (m : Model) (n : nat) : list str := rev (firstn (n - 1) m).

(** The shape of the two dated-field regexes of [parseTasks]. *)
Definition reFieldB (name : str) : regex :=
  (WordBoundary ;; Lit name ;; reDate ;; WordBoundary)%regex.

(** ** Editor actions of initEditor *)

(** The regex literal "/^\s*[-*+]\s*\[.\]/" of the Tab and Enter actions. *)
Definition reCheckboxAny : regex :=
  (Bol ;; star isSpace ;; Class isBullet ;; star isSpace ;;
   Class isLBracket ;; Class isDot ;; Class isRBracket)%regex.

(** The current indentation of a line: group 1 of "/^(\s*)/". *)
Definition currentIndentOf (line : str) : str :=
  match exec reIndent line with
  | Some m => group 1 m
  | None => []
  end.

(** The Tab action ("indentTask"): on a task line the new content of the
    line, the edit replacing columns 1 to [currentIndent.length + 1] by the
    indentation and four spaces; [None] stands for the default tab
    behaviour. *)
Definition indentTask (line : str) : option str :=
  if test reCheckboxAny line then
    let currentIndent := currentIndentOf line in
    let newIndent := currentIndent ++ lit "    " in
    Some (newIndent ++ skipn (length currentIndent) line)
  else None.

(** The regex literal "/^(#{1,3})\s+(.+?)(\s+#[0-9A-Fa-f]{6})?\s*$/" *)
Definition reEnterHeading : regex :=
  (Bol ;; Group 1 (Repeat true 1 (Some 3%nat) isHash) ;; plus isSpace ;;
   Group 2 (lazyPlus isDot) ;;
   Optional (Group 3 (plus isSpace ;; Class isHash ;; times 6 isHex)) ;;
   star isSpace ;; Eol)%regex.

(** The regex literal "/^#{1,3}\s+.*\s+(#[0-9A-Fa-f]{6})\s*$/" *)
Definition reInheritHex : regex :=
  (Bol ;; Repeat true 1 (Some 3%nat) isHash ;; plus isSpace ;; star isDot ;;
   plus isSpace ;; Group 1 (Class isHash ;; times 6 isHex) ;;
   star isSpace ;; Eol)%regex.

(** The regex literal "/\s+$/" *)
Definition reTrailingSpace : regex := (plus isSpace ;; Eol)%regex.

(** The loop [for (let i = lineNumber - 2; i >= 0; i--)] over the lines
    above, nearest first: the hex of the nearest heading that has one. *)
Fixpoint findInheritedHex (aboveRev : list str) : option str :=
  match aboveRev with
  | [] => None
  | l :: above =>
      match exec reInheritHex l with
      | Some m => Some (group 1 m)
      | None => findInheritedHex above
      end
  end.

(** What the Enter action ("newTaskLine") does to the line of the cursor:
    [TypeNewline l] leaves the content [l] in the line and goes on with the
    default Enter; [Replaced ls] puts the lines [ls] in its place. *)
Inductive EnterResult : Type :=
| TypeNewline (lineNow : str)
| Replaced (newLines : list str).

(** The Enter action at line [lineNumber], cursor column [column]; [None]
    when the model has no such line. *)
Definition enterKey (m : Model) (lineNumber column : nat) : option EnterResult :=
  match getLineContent m lineNumber with
  | None => None
  | Some line =>
      if str_eqb (trim line) [] then Some (TypeNewline line)
      else
        match exec reEnterHeading line with
        | Some headingMatch =>
            let hasHex := match cap 3 (groups headingMatch) with
                          | Some (_ :: _) => true
                          | _ => false
                          end in
            if negb hasHex then
              let inheritedHex :=
                match findInheritedHex (rev (firstn (lineNumber - 1) m)) with
                | Some ((_ :: _) as hex) => hex
                | _ => lit "#1976D2"
                end in
              let trimmedRight := replace reTrailingSpace (fun _ => []) line in
              Some (TypeNewline (trimmedRight ++ lit " " ++ inheritedHex))
            else Some (TypeNewline line)
        | None =>
            if test reCheckboxAny line then
              let currentIndent := currentIndentOf line in
              if (length line <=? column)%nat then
                Some (Replaced [line; currentIndent ++ lit "- [ ] "])
              else
                let before := firstn (column - 1) line in
                let after := skipn (column - 1) line in
                Some (Replaced [before; currentIndent ++ lit "- [ ] " ++ after])
            else Some (TypeNewline line)
        end
  end.

(** A colour token: a hash and six hex digits. *)
Definition isColor (s : str) : bool :=
  match s with
  | c :: h6 => isHash c && (length h6 =? 6)%nat && forallb isHex h6
  | [] => false
  end.

(** ** The new-task dialog *)

(** An entry of [collectHeadings]: [{ line, level, title }]. *)
Record HeadingEntry : Type := mkHeadingEntry {
  hLine : nat;
  hLevel : nat;
  hTitle : str
}.

(** The loop of [collectHeadings], from index [i] on. *)
Fixpoint collectLoop (i : nat) (lines : list str) : list HeadingEntry :=
  match lines with
  | [] => []
  | l :: rest =>
      match exec reHeading l with
      | Some m =>
          mkHeadingEntry (i + 1) (length (group 1 m)) (group 2 m)
          :: collectLoop (S i) rest
      | None => collectLoop (S i) rest
      end
  end.

Definition collectHeadings (m : Model) : list HeadingEntry := collectLoop 0 m.

(** The regex literal "/^(#{1,3})\s/" *)
Definition reHeadingLevel : regex :=
  (Bol ;; Group 1 (Repeat true 1 (Some 3%nat) isHash) ;; Class isSpace)%regex.

(** [h[1].length] for [h = t.match(/^(#{1,3})\s/)], when it matches. *)
Definition headingLevelOf (t : str) : option nat :=
  match exec reHeadingLevel t with
  | Some h => Some (length (group 1 h))
  | None => None
  end.

(** The loop [for (let ln = headingLine + 1; ln <= total; ln++)] of
    [insertTaskUnderHeading], at line [ln] with the lines from [ln] on: the
    value of [insertAt] when it ends. *)
Fixpoint findInsertAt (level ln : nat) (linesFrom : list str) : nat :=
  match linesFrom with
  | [] => ln
  | t :: rest =>
      match headingLevelOf t with
      | Some l => if (l <=? level)%nat then ln else findInsertAt level (S ln) rest
      | None => findInsertAt level (S ln) rest
      end
  end.

(** [pieces.join(' ')]: the text of the new line; an empty [start] or [due]
    (no date chosen) adds no piece. *)
Definition newTaskLineText (text metaStart metaDue : str) : str :=
  join (lit " ")
    ([lit "- [ ]"; text]
     ++ (match metaStart with [] => [] | _ :: _ => [lit "start:" ++ metaStart] end)
     ++ (match metaDue with [] => [] | _ :: _ => [lit "due:" ++ metaDue] end)).

(** [insertTaskUnderHeading(headingLine, text, { start, due })], as the
    edit it pushes: the line number [insertAt] in front of which the new
    line goes, and the text of the new line.  [None] when the model has no
    line [headingLine]. *)
Definition insertTaskUnderHeading (m : Model) (headingLine : nat)
    (text metaStart metaDue : str) : option (nat * str) :=
  match getLineContent m headingLine with
  | None => None
  | Some headingLineText =>
      let level := match headingLevelOf headingLineText with
                   | Some l => l
                   | None => 1%nat
                   end in
      let insertAt := findInsertAt level (headingLine + 1) (skipn headingLine m) in
      Some (insertAt, newTaskLineText text metaStart metaDue)
  end.

(** The document after the edit [insertTaskUnderHeading] pushes: the text
    [lineText + "\n"] put at the empty range at line [insertAt], column 1.
    At a line of the model the text becomes a line of its own in front of
    that line.  The loop of [insertTaskUnderHeading] can also end with
    [insertAt] one below the last line; the editor widget moves such a
    position to the end of the last line, so the text is appended to the
    last line and its line break opens an empty last line. *)
Definition insertLineBefore (m : Model) (insertAt : nat) (lineText : str) : Model :=
  if (insertAt <=? length m)%nat then
    firstn (insertAt - 1) m ++ lineText :: skipn (insertAt - 1) m
  else
    removelast m ++ [last m [] ++ lineText; []].

(** The number of leading hashes of a line. *)
Definition hashRun (line : str) : nat := length (takeWhile isHash line).

Definition fits (hi : option nat) (n : nat) : bool :=
  match hi with Some h => (n <=? h)%nat | None => true end.

(** The numbers of the capturing groups of a regex. *)
Fixpoint groupsOf (re : regex) : list nat :=
  match re with
  | Seq r1 r2 => groupsOf r1 ++ groupsOf r2
  | Group i r => i :: groupsOf r
  | Optional r => groupsOf r
  | _ => []
  end.

(** [reHeading] after its hashes. *)
Definition headingRest : regex :=
  (plus isSpace ;; Group 2 (lazyStar isDot) ;;
   Optional (plus isSpace ;; Group 3 (Class isHash ;; times 6 isHex)) ;;
   star isSpace ;; Eol)%regex.

(** The text of a task made by the new-task dialog: what follows the
    checkbox in the line [insertTaskUnderHeading] writes. *)
Definition dialogBody (text metaStart metaDue : str) : str :=
  text
  ++ (match metaStart with [] => [] | _ :: _ => lit " start:" ++ metaStart end)
  ++ (match metaDue with [] => [] | _ :: _ => lit " due:" ++ metaDue end).

(** The dated field a chosen date gives: none for no date. *)
Definition fieldOf (name date : str) : option str :=
  match date with [] => None | _ :: _ => Some (name ++ date) end.

(** A task record moved one line down: the line number and the id follow
    the line. *)
Definition shiftTask (t : Task) : Task :=
  mkTask (lit "ln-" ++ numToStr (lineNumber t + 1)) (lineNumber t + 1) (status t)
         (text t) (heading t) (color t) (tags t) (due t) (start t) (priority t).

(** [createTaskFromDialog()], given what the dialog holds: the line of the
    selected heading ([sel], none when the document offers no heading), the
    typed text and the two dates (empty when no date is chosen).  The
    result is the edit of [insertTaskUnderHeading]; [None] when nothing is
    inserted, for a blank text. *)
Definition createTaskFromDialog (m : Model) (sel : option nat)
    (rawText metaStart metaDue : str) : option (nat * str) :=
  match trim rawText with
  | [] => None
  | (_ :: _) as text =>
      let targetLine := match sel with Some (S n) => S n | _ => 1%nat end in
      insertTaskUnderHeading m targetLine text metaStart metaDue
  end.

(** ** The Kanban cards *)

(** [s.replace(re, f)] for a regex with the [g] flag: every match, left to
    right, is replaced by what the replacer returns, the search resuming
    where the previous match ended (one further on after an empty match,
    the character stepped over being kept).  [skip] counts the characters
    of the previous match still to step over. *)
Fixpoint replaceAllFrom (re : regex) (f : Match -> str) (skip : nat) (b r : str) : str :=
  match skip with
  | S n =>
      match r with
      | c :: r' => replaceAllFrom re f n (c :: b) r'
      | [] => []
      end
  | O =>
      match matchAt re b r with
      | Some m =>
          f m ++
          match r with
          | c :: r' =>
              match matched m with [] => [c] | _ :: _ => [] end
              ++ replaceAllFrom re f (Nat.pred (length (matched m))) (c :: b) r'
          | [] => []
          end
      | None =>
          match r with
          | c :: r' => c :: replaceAllFrom re f 0 (c :: b) r'
          | [] => []
          end
      end
  end.

Definition replaceAll (re : regex) (f : Match -> str) (s : str) : str :=
  replaceAllFrom re f 0 [] s.

(** The class of the regex literal of [escapeHtml]: ampersand, angle
    brackets, double and single quote. *)
Definition isHtmlSpecial (c : char) : bool :=
  (c =? 38) || (c =? 60) || (c =? 62) || (c =? 34) || (c =? 39).

(** The object literal of the replacer, looked up with the matched
    character; a key it does not hold gives [undefined], which [replace]
    writes out as a word. *)
Definition htmlEntity (c : str) : str :=
  if str_eqb c [38] then lit "&amp;"
  else if str_eqb c [60] then lit "&lt;"
  else if str_eqb c [62] then lit "&gt;"
  else if str_eqb c [34] then lit "&quot;"
  else if str_eqb c [39] then lit "&#39;"
  else lit "undefined".

(** [escapeHtml(s)] for a string [s] (for which [String(s || '')] is [s]
    itself). *)
Definition escapeHtml (s : str) : str :=
  replaceAll (Class isHtmlSpecial) (fun m => htmlEntity (matched m)) s.

(** What [escapeHtml] writes for one character. *)
Definition escapeChar (c : char) : str :=
  if isHtmlSpecial c then htmlEntity [c] else [c].

(** The separator of the card's second line as the source file has it:
    a space, U+00AC, U+2211, a space. *)
Definition metaSep : str := [32; 172; 8721; 32].

(** The [innerHTML] of a card of [renderKanban]. *)
Definition cardHtml (t : Task) : str :=
  [10] ++ lit "            <div class=" ++ [34] ++ lit "title" ++ [34] ++ lit ">"
  ++ escapeHtml (text t) ++ lit "</div>"
  ++ [10] ++ lit "            <div class=" ++ [34] ++ lit "meta" ++ [34] ++ lit ">"
  ++ escapeHtml (match heading t with
                 | Some ((_ :: _) as h) => h
                 | _ => lit "Uncategorized"
                 end)
  ++ (match tags t with [] => [] | _ :: _ => metaSep ++ escapeHtml (tags t) end)
  ++ (match due t with
      | Some ((_ :: _) as d) => metaSep ++ escapeHtml d
      | _ => []
      end)
  ++ lit "</div>" ++ [10] ++ lit "        ".

(** The number of occurrences of a character. *)
Definition countChar (c : char) (s : str) : nat := length (filter (N.eqb c) s).

(** ** insertTask *)


(** ** The folding provider *)

(** The regex literal "/^(#+)\s/" *)
Definition reFoldHeader : regex :=
  (Bol ;; Group 1 (plus isHash) ;; Class isSpace)%regex.

(** The regex literal "/^\s*$/" *)
Definition reBlank : regex := (Bol ;; star isSpace ;; Eol)%regex.

Record Header : Type := mkHeader {
  level : nat;
  headerLine : nat;   (* the field [lineNumber] of the source, 1-based *)
  content : str
}.

(** First pass: the headers of the document, from index [i] on. *)
Fixpoint headersLoop (i : nat) (lines : list str) : list Header :=
  match lines with
  | [] => []
  | line :: rest =>
      match exec reFoldHeader line with
      | Some headerMatch =>
          mkHeader (length (group 1 headerMatch)) (i + 1) (trim line)
          :: headersLoop (S i) rest
      | None => headersLoop (S i) rest
      end
  end.

(** The inner loop over the later headers: the end of the section of a
    header of level [lv], [total] when no later header closes it. *)
Fixpoint endLineOf (lv : nat) (later : list Header) (total : nat) : nat :=
  match later with
  | [] => total
  | h :: later' =>
      if (level h <=? lv)%nat then (headerLine h - 1)%nat
      else endLineOf lv later' total
  end.

Record FoldingRange : Type := mkRange { fStart : nat; fEnd : nat }.

(** The body of the second pass for the header [current], [later] being
    the headers after it: the range pushed, if any. *)
Definition rangeOf (m : Model) (current : Header) (later : list Header)
    : list FoldingRange :=
  let endLine := endLineOf (level current) later (length m) in
  if (headerLine current <? endLine)%nat then
    let nextLineNumber := (headerLine current + 1)%nat in
    let startLine :=
      if (nextLineNumber <=? endLine)%nat then
        match getLineContent m nextLineNumber with
        | Some nextLineText =>
            if test reBlank nextLineText then nextLineNumber else headerLine current
        | None => headerLine current
        end
      else headerLine current in
    if (startLine <=? endLine)%nat then [mkRange startLine endLine] else []
  else [].

Fixpoint rangesLoop (m : Model) (headers : list Header) : list FoldingRange :=
  match headers with
  | [] => []
  | current :: later => rangeOf m current later ++ rangesLoop m later
  end.

(** [provideFoldingRanges(model)] *)
Definition provideFoldingRanges (m : Model) : list FoldingRange :=
  rangesLoop m (headersLoop 0 m).

(** Two folding ranges, the first starting first, are apart or nested. *)
Definition apartOrNested (r1 r2 : FoldingRange) : Prop :=
  (fStart r1 < fStart r2)%nat /\
  ((fEnd r1 < fStart r2)%nat \/ (fEnd r2 <= fEnd r1)%nat).

(** The level the folding provider gives a line: the number of its
    leading hashes when whitespace follows them. *)
Definition foldLevel (line : str) : option nat :=
  match exec reFoldHeader line with
  | Some headerMatch => Some (length (group 1 headerMatch))
  | None => None
  end.

(** A header record that stands for a line of the model. *)
Definition isHeaderOf (m : Model) (h : Header) : Prop :=
  exists line, getLineContent m (headerLine h) = Some line /\
               foldLevel line = Some (level h).

Definition byLine (a b : Header) : Prop := (headerLine a < headerLine b)%nat.

(** ** The Kanban filters *)

(** [s.split(re)] for a regex without capture groups.  The search walks
    the text; [cur] holds (reversed) the piece begun at the end of the last
    separator, [skip] counts the characters of the separator still to step
    over.  A match of the empty string where the current piece is empty is
    passed by. *)
Fixpoint splitFrom (re : regex) (skip : nat) (cur b r : str) : list str :=
  match r with
  | [] => [rev cur]
  | c :: r' =>
      match skip with
      | S n => splitFrom re n [] (c :: b) r'
      | O =>
          match matchAt re b r with
          | Some m =>
              match matched m with
              | [] =>
                  match cur with
                  | [] => splitFrom re 0 [c] (c :: b) r'
                  | _ :: _ => rev cur :: splitFrom re 0 [c] (c :: b) r'
                  end
              | _ :: w => rev cur :: splitFrom re (length w) [] (c :: b) r'
              end
          | None => splitFrom re 0 (c :: cur) (c :: b) r'
          end
      end
  end.

Definition split (re : regex) (s : str) : list str :=
  match s with
  | [] => match matchAt re [] [] with Some _ => [] | None => [[]] end
  | _ :: _ => splitFrom re 0 [] [] s
  end.

(** The regex literals "/\s+/" and "/^\+/" of [renderKanban]. *)
Definition reSpaces : regex := plus isSpace.
Definition rePlusPrefix : regex := (Bol ;; Chr 43)%regex.

(** [s.replace(/^\+/, '')] *)
Definition stripPlus (s : str) : str := replace rePlusPrefix (fun _ => []) s.

(** [a.includes(x)] on an array of strings. *)
Definition includesStr (x : str) (a : list str) : bool := existsb (str_eqb x) a.

(** The global [kanbanFilters]. *)
Record KanbanFilters : Type := mkKanbanFilters {
  fTags : list str;
  fPriorities : list str;
  fStatuses : list str
}.

(** The [tagList] of a task in the tag filter. *)
Definition tagListOf (t : Task) : list str :=
  map stripPlus
      (filter (fun s => negb (str_eqb s [])) (split reSpaces (tags t))).

Section Kanban.

(** [String.prototype.toLowerCase], which the priority filter applies to
    the priority of a task. *)
Variable toLowerCase : str -> str.

(** The "Apply filters" part of [renderKanban]. *)
Definition applyFilters (f : KanbanFilters) (tasks : list Task) : list Task :=
  let tasks :=
    match fStatuses f with
    | [] => tasks
    | _ :: _ => filter (fun t => includesStr (status t) (fStatuses f)) tasks
    end in
  let tasks :=
    match fPriorities f with
    | [] => tasks
    | _ :: _ =>
        filter (fun t => includesStr
                           (toLowerCase (match priority t with
                                         | Some p => p
                                         | None => []
                                         end))
                           (fPriorities f)) tasks
    end in
  match fTags f with
  | [] => tasks
  | _ :: _ =>
      filter (fun t => forallb (fun g => includesStr (stripPlus g) (tagListOf t))
                               (fTags f)) tasks
  end.

(** The drop zone a card is appended to: [zones[t.status] || zones.backlog],
    the zones being those of the three status names. *)
Definition zoneOf (t : Task) : str :=
  if includesStr (status t) statusNames then status t else lit "backlog".

(** [renderKanban()]: the cards of the zone with the given [data-status],
    in the order they are appended, each card standing for its task. *)
Definition renderKanban (f : KanbanFilters) (editor : option Model) (zone : str)
    : list Task :=
  filter (fun t => str_eqb (zoneOf t) zone) (applyFilters f (parseTasks editor)).

End Kanban.

(** Lower case for the letters A to Z, other characters kept. *)
Definition asciiLower (s : str) : str :=
  map (fun c => if (65 <=? c) && (c <=? 90) then c + 32 else c) s.

(** Whether a text starts with whitespace. *)
Definition headIsSpace (r : str) : bool :=
  match r with c :: _ => isSpace c | [] => false end.

(** ** The completion provider *)









Section Completion.

Variable toLowerCase : str -> str.
Variables today tomorrow nextweek : str.


End Completion.

(** ** Priority decorations *)

(** [s.indexOf(p)], counting from [i] for the start of [s]; [None] for the
    result -1. *)
Fixpoint indexOfFrom (p s : str) (i : nat) : option nat :=
  if startsWith p s then Some i
  else match s with
       | [] => None
       | _ :: s' => indexOfFrom p s' (S i)
       end.

Definition indexOf (p s : str) : option nat := indexOfFrom p s 0.

(** An inline decoration: its line, its start and end column, and its
    class name. *)
Record Decoration : Type := mkDecoration {
  decLine : nat;
  decStart : nat;
  decEnd : nat;
  decClass : str
}.

(** The loop of [applyPriorityDecorations] over the lines, from index [i]
    on. *)
Fixpoint priorityLoop (i : nat) (lines : list str) : list Decoration :=
  match lines with
  | [] => []
  | line :: rest =>
      match indexOf (lit "(b)") line with
      | Some bIdx => [mkDecoration (i + 1) (bIdx + 1) (bIdx + 4) (lit "prio-b")]
      | None => []
      end
      ++ match indexOf (lit "(c)") line with
         | Some cIdx => [mkDecoration (i + 1) (cIdx + 1) (cIdx + 4) (lit "prio-c")]
         | None => []
         end
      ++ priorityLoop (S i) rest
  end.

(** [applyPriorityDecorations()]: the decorations handed to the editor. *)
Definition applyPriorityDecorations (editor : option Model) : list Decoration :=
  match editor with
  | None => []
  | Some model => priorityLoop 0 model
  end.

(** The text a decoration covers in its line. *)
Definition decorated (line : str) (dc : Decoration) : str :=
  firstn (decEnd dc - decStart dc) (skipn (decStart dc - 1) line).

(** The [drop] handler of a zone, [ln] being the line number carried by
    the dragged card: the document after the drop.  Nothing is changed for
    a line number that is not a positive number or for an empty status. *)
Definition dropOnZone (m : Model) (ln : nat) (targetStatus : str) : option Model :=
  match ln, targetStatus with
  | O, _ => Some m
  | S _, [] => Some m
  | S _, _ :: _ => updateTaskStatusAtLine m ln targetStatus
  end.

(** The initial value of [kanbanFilters]: nothing chosen. *)
Definition noFilters : KanbanFilters := mkKanbanFilters [] [] [].

(** ** Heading colours *)

(** [colors.add(color)] on a [Set], kept as the list of its members in
    insertion order. *)
Definition setAdd (x : str) (s : list str) : list str :=
  if includesStr x s then s else s ++ [x].

(** The body of the loop of [applyHeadingColors] for one line: the
    decoration pushed and the colour added, if any. *)
Definition headingDecoration (lineIndex : nat) (line : str)
    : option (Decoration * str) :=
  match exec reHeadingColor line with
  | Some m =>
      match cap 2 (groups m) with
      | Some ((_ :: _) as color) =>
          let className := lit "heading-color-" ++ skipn 1 color in
          let startColumn :=
            match indexOf (group 1 m) (matched m) with
            | Some k => (k + 1)%nat
            | None => 0%nat
            end in
          let endColumn := (startColumn + length (group 1 m))%nat in
          Some (mkDecoration (lineIndex + 1) startColumn (endColumn + 1) className,
                color)
      | _ => None
      end
  | None => None
  end.

(** The loop over the lines, from index [lineIndex] on, [colors] being the
    set so far: the decorations and the set at the end. *)
Fixpoint headingColorLoop (lineIndex : nat) (lines : list str) (colors : list str)
    : list Decoration * list str :=
  match lines with
  | [] => ([], colors)
  | line :: rest =>
      match headingDecoration lineIndex line with
      | Some (dc, color) =>
          let (ds, cs) := headingColorLoop (S lineIndex) rest (setAdd color colors) in
          (dc :: ds, cs)
      | None => headingColorLoop (S lineIndex) rest colors
      end
  end.

(** [applyHeadingColors()]: the decorations handed to the editor, and the
    rules of the style sheet, each a class name and the colour it sets. *)
Definition applyHeadingColors (editor : option Model)
    : list Decoration * list (str * str) :=
  match editor with
  | None => ([], [])
  | Some model =>
      let (ds, colors) := headingColorLoop 0 model [] in
      (ds, map (fun color => (lit "heading-color-" ++ skipn 1 color, color)) colors)
  end.

(** * Properties of the matcher *)

Section Matcher.

Variable p : char -> bool.

Lemma takeWhile_dropWhile s : takeWhile p s ++ dropWhile p s = s.
Proof.
  induction s as [|c s IH]; simpl; [reflexivity|].
  destruct (p c); simpl; [now rewrite IH | reflexivity].
Qed.

Lemma takeWhile_all s : forallb p (takeWhile p s) = true.
Proof.
  induction s as [|c s IH]; simpl; [reflexivity|].
  destruct (p c) eqn:E; simpl; [now rewrite E | reflexivity].
Qed.

Lemma takeWhile_app u c v :
  forallb p u = true -> p c = false ->
  takeWhile p (u ++ c :: v) = u /\ dropWhile p (u ++ c :: v) = c :: v.
Proof.
  intros Hu Hc. induction u as [|d u IH]; simpl in *.
  - now rewrite Hc.
  - apply andb_true_iff in Hu as [Hd Hu]. rewrite Hd.
    destruct (IH Hu) as [-> ->]. now split.
Qed.

(** [p*] and [p+] before something that cannot start with [p] take the
    longest run and never give anything back. *)
Lemma repeatG_star_max k b r cs :
  rejects p k ->
  repeatG p 0 None k b r cs = k (rev (takeWhile p r) ++ b) (dropWhile p r) cs.
Proof.
  intros Hk. revert b. induction r as [|c r IH]; intros b; simpl; [reflexivity|].
  destruct (p c) eqn:E; simpl; [|reflexivity].
  rewrite IH, <- app_assoc. simpl.
  destruct (k (rev (takeWhile p r) ++ c :: b) (dropWhile p r) cs); [reflexivity|].
  now apply Hk.
Qed.

Lemma repeatG_plus_max k b r cs :
  rejects p k ->
  repeatG p 1 None k b r cs =
  match takeWhile p r with
  | [] => None
  | _ :: _ => k (rev (takeWhile p r) ++ b) (dropWhile p r) cs
  end.
Proof.
  intros Hk. destruct r as [|c r]; simpl; [reflexivity|].
  destruct (p c) eqn:E; simpl; [|reflexivity].
  rewrite repeatG_star_max by assumption. rewrite <- app_assoc. simpl.
  now destruct (k _ _ _).
Qed.

(** [p{n}] takes exactly [n] characters of the class. *)
Lemma repeatG_exact n k b r cs :
  repeatG p n (Some n) k b r cs =
  if (n <=? length r)%nat && forallb p (firstn n r)
  then k (rev (firstn n r) ++ b) (skipn n r) cs else None.
Proof.
  revert b r. induction n as [|n IH]; intros b r.
  - destruct r as [|c r]; simpl; [reflexivity|].
    now rewrite andb_false_r.
  - destruct r as [|c r]; [reflexivity|].
    cbn [repeatG canMore decr option_map pred length firstn skipn forallb].
    rewrite andb_true_r. change (S n <=? S (length r))%nat with (n <=? length r)%nat.
    destruct (p c) eqn:E.
    + rewrite IH. cbn [rev]. rewrite <- app_assoc. simpl.
      destruct (n <=? length r)%nat; simpl; [|reflexivity].
      destruct (forallb p (firstn n r)); [|reflexivity].
      now destruct (k _ _ _).
    + now rewrite andb_false_r.
Qed.

(** Whatever a greedy quantifier returns comes from the continuation at
    some split of the input after a run of the class. *)
Lemma repeatG_sound lo hi k b r cs x :
  repeatG p lo hi k b r cs = Some x ->
  exists u v, r = u ++ v /\ forallb p u = true /\ (lo <= length u)%nat /\
              k (rev u ++ b) v cs = Some x.
Proof.
  revert lo hi b. induction r as [|c r IH]; intros lo hi b; simpl.
  - destruct lo; simpl; [|discriminate]. intros H. now exists [], [].
  - assert (Hstop : stopAt lo k b (c :: r) cs = Some x ->
              exists u v, c :: r = u ++ v /\ forallb p u = true /\
                          (lo <= length u)%nat /\ k (rev u ++ b) v cs = Some x).
    { destruct lo; simpl; [|discriminate]. intros H. now exists [], (c :: r). }
    destruct (p c && canMore hi) eqn:E; [|exact Hstop].
    destruct (repeatG p (pred lo) (decr hi) k (c :: b) r cs) eqn:R; [|exact Hstop].
    intros H; injection H as ->.
    apply IH in R as (u & v & -> & Hu & Hlo & Hk).
    apply andb_true_iff in E as [E _].
    exists (c :: u), v. simpl. rewrite E, Hu, <- app_assoc.
    repeat split; [lia | exact Hk].
Qed.

(** An unbounded greedy quantifier succeeds as soon as the continuation
    succeeds at some split. *)
Lemma repeatG_complete lo k b u v cs :
  forallb p u = true -> (lo <= length u)%nat ->
  k (rev u ++ b) v cs <> None ->
  repeatG p lo None k b (u ++ v) cs <> None.
Proof.
  revert lo b. induction u as [|c u IH]; intros lo b Hu Hlo Hk.
  - simpl in *. assert (lo = 0)%nat as -> by lia.
    destruct v as [|d v]; simpl; [exact Hk|].
    destruct (p d && true); [|exact Hk].
    now destruct (repeatG p 0 None k (d :: b) v cs).
  - simpl in *. apply andb_true_iff in Hu as [Hc Hu]. rewrite Hc. simpl.
    assert (R : repeatG p (pred lo) None k (c :: b) (u ++ v) cs <> None).
    { apply IH; [assumption | lia |]. now rewrite <- app_assoc in Hk. }
    destruct (repeatG p (pred lo) None k (c :: b) (u ++ v) cs); [discriminate|].
    now elim R.
Qed.

(** A lazy [p*?] returns what the continuation gives at the shortest split
    where it succeeds. *)
Lemma repeatL_first k b r cs x :
  repeatL p 0 None k b r cs = Some x ->
  exists u v, r = u ++ v /\ forallb p u = true /\ k (rev u ++ b) v cs = Some x /\
    forall u' v', r = u' ++ v' -> (length u' < length u)%nat ->
                  k (rev u' ++ b) v' cs = None.
Proof.
  revert b. induction r as [|c r IH]; intros b; simpl.
  - destruct (k b [] cs) eqn:K; [|discriminate].
    intros H; injection H as ->. exists [], []. repeat split; try assumption.
    simpl. intros; lia.
  - destruct (k b (c :: r) cs) eqn:K.
    + intros H; injection H as ->. exists [], (c :: r). repeat split; try assumption.
      simpl. intros; lia.
    + destruct (p c) eqn:E; simpl; [|discriminate].
      intros H. apply IH in H as (u & v & -> & Hu & Hk & Hmin).
      exists (c :: u), v. simpl. rewrite E, Hu, <- app_assoc.
      repeat split; try assumption.
      intros u' v' Heq Hlen. destruct u' as [|c' u']; simpl in *.
      * now subst v'.
      * injection Heq as <- Heq. rewrite <- app_assoc. simpl.
        apply Hmin; [assumption | lia].
Qed.

Lemma repeatL_complete k b u v cs :
  forallb p u = true -> k (rev u ++ b) v cs <> None ->
  repeatL p 0 None k b (u ++ v) cs <> None.
Proof.
  revert b. induction u as [|c u IH]; intros b Hu Hk.
  - simpl in *. destruct v as [|d v]; simpl.
    + now destruct (k b [] cs).
    + now destruct (k b (d :: v) cs).
  - simpl in *. apply andb_true_iff in Hu as [Hc Hu]. rewrite Hc. simpl.
    destruct (k b (c :: u ++ v) cs); [discriminate|].
    apply IH; [assumption|]. now rewrite <- app_assoc in Hk.
Qed.

End Matcher.

(** ** Character class facts *)

Ltac point_class H :=
  repeat (rewrite ?orb_true_iff, ?N.eqb_eq in H);
  repeat match type of H with _ \/ _ => destruct H as [H|H] end;
  subst.

Lemma space_not_bullet c : isSpace c = true -> isBullet c = false.
Proof.
  intros Hs. destruct (isBullet c) eqn:E; [|reflexivity].
  unfold isBullet in E. point_class E; vm_compute in Hs; discriminate.
Qed.

Lemma space_not_dash c : isSpace c = true -> isDash c = false.
Proof.
  intros Hs. destruct (isDash c) eqn:E; [|reflexivity].
  unfold isDash in E. point_class E; vm_compute in Hs; discriminate.
Qed.

Lemma space_not_lbracket c : isSpace c = true -> isLBracket c = false.
Proof.
  intros Hs. destruct (isLBracket c) eqn:E; [|reflexivity].
  unfold isLBracket in E. point_class E; vm_compute in Hs; discriminate.
Qed.

Lemma space_not_rbracket c : isSpace c = true -> isRBracket c = false.
Proof.
  intros Hs. destruct (isRBracket c) eqn:E; [|reflexivity].
  unfold isRBracket in E. point_class E; vm_compute in Hs; discriminate.
Qed.

Lemma space_not_hash c : isSpace c = true -> isHash c = false.
Proof.
  intros Hs. destruct (isHash c) eqn:E; [|reflexivity].
  unfold isHash in E. point_class E; vm_compute in Hs; discriminate.
Qed.

Lemma bullet_not_space c : isBullet c = true -> isSpace c = false.
Proof.
  intros Hb. destruct (isSpace c) eqn:E; [|reflexivity].
  apply space_not_bullet in E. congruence.
Qed.

Lemma dash_is_bullet c : isDash c = true -> isBullet c = true.
Proof.
  unfold isDash, isBullet. intros ->. reflexivity.
Qed.

(** ** Anchored and unanchored search *)

Lemma search_bol_later re b r : b <> [] -> search (Bol ;; re) b r = None.
Proof.
  revert b. induction r as [|c r IH]; intros b Hb.
  - destruct b; [now elim Hb | reflexivity].
  - destruct b as [|d b]; [now elim Hb|].
    unfold search; fold search. unfold matchAt. cbn [run].
    now apply IH.
Qed.

(** A regex that starts with [^] can only match at index 0. *)
Lemma exec_bol re s : exec (Bol ;; re) s = matchAt (Bol ;; re) [] s.
Proof.
  unfold exec. destruct s as [|c s]; simpl.
  - now destruct (matchAt _ _ _).
  - destruct (matchAt (Bol ;; re) [] (c :: s)); [reflexivity|].
    now apply search_bol_later.
Qed.

(** An unanchored search returns the leftmost position where the regex
    matches. *)
Lemma search_first re b r m :
  search re b r = Some m ->
  exists u v, r = u ++ v /\ matchAt re (rev u ++ b) v = Some m /\
    forall u' v', r = u' ++ v' -> (length u' < length u)%nat ->
                  matchAt re (rev u' ++ b) v' = None.
Proof.
  revert b. induction r as [|c r IH]; intros b; simpl.
  - destruct (matchAt re b []) eqn:M; [|discriminate].
    intros H; injection H as ->. exists [], []. repeat split; try assumption.
    simpl; intros; lia.
  - destruct (matchAt re b (c :: r)) eqn:M.
    + intros H; injection H as ->. exists [], (c :: r). repeat split; try assumption.
      simpl; intros; lia.
    + intros H. apply IH in H as (u & v & -> & Hm & Hmin).
      exists (c :: u), v. simpl. rewrite <- app_assoc.
      repeat split; try assumption.
      intros u' v' Heq Hlen. destruct u' as [|c' u']; simpl in *.
      * now subst v'.
      * injection Heq as <- Heq. rewrite <- app_assoc. simpl.
        apply Hmin; [assumption | lia].
Qed.

Lemma search_complete re b u v :
  matchAt re (rev u ++ b) v <> None -> search re b (u ++ v) <> None.
Proof.
  revert b. induction u as [|c u IH]; intros b Hm.
  - simpl in *. destruct v as [|d v]; simpl; now destruct (matchAt re b _).
  - simpl in *. destruct (matchAt re b (c :: u ++ v)); [discriminate|].
    apply IH. now rewrite <- app_assoc in Hm.
Qed.

Lemma span_app b x : span b (x ++ b) = rev x.
Proof.
  unfold span. rewrite length_app, Nat.add_sub, firstn_app, Nat.sub_diag.
  rewrite firstn_all. simpl. now rewrite app_nil_r.
Qed.

Ltac list_norm :=
  repeat (progress (rewrite ?rev_app_distr, ?rev_involutive, <- ?app_assoc;
                    cbn [rev app])).

Lemma span_nil x : span [] x = rev x.
Proof. rewrite <- (app_nil_r x) at 1. apply span_app. Qed.

(** ** The checkbox prefix of the task regexes *)

Ltac reject_space :=
  let c := fresh "c" in let Hc := fresh "Hc" in
  intros c ? ? ? Hc; cbn;
  rewrite ?(space_not_bullet _ Hc), ?(space_not_dash _ Hc),
          ?(space_not_lbracket _ Hc), ?(space_not_rbracket _ Hc),
          ?(space_not_hash _ Hc);
  reflexivity.

Section Checkbox.

Variable q : char -> bool.
Hypothesis q_not_space : forall c, isSpace c = true -> q c = false.

Lemma checkboxPrefix_shape line ind bul ws st rest :
  checkboxPrefix q line = Some (ind, bul, ws, st, rest) ->
  line = ind ++ bul :: ws ++ 91 :: st :: 93 :: rest /\
  forallb isSpace ind = true /\ q bul = true /\
  forallb isSpace ws = true /\ isStatusChar st = true.
Proof.
  unfold checkboxPrefix.
  destruct (dropWhile isSpace line) as [|b r1] eqn:D1; [discriminate|].
  destruct (q b) eqn:Q; [|discriminate].
  destruct (dropWhile isSpace r1) as [|lb [|s [|rb r2]]] eqn:D2; try discriminate.
  destruct (isLBracket lb) eqn:L; [|discriminate].
  destruct (isStatusChar s) eqn:S; [|discriminate].
  destruct (isRBracket rb) eqn:R; [|discriminate].
  simpl. intros H; injection H as <- <- <- <- <-.
  apply N.eqb_eq in L, R. subst lb rb.
  rewrite <- D2, takeWhile_dropWhile, <- D1, takeWhile_dropWhile.
  repeat split; auto using takeWhile_all.
Qed.

Lemma checkboxPrefix_intro ind bul ws st rest :
  forallb isSpace ind = true -> q bul = true ->
  forallb isSpace ws = true -> isStatusChar st = true ->
  checkboxPrefix q (ind ++ bul :: ws ++ 91 :: st :: 93 :: rest)
  = Some (ind, bul, ws, st, rest).
Proof.
  intros Hi Hb Hw Hs. unfold checkboxPrefix.
  assert (Sb : isSpace bul = false).
  { destruct (isSpace bul) eqn:E; [|reflexivity].
    apply q_not_space in E. congruence. }
  destruct (takeWhile_app isSpace ind bul (ws ++ 91 :: st :: 93 :: rest) Hi Sb)
    as [-> ->].
  rewrite Hb.
  destruct (takeWhile_app isSpace ws 91 (st :: 93 :: rest) Hw eq_refl) as [-> ->].
  now rewrite Hs.
Qed.

Lemma exec_reBracketed line :
  exec (reBracketed q) line =
  match checkboxPrefix q line with
  | Some (ind, bul, ws, st, rest) =>
      Some (mkMatch [] (ind ++ bul :: ws ++ [91; st; 93]) rest
              [(3%nat, [93]); (2%nat, [st]); (1%nat, ind ++ bul :: ws ++ [91])])
  | None => None
  end.
Proof.
  unfold reBracketed. rewrite exec_bol. unfold matchAt, star, checkboxPrefix.
  cbn [run]. rewrite repeatG_star_max.
  2:{ intros c ? ? ? Hc. cbn. now rewrite (q_not_space _ Hc). }
  destruct (dropWhile isSpace line) as [|b r1]; [reflexivity|].
  destruct (q b); [|reflexivity].
  rewrite repeatG_star_max by reject_space.
  destruct (dropWhile isSpace r1) as [|lb [|s [|rb r2]]]; try reflexivity;
    destruct (isLBracket lb) eqn:L; try reflexivity;
    destruct (isStatusChar s) eqn:S; try reflexivity.
  destruct (isRBracket rb) eqn:R; [|reflexivity].
  apply N.eqb_eq in L, R. subst lb rb.
  unfold accept. cbn [andb]. rewrite !span_nil.
  change (93 :: s :: 91 :: ?b) with ([93] ++ s :: 91 :: b).
  rewrite span_app.
  change (s :: 91 :: ?b) with ([s] ++ 91 :: b).
  rewrite span_app. rewrite !app_nil_r. list_norm. reflexivity.
Qed.

End Checkbox.

Lemma exec_reTaskWith tail line :
  exec (reTaskWith tail) line =
  match checkboxPrefix isBullet line with
  | Some (ind, bul, ws, st, rest) =>
      match run tail accept (93 :: st :: 91 :: rev ws ++ bul :: rev ind) rest
                [(2%nat, [st]); (1%nat, ind)] with
      | Some (b', r', cs) => Some (mkMatch [] (rev b') r' cs)
      | None => None
      end
  | None => None
  end.
Proof.
  unfold reTaskWith. rewrite exec_bol. unfold matchAt, star, checkboxPrefix.
  cbn [run]. rewrite repeatG_star_max by reject_space.
  destruct (dropWhile isSpace line) as [|b r1]; [reflexivity|].
  destruct (isBullet b); [|reflexivity].
  rewrite repeatG_star_max by reject_space.
  destruct (dropWhile isSpace r1) as [|lb [|s [|rb r2]]]; try reflexivity;
    destruct (isLBracket lb) eqn:L; try reflexivity;
    destruct (isStatusChar s) eqn:S; try reflexivity.
  destruct (isRBracket rb) eqn:R; [|reflexivity].
  apply N.eqb_eq in L, R. subst lb rb. cbn [andb].
  rewrite !span_nil.
  change (s :: 91 :: ?b) with ([s] ++ 91 :: b) at 2.
  rewrite span_app. rewrite !app_nil_r. list_norm.
  destruct (run tail accept _ r2 _) as [[[b' r'] cs]|]; [|reflexivity].
  now rewrite span_nil.
Qed.

(** What follows the checkbox in [reTask]: whitespace, then the task text
    up to the end of the line. *)
Lemma taskTail_sound b r cs b' r' cs' :
  run taskTail accept b r cs = Some (b', r', cs') ->
  r' = [] /\ b' = rev r ++ b /\ exists txt, cs' = (3%nat, txt) :: cs.
Proof.
  unfold taskTail, star. cbn [run]. intros H.
  apply repeatG_sound in H as (u & v & -> & _ & _ & H).
  apply repeatG_sound in H as (u2 & v2 & -> & _ & _ & H).
  destruct v2; [|discriminate]. injection H as <- <- <-.
  rewrite app_nil_r. list_norm. repeat split. eauto.
Qed.

Lemma taskTail_matches b r cs :
  run taskTail accept b r cs <> None <->
  exists ws body, r = ws ++ body /\ forallb isSpace ws = true /\
                  forallb isDot body = true.
Proof.
  unfold taskTail, star. cbn [run]. split.
  - destruct (repeatG isSpace 0 None _ b r cs) eqn:H; [intros _ | now intros []].
    apply repeatG_sound in H as (u & v & -> & Hu & _ & H).
    apply repeatG_sound in H as (u2 & v2 & -> & Hu2 & _ & H).
    destruct v2; [|discriminate]. rewrite app_nil_r. eauto.
  - intros (ws & body & -> & Hw & Hb).
    apply repeatG_complete; [assumption | simpl; lia |].
    rewrite <- (app_nil_r body).
    apply repeatG_complete; [assumption | simpl; lia |].
    discriminate.
Qed.

Lemma reTask_unfold : reTask = reTaskWith taskTail.
Proof. reflexivity. Qed.

(** A match of [reTask] exposes the checkbox split of the line: group 2 is
    the status character. *)
Lemma exec_reTask_some line m :
  exec reTask line = Some m ->
  exists ind bul ws st rest,
    checkboxPrefix isBullet line = Some (ind, bul, ws, st, rest) /\
    group 2 m = [st].
Proof.
  rewrite reTask_unfold, exec_reTaskWith.
  destruct (checkboxPrefix isBullet line) as [[[[[ind bul] ws] st] rest]|];
    [|discriminate].
  destruct (run taskTail accept _ rest _) as [[[b' r'] cs]|] eqn:T; [|discriminate].
  intros H; injection H as <-.
  apply taskTail_sound in T as (_ & _ & txt & ->).
  exists ind, bul, ws, st, rest. split; reflexivity.
Qed.

(** The lines [reTask] matches. *)
Lemma exec_reTask_matches line :
  exec reTask line <> None <->
  exists ind bul ws st rest,
    checkboxPrefix isBullet line = Some (ind, bul, ws, st, rest) /\
    exists ws' body, rest = ws' ++ body /\ forallb isSpace ws' = true /\
                     forallb isDot body = true.
Proof.
  rewrite reTask_unfold, exec_reTaskWith.
  destruct (checkboxPrefix isBullet line) as [[[[[ind bul] ws] st] rest]|].
  - pose proof (taskTail_matches (93 :: st :: 91 :: rev ws ++ bul :: rev ind) rest
                  [(2%nat, [st]); (1%nat, ind)]) as T.
    destruct (run taskTail accept _ rest _) as [[[b' r'] cs]|].
    + split; [intros _ | discriminate].
      exists ind, bul, ws, st, rest. split; [reflexivity|].
      apply T. discriminate.
    + split; [now intros []|].
      intros (? & ? & ? & ? & ? & E & Hx). injection E as <- <- <- <- <-.
      now apply T in Hx.
  - split; [now intros [] | now intros (? & ? & ? & ? & ? & ? & _)].
Qed.

(** ** Headings and tasks do not overlap *)

Lemma exec_reHeading_hash line h :
  exec reHeading line = Some h -> exists r, line = 35 :: r.
Proof.
  unfold reHeading. rewrite exec_bol. unfold matchAt. cbn [run].
  destruct line as [|c r]; [discriminate|].
  cbn [repeatG canMore]. destruct (isHash c) eqn:E; [|discriminate].
  apply N.eqb_eq in E. subst c. eauto.
Qed.

Lemma checkbox_not_heading line x :
  checkboxPrefix isBullet line = Some x -> exec reHeading line = None.
Proof.
  destruct x as [[[[ind bul] ws] st] rest]. intros H.
  apply checkboxPrefix_shape in H as (-> & Hi & Hb & _).
  destruct (exec reHeading _) eqn:E; [|reflexivity].
  apply exec_reHeading_hash in E as [r E].
  destruct ind as [|c ind]; simpl in *; injection E as -> _.
  - discriminate.
  - discriminate.
Qed.

Lemma task_not_heading line :
  exec reTask line <> None -> exec reHeading line = None.
Proof.
  intros H. apply exec_reTask_matches in H as (? & ? & ? & ? & ? & H & _).
  eapply checkbox_not_heading; eassumption.
Qed.

(** ** The parse loop *)

(** Every emitted task comes from a line that is not a heading and matches
    [reTask], and carries that line's number. *)
Lemma parseLoop_In i lh lc lines t :
  In t (parseLoop i lh lc lines) ->
  exists j line lh' lc' m,
    nth_error lines j = Some line /\ exec reHeading line = None /\
    exec reTask line = Some m /\ t = taskOfMatch (i + j) lh' lc' m.
Proof.
  revert i lh lc. induction lines as [|l lines IH]; intros i lh lc; simpl; [easy|].
  assert (Hrest : forall lh0 lc0, In t (parseLoop (S i) lh0 lc0 lines) ->
            exists j line lh' lc' m,
              nth_error (l :: lines) j = Some line /\ exec reHeading line = None /\
              exec reTask line = Some m /\ t = taskOfMatch (i + j) lh' lc' m).
  { intros lh0 lc0 H. apply IH in H as (j & line & lh' & lc' & m & Hn & Hh & Hm & ->).
    exists (S j), line, lh', lc', m. repeat split; try assumption.
    now rewrite Nat.add_succ_r. }
  destruct (exec reHeading l) eqn:Hh; [apply Hrest|].
  destruct (exec reTask l) eqn:Hm; [|apply Hrest].
  intros [<-|H]; [|eapply Hrest; eassumption].
  exists 0%nat, l, lh, lc, m. rewrite Nat.add_0_r. now repeat split.
Qed.

(** Conversely every such line yields a task. *)
Lemma parseLoop_emits i lh lc lines j line m :
  nth_error lines j = Some line -> exec reHeading line = None ->
  exec reTask line = Some m ->
  exists lh' lc', In (taskOfMatch (i + j) lh' lc' m) (parseLoop i lh lc lines).
Proof.
  revert i lh lc j. induction lines as [|l lines IH]; intros i lh lc j Hn Hh Hm.
  - now destruct j.
  - destruct j as [|j]; simpl in *.
    + injection Hn as ->. rewrite Hh, Hm, Nat.add_0_r.
      exists lh, lc. now left.
    + rewrite Nat.add_succ_r.
      destruct (exec reHeading l).
      * now apply (IH (S i)).
      * destruct (exec reTask l).
        -- destruct (IH (S i) lh lc j Hn Hh Hm) as (lh' & lc' & H).
           exists lh', lc'. now right.
        -- now apply (IH (S i)).
Qed.

Lemma lineNumber_taskOfMatch i lh lc m :
  lineNumber (taskOfMatch i lh lc m) = (i + 1)%nat.
Proof. reflexivity. Qed.

Lemma status_taskOfMatch i lh lc m :
  status (taskOfMatch i lh lc m) = statusOfChar (group 2 m).
Proof. reflexivity. Qed.

Lemma parseLoop_lower i lh lc lines :
  Forall (fun t => (i < lineNumber t)%nat) (parseLoop i lh lc lines).
Proof.
  apply Forall_forall. intros t H.
  apply parseLoop_In in H as (j & _ & lh' & lc' & m & _ & _ & _ & ->).
  rewrite lineNumber_taskOfMatch. lia.
Qed.

Lemma parseLoop_sorted i lh lc lines :
  StronglySorted lt (map lineNumber (parseLoop i lh lc lines)).
Proof.
  revert i lh lc. induction lines as [|l lines IH]; intros i lh lc; simpl.
  - constructor.
  - destruct (exec reHeading l); [apply IH|].
    destruct (exec reTask l); [|apply IH].
    simpl. constructor; [apply IH|].
    rewrite Forall_map. rewrite Nat.add_1_r. apply parseLoop_lower.
Qed.

Lemma nth_error_setNth_same i x m :
  (i < length m)%nat -> nth_error (setNth i x m) i = Some x.
Proof.
  revert i. induction m as [|y m IH]; intros [|i] H; simpl in *; try lia; auto.
  apply IH. lia.
Qed.

Lemma nth_error_setNth_other i j x m :
  i <> j -> nth_error (setNth i x m) j = nth_error m j.
Proof.
  revert i j. induction m as [|y m IH]; intros [|i] [|j] H; simpl; auto.
  - now elim H.
Qed.

Lemma length_setNth i x m : length (setNth i x m) = length m.
Proof.
  revert i. induction m as [|y m IH]; intros [|i]; simpl; auto.
Qed.

Lemma str_eqb_refl s : str_eqb s s = true.
Proof. unfold str_eqb. now destruct (list_eq_dec N.eq_dec s s). Qed.

Lemma str_eqb_eq a b : str_eqb a b = true <-> a = b.
Proof. unfold str_eqb. destruct (list_eq_dec N.eq_dec a b); split; easy. Qed.

(** The status column of a status character maps back to the character. *)
Lemma mapped_statusOfChar st :
  isStatusChar st = true -> mapped (statusOfChar [st]) = [st].
Proof.
  intros H. unfold isStatusChar in H. point_class H; reflexivity.
Qed.

(** What [updateTaskStatusAtLine] writes on a line with a checkbox. *)
Lemma replace_reUpdate line ch ind bul ws st rest :
  checkboxPrefix isBullet line = Some (ind, bul, ws, st, rest) ->
  replace reUpdate (fun mt => group 1 mt ++ ch ++ group 3 mt) line
  = ind ++ bul :: ws ++ 91 :: ch ++ 93 :: rest.
Proof.
  intros H. unfold replace. change reUpdate with (reBracketed isBullet).
  rewrite exec_reBracketed by apply space_not_bullet. rewrite H.
  unfold group. simpl. now list_norm.
Qed.

(** * Kanban writeback *)

Lemma getLineContent_succ (m : Model) j : getLineContent m (j + 1) = nth_error m j.
Proof. now rewrite Nat.add_1_r. Qed.

(** A task of the parse, with its line and the checkbox split of the line. *)
Lemma parseTasks_In model t :
  In t (parseTasks (Some model)) ->
  exists j line m ind bul ws st rest lh lc,
    lineNumber t = (j + 1)%nat /\ nth_error model j = Some line /\
    exec reHeading line = None /\ exec reTask line = Some m /\
    t = taskOfMatch j lh lc m /\
    checkboxPrefix isBullet line = Some (ind, bul, ws, st, rest) /\
    status t = statusOfChar [st].
Proof.
  intros H. apply parseLoop_In in H as (j & line & lh & lc & m & Hn & Hh & Hm & ->).
  destruct (exec_reTask_some _ _ Hm) as (ind & bul & ws & st & rest & Hp & Hg).
  exists j, line, m, ind, bul, ws, st, rest, lh, lc.
  rewrite status_taskOfMatch, Hg. now repeat split.
Qed.

(** C6: for every document and every task the parse finds in it, the Kanban
    writeback [updateTaskStatusAtLine] called with that task's line number
    and its current status leaves the document unchanged. *)
Theorem writeback_same_status_is_noop (model : Model) (t : Task) :
  In t (parseTasks (Some model)) ->
  updateTaskStatusAtLine model (lineNumber t) (status t) = Some model.
Proof.
  intros H.
  apply parseTasks_In in H
    as (j & line & m & ind & bul & ws & st & rest & lh & lc
        & Hln & Hn & _ & _ & _ & Hp & Hs).
  unfold updateTaskStatusAtLine.
  rewrite Hln, getLineContent_succ, Hn, Hs.
  rewrite (replace_reUpdate _ _ _ _ _ _ _ Hp).
  apply checkboxPrefix_shape in Hp as (Hl & _ & _ & _ & Hst).
  rewrite (mapped_statusOfChar _ Hst). cbn [app]. rewrite <- Hl.
  now rewrite str_eqb_refl.
Qed.

Lemma writeback_same_status_is_noop_witness :
  In demoTask (parseTasks (Some demoModel)) /\
  updateTaskStatusAtLine demoModel 2 (lit "inprogress") = Some demoModel.
Proof.
  assert (H : In demoTask (parseTasks (Some demoModel))) by (vm_compute; auto).
  split; [exact H | exact (writeback_same_status_is_noop demoModel demoTask H)].
Defined.

(** C7: when line [n] of a document is a Pending task line, dropping it on
    the "done" column rewrites the bracket character of line [n] from the
    space to "x" and changes nothing else.  The bracket is the checkbox of
    the task: it stands behind the indentation, the bullet and the
    whitespace after the bullet, so it is the first bracket of the line;
    what precedes it and what follows it in line [n], a later "[ ]"
    included, and every other line stay as they were. *)
Theorem writeback_pending_to_done (model : Model) (n : nat) (t : Task) :
  In t (parseTasks (Some model)) -> lineNumber t = n ->
  status t = lit "backlog" ->
  exists ind bul ws rest model',
    forallb isSpace ind = true /\ isBullet bul = true /\
    forallb isSpace ws = true /\
    getLineContent model n = Some (ind ++ bul :: ws ++ lit "[ ]" ++ rest) /\
    updateTaskStatusAtLine model n (lit "done") = Some model' /\
    getLineContent model' n = Some (ind ++ bul :: ws ++ lit "[x]" ++ rest) /\
    length model' = length model /\
    forall k, k <> n -> getLineContent model' k = getLineContent model k.
Proof.
  intros H Hn Hb.
  apply parseTasks_In in H
    as (j & line & m & ind & bul & ws & st & rest & lh & lc
        & Hln & Hj & _ & _ & _ & Hp & Hs).
  rewrite Hn in Hln. subst n. rewrite Hs in Hb.
  pose proof (checkboxPrefix_shape _ _ _ _ _ _ _ Hp) as (Hl & Hind & Hbul & Hws & Hst).
  assert (st = 32) as ->.
  { unfold isStatusChar in Hst. point_class Hst; [reflexivity | |]; discriminate. }
  exists ind, bul, ws, rest,
         (setNth j (ind ++ bul :: ws ++ 91 :: lit "x" ++ 93 :: rest) model).
  assert (Hlen : (j < length model)%nat) by (apply nth_error_Some; congruence).
  unfold updateTaskStatusAtLine.
  rewrite getLineContent_succ, Hj, (replace_reUpdate _ _ _ _ _ _ _ Hp).
  split; [assumption|]. split; [assumption|]. split; [assumption|].
  split; [now rewrite Hl|]. split; [|split; [|split]].
  - destruct (str_eqb _ line) eqn:E.
    + apply str_eqb_eq in E. rewrite Hl in E.
      apply app_inv_head in E. injection E as E.
      apply app_inv_head in E. discriminate.
    + simpl. now rewrite Nat.add_1_r.
  - rewrite getLineContent_succ, nth_error_setNth_same by assumption. reflexivity.
  - apply length_setNth.
  - intros [|k] Hk; [reflexivity|]. simpl.
    apply nth_error_setNth_other. lia.
Qed.

Lemma writeback_pending_to_done_witness :
  exists ind bul ws rest model',
    forallb isSpace ind = true /\ isBullet bul = true /\
    forallb isSpace ws = true /\
    getLineContent demoModel 4 = Some (ind ++ bul :: ws ++ lit "[ ]" ++ rest) /\
    updateTaskStatusAtLine demoModel 4 (lit "done") = Some model' /\
    getLineContent model' 4 = Some (ind ++ bul :: ws ++ lit "[x]" ++ rest) /\
    length model' = length demoModel /\
    forall k, k <> 4%nat -> getLineContent model' k = getLineContent demoModel k.
Proof.
  apply (writeback_pending_to_done demoModel 4 demoPending).
  - vm_compute; auto.
  - reflexivity.
  - reflexivity.
Defined.

(** * The parse as a whole *)

(** C10: [parseTasks] returns a task list for every editor state (it is a
    total function: the empty list without an editor and for the empty
    document); the tasks come in document order, their 1-based line numbers
    strictly increase and lie between 1 and the number of lines, and each
    task is built from the match of [reTask] on the very line its number
    names, a line that is not a heading. *)
Theorem parseTasks_line_numbers (model : Model) :
  parseTasks None = [] /\
  parseTasks (Some (createModel [])) = [] /\
  StronglySorted lt (map lineNumber (parseTasks (Some model))) /\
  forall t, In t (parseTasks (Some model)) ->
    (1 <= lineNumber t <= length model)%nat /\
    exists line m lh lc,
      getLineContent model (lineNumber t) = Some line /\
      exec reHeading line = None /\ exec reTask line = Some m /\
      t = taskOfMatch (lineNumber t - 1) lh lc m.
Proof.
  split; [reflexivity|]. split; [reflexivity|].
  split; [apply parseLoop_sorted|].
  intros t H.
  apply parseTasks_In in H
    as (j & line & m & ind & bul & ws & st & rest & lh & lc
        & Hln & Hj & Hh & Hm & Ht & _ & _).
  assert (Hlen : (j < length model)%nat) by (apply nth_error_Some; congruence).
  rewrite Hln. split; [lia|].
  exists line, m, lh, lc.
  rewrite getLineContent_succ, Nat.add_sub. now repeat split.
Qed.

(** * Which lines are tasks *)

Lemma exec_reTask_shape line : exec reTask line <> None <-> taskShape line.
Proof.
  rewrite exec_reTask_matches. unfold taskShape. split.
  - intros (ind & bul & ws & st & rest & Hp & ws' & body & -> & Hw & Hb).
    apply checkboxPrefix_shape in Hp as (-> & Hi & Hbul & Hws & Hst).
    exists ind, bul, ws, st, ws', body. now repeat split.
  - intros (ind & bul & ws & st & ws' & body & -> & Hi & Hbul & Hws & Hst & Hw & Hb).
    exists ind, bul, ws, st, (ws' ++ body). split.
    + apply checkboxPrefix_intro; auto using space_not_bullet.
    + exists ws', body. now repeat split.
Qed.

(** C8 (as the code has it): a line of the document is emitted as a task by
    [parseTasks] exactly when it has the shape [taskShape], that is the
    grammar "^\s*[-*+]\s*\[[ x/]\]\s*.*$": the whitespace between the
    bullet and the bracket is optional. *)
Theorem task_line_recognition (model : Model) (n : nat) (line : str) :
  getLineContent model n = Some line ->
  (exists t, In t (parseTasks (Some model)) /\ lineNumber t = n) <-> taskShape line.
Proof.
  intros Hn. rewrite <- exec_reTask_shape. split.
  - intros (t & H & Ht).
    apply parseTasks_In in H
      as (j & line' & m & ind & bul & ws & st & rest & lh & lc
          & Hln & Hj & _ & Hm & _ & _ & _).
    rewrite Ht in Hln. subst n. rewrite getLineContent_succ in Hn.
    congruence.
  - intros Hm. pose proof (task_not_heading line Hm) as Hh.
    destruct (exec reTask line) as [m|] eqn:E; [|now elim Hm].
    destruct n as [|j]; [discriminate|]. simpl in Hn.
    destruct (parseLoop_emits 0 None defaultColor model j line m Hn Hh E) as (lh & lc & H).
    exists (taskOfMatch j lh lc m). split; [exact H|].
    rewrite lineNumber_taskOfMatch. simpl. lia.
Qed.

Lemma task_line_recognition_witness :
  (exists t, In t (parseTasks (Some demoModel)) /\ lineNumber t = 2%nat)
  <-> taskShape (lit "  * [/] write report +doc").
Proof.
  apply (task_line_recognition demoModel 2). reflexivity.
Defined.

(** C8, the claim as stated, fails: a line whose bullet is immediately
    followed by the bracket is recognised as a task. *)
Lemma task_without_space_after_bullet :
  ~ (forall line bul rest,
       isBullet bul = true -> line = bul :: lit "[" ++ rest ->
       parseTasks (Some [line]) = []).
Proof.
  intros H. specialize (H (lit "-[ ] a") 45 (lit " ] a") eq_refl eq_refl).
  vm_compute in H. discriminate.
Qed.

(** * Literal scenarios *)

(** C1 (as the code has it): the line
    "- [ ] buy milk +grocery due:2025-01-20 (a)" parses to one task, of
    line 1, with status "backlog" (the Pending column), tags the string
    "+grocery" (the matched tag tokens joined by spaces, the plus sign
    kept), due the whole matched token "due:2025-01-20" and priority "a". *)
Theorem parse_milk_line :
  exists t,
    parseTasks (Some (createModel milkLine)) = [t] /\
    lineNumber t = 1%nat /\
    status t = lit "backlog" /\
    text t = lit "buy milk +grocery due:2025-01-20 (a)" /\
    tags t = lit "+grocery" /\
    due t = Some (lit "due:2025-01-20") /\
    start t = None /\
    priority t = Some (lit "a").
Proof.
  eexists. split; [vm_compute; reflexivity|].
  repeat split.
Qed.

(** C1, the claim as stated, fails: the parsed record does not hold the
    bare tag name and the bare date. *)
Lemma parse_milk_line_not_bare :
  ~ (exists t,
       parseTasks (Some (createModel milkLine)) = [t] /\
       status t = lit "backlog" /\
       tags t = join (lit " ") [lit "grocery"] /\
       due t = Some (lit "2025-01-20") /\
       priority t = Some (lit "a")).
Proof.
  intros (t & Ht & _ & _ & Hd & _).
  vm_compute in Ht. injection Ht as <-. discriminate.
Qed.

(** A heading whose match has no colour group moves the heading tracker
    and leaves the colour tracker alone. *)
Lemma parseLoop_heading_without_color i lh lc line rest h :
  exec reHeading line = Some h -> cap 3 (groups h) = None ->
  parseLoop i lh lc (line :: rest) =
  parseLoop (S i) (Some (trim (group 2 h))) lc rest.
Proof.
  intros Hh Hc. simpl. rewrite Hh. unfold headingColor. now rewrite Hc.
Qed.

(** C5: in the document "# A / ## B #FF0000 / - [ ] t1 / # C / - [ ] t2"
    (one line each) task t1 has heading "B" and colour "#FF0000", and task
    t2 has heading "C" and still colour "#FF0000"; in general a heading
    line without a colour sets the heading tracker and leaves the colour
    tracker as it was. *)
Theorem heading_inheritance :
  map (fun t => (lineNumber t, text t, heading t, color t))
      (parseTasks (Some (createModel inheritDoc)))
  = [(3%nat, lit "t1", Some (lit "B"), lit "#FF0000");
     (5%nat, lit "t2", Some (lit "C"), lit "#FF0000")] /\
  forall i lh lc line rest h,
    exec reHeading line = Some h -> cap 3 (groups h) = None ->
    parseLoop i lh lc (line :: rest) =
    parseLoop (S i) (Some (trim (group 2 h))) lc rest.
Proof.
  split; [vm_compute; reflexivity|].
  exact parseLoop_heading_without_color.
Qed.

Lemma heading_inheritance_witness :
  parseLoop 3 (Some (lit "B")) (lit "#FF0000") [lit "# C"; lit "- [ ] t2"] =
  parseLoop 4 (Some (lit "C")) (lit "#FF0000") [lit "- [ ] t2"].
Proof.
  destruct (exec reHeading (lit "# C")) as [h|] eqn:E; [|vm_compute in E; discriminate].
  assert (Hc : cap 3 (groups h) = None).
  { vm_compute in E. injection E as <-. reflexivity. }
  assert (Ht : trim (group 2 h) = lit "C").
  { vm_compute in E. injection E as <-. reflexivity. }
  rewrite <- Ht.
  exact (proj2 heading_inheritance 3%nat (Some (lit "B")) (lit "#FF0000")
           (lit "# C") [lit "- [ ] t2"] h E Hc).
Defined.

(** * Heading lines *)

(** A greedy quantifier returns what the continuation gives at the longest
    run, when it succeeds there. *)
Lemma repeatG_longest p lo hi k b u v cs x :
  forallb p u = true -> (lo <= length u)%nat ->
  match hi with Some h => (length u <= h)%nat | None => True end ->
  match v with c :: _ => p c = false | [] => True end ->
  k (rev u ++ b) v cs = Some x ->
  repeatG p lo hi k b (u ++ v) cs = Some x.
Proof.
  revert lo hi b. induction u as [|c u IH]; intros lo hi b Hu Hlo Hhi Hv Hk.
  - simpl in *. assert (lo = 0)%nat as -> by lia.
    destruct v as [|d v]; simpl; [exact Hk|]. now rewrite Hv.
  - simpl in *. apply andb_true_iff in Hu as [Hc Hu]. rewrite Hc.
    assert (canMore hi = true) as ->.
    { destruct hi as [[|h]|]; simpl; [lia | reflexivity | reflexivity]. }
    simpl. rewrite (IH (pred lo) (decr hi) (c :: b)); auto.
    + lia.
    + destruct hi as [h|]; simpl; [lia | exact I].
    + now rewrite <- app_assoc in Hk.
Qed.

Lemma app_eq_length_tail (a b c d : str) :
  a ++ b = c ++ d -> length b = length d -> a = c /\ b = d.
Proof.
  revert c. induction a as [|x a IH]; intros [|y c] H L; simpl in *.
  - now split.
  - subst b. rewrite length_cons, length_app in L. lia.
  - subst d. rewrite length_cons, length_app in L. lia.
  - injection H as -> H. destruct (IH c H L) as [-> ->]. now split.
Qed.

(** A run of whitespace at the end of a text whose last character is not
    whitespace is empty. *)
Lemma space_suffix_empty (u v r : str) z :
  u ++ v = r ++ [z] -> isSpace z = false -> forallb isSpace v = true -> v = [].
Proof.
  intros H Hz Hv. destruct v as [|y0 v0]; [reflexivity|]. exfalso.
  destruct (@exists_last _ (y0 :: v0)) as (v' & y & E); [discriminate|].
  rewrite E in H, Hv.
  rewrite app_assoc in H. apply app_inj_tail in H as [_ ->].
  rewrite forallb_app in Hv. simpl in Hv.
  rewrite Hz in Hv. now rewrite andb_false_r in Hv.
Qed.

Lemma endsLine_Eol : endsLine Eol.
Proof.
  split; [reflexivity|]. intros b [|c v] cs x; simpl; [|discriminate].
  intros H; injection H as <-. eauto.
Qed.

Lemma endsLine_star_Eol : endsLine (star isSpace ;; Eol).
Proof.
  split; [reflexivity|]. intros b v cs x. unfold star. cbn [run]. intros H.
  apply repeatG_sound in H as (u & w & -> & Hu & _ & H).
  destruct w; [|discriminate]. injection H as <-.
  rewrite app_nil_r. eauto.
Qed.

Lemma hex_not_space c : isHex c = true -> isSpace c = false.
Proof.
  intros H. destruct (isSpace c) eqn:E; [|reflexivity].
  unfold isSpace in E. simpl existsb in E.
  apply orb_true_iff in E as [E|E].
  - point_class E; try discriminate; vm_compute in H; discriminate.
  - unfold isHex, isDigit in H.
    apply andb_true_iff in E as [E1 E2]. apply N.leb_le in E1, E2.
    repeat (apply orb_true_iff in H as [H|H]);
      apply andb_true_iff in H as [H1 H2]; apply N.leb_le in H1, H2; lia.
Qed.

Section ColorTail.

Variables (i j : nat) (fin : regex).
Hypothesis fin_ends : endsLine fin.

Lemma run_colorGroup_sound b v cs x :
  run (colorGroup j) (run fin accept) b v cs = Some x ->
  exists w h6 rest b',
    v = w ++ 35 :: h6 ++ rest /\ length h6 = 6%nat /\
    forallb isSpace rest = true /\ x = (b', [], (j, 35 :: h6) :: cs).
Proof.
  unfold colorGroup, plus, times. cbn [run].
  rewrite repeatG_plus_max by reject_space.
  destruct (takeWhile isSpace v) as [|w0 w] eqn:W; [discriminate|].
  destruct (dropWhile isSpace v) as [|c r] eqn:D; [discriminate|].
  destruct (isHash c) eqn:Hc; [|discriminate].
  apply N.eqb_eq in Hc. subst c.
  rewrite repeatG_exact.
  destruct (6 <=? length r)%nat eqn:L; [|discriminate].
  destruct (forallb isHex (firstn 6 r)); [|discriminate]. cbn [andb].
  intros H. apply (proj2 fin_ends) in H as (Hs & b' & ->).
  exists (w0 :: w), (firstn 6 r), (skipn 6 r), b'.
  rewrite firstn_skipn, <- W, <- D, takeWhile_dropWhile.
  repeat split; try assumption.
  - apply firstn_length_le. now apply Nat.leb_le.
  - change (35 :: ?y) with ([35] ++ y) at 1. rewrite app_assoc, span_app.
    now list_norm.
Qed.

Lemma run_colorGroup_complete b ws2 hex cs :
  ws2 <> [] -> forallb isSpace ws2 = true ->
  length hex = 6%nat -> forallb isHex hex = true ->
  exists b',
    run (colorGroup j) (run fin accept) b (ws2 ++ 35 :: hex) cs
    = Some (b', [], (j, 35 :: hex) :: cs).
Proof.
  intros Hne Hw Hl Hh. unfold colorGroup, plus, times. cbn [run].
  rewrite repeatG_plus_max by reject_space.
  destruct (takeWhile_app isSpace ws2 35 hex Hw eq_refl) as [-> ->].
  destruct ws2 as [|w0 w]; [now elim Hne|].
  cbn [isHash N.eqb Pos.eqb]. rewrite repeatG_exact.
  rewrite <- Hl, Nat.leb_refl, firstn_all, skipn_all, Hh. cbn [andb].
  rewrite (proj1 fin_ends). eexists. repeat f_equal.
  change (35 :: ?y) with ([35] ++ y) at 1. rewrite app_assoc, span_app.
  now list_norm.
Qed.

(** On "title, whitespace, colour" the lazy title stops at the first point
    from which the colour closes the line, so the colour group holds the
    trailing colour. *)
Lemma run_colorTail b title ws2 hex cs :
  forallb isDot title = true ->
  ws2 <> [] -> forallb isSpace ws2 = true ->
  length hex = 6%nat -> forallb isHex hex = true ->
  exists b' u,
    run (colorTail i j fin) accept b (title ++ ws2 ++ 35 :: hex) cs
    = Some (b', [], (j, 35 :: hex) :: (i, u) :: cs).
Proof.
  intros Ht Hne Hw Hl Hh. unfold colorTail, lazyStar. cbn [run].
  set (K := fun (b' r' : str) (cs' : caps) =>
              match run (colorGroup j) (run fin accept) b' r' ((i, span b b') :: cs') with
              | Some x => Some x
              | None => run fin accept b' r' ((i, span b b') :: cs')
              end).
  assert (Hgood : K (rev title ++ b) (ws2 ++ 35 :: hex) cs <> None).
  { unfold K.
    destruct (run_colorGroup_complete (rev title ++ b) ws2 hex
                ((i, span b (rev title ++ b)) :: cs) Hne Hw Hl Hh) as (b' & ->).
    discriminate. }
  pose proof (repeatL_complete isDot K b title (ws2 ++ 35 :: hex) cs Ht Hgood) as Hsome.
  destruct (repeatL isDot 0 None K b (title ++ ws2 ++ 35 :: hex) cs) as [x|] eqn:R;
    [clear Hsome | now elim Hsome].
  apply repeatL_first in R as (u & v & Huv & _ & Hk & Hmin).
  (* the last character of the line is a hex digit *)
  destruct (@exists_last _ hex) as (hex' & z & Ehex).
  { intros ->. discriminate. }
  assert (Hz : isSpace z = false).
  { apply hex_not_space. rewrite Ehex, forallb_app in Hh.
    apply andb_true_iff in Hh as [_ Hh]. simpl in Hh.
    now rewrite andb_true_r in Hh. }
  assert (Hline : u ++ v = (title ++ ws2 ++ 35 :: hex') ++ [z]).
  { rewrite <- Huv, Ehex. now list_norm. }
  unfold K in Hk.
  destruct (run (colorGroup j) (run fin accept) (rev u ++ b) v _) as [y|] eqn:G.
  - injection Hk as <-.
    apply run_colorGroup_sound in G as (w & h6 & rest & b' & Hv & Hl6 & Hrest & ->).
    assert (rest = []) as ->.
    { apply (space_suffix_empty (u ++ w ++ 35 :: h6) rest
               (title ++ ws2 ++ 35 :: hex') z); try assumption.
      rewrite <- Hline, Hv. now list_norm. }
    rewrite app_nil_r in Hv. subst v.
    assert (E : (u ++ w) ++ 35 :: h6 = (title ++ ws2) ++ 35 :: hex).
    { rewrite <- !app_assoc. now rewrite <- Huv. }
    apply app_eq_length_tail in E as [_ E]; [|simpl; lia].
    rewrite E. eauto.
  - apply (proj2 fin_ends) in Hk as (Hs & _).
    assert (v = []) as -> by (eapply space_suffix_empty; eassumption).
    rewrite app_nil_r in Huv. exfalso. apply Hgood.
    apply (Hmin title (ws2 ++ 35 :: hex)); [reflexivity|].
    rewrite <- Huv, !length_app. destruct ws2; [now elim Hne | simpl; lia].
Qed.

End ColorTail.

Lemma nonBlank_split title :
  nonBlank title = true ->
  exists sp t0 tl, title = sp ++ t0 :: tl /\ forallb isSpace sp = true /\
                   isSpace t0 = false.
Proof.
  induction title as [|c title IH]; simpl; [discriminate|].
  destruct (isSpace c) eqn:E; simpl.
  - intros H. destruct (IH H) as (sp & t0 & tl & -> & Hsp & Ht).
    exists (c :: sp), t0, tl. simpl. now rewrite E, Hsp.
  - intros _. now exists [], c, title.
Qed.

Lemma heading_line_assoc (ws sp : str) t0 tl ws2 hex :
  lit "###" ++ ws ++ (sp ++ t0 :: tl) ++ ws2 ++ lit "#" ++ hex
  = [35; 35; 35] ++ (ws ++ sp) ++ (t0 :: tl) ++ ws2 ++ 35 :: hex.
Proof. change (lit "###") with [35; 35; 35]. now list_norm. Qed.

Section ColoredHeading.

Variables (ws title ws2 hex : str).
Hypothesis ws_some : ws <> [].
Hypothesis ws_space : forallb isSpace ws = true.
Hypothesis title_some : nonBlank title = true.
Hypothesis title_line : forallb isDot title = true.
Hypothesis ws2_some : ws2 <> [].
Hypothesis ws2_space : forallb isSpace ws2 = true.
Hypothesis hex_six : length hex = 6%nat.
Hypothesis hex_digits : forallb isHex hex = true.

Lemma exec_reHeading_colored :
  exists b' u,
    exec reHeading (coloredHeading ws title ws2 hex)
    = Some (mkMatch [] (rev b') []
              [(3%nat, 35 :: hex); (2%nat, u); (1%nat, [35; 35; 35])]).
Proof.
  destruct (nonBlank_split title title_some) as (sp & t0 & tl & Et & Hsp & Ht0).
  unfold coloredHeading. rewrite Et, heading_line_assoc.
  assert (Hdot : forallb isDot (t0 :: tl) = true).
  { rewrite Et, forallb_app in title_line.
    now apply andb_true_iff in title_line as [_ ?]. }
  assert (Hws : forallb isSpace (ws ++ sp) = true).
  { rewrite forallb_app. now rewrite ws_space, Hsp. }
  change reHeading with
    (Bol ;; Group 1 (Repeat true 1 (Some 3%nat) isHash) ;; plus isSpace ;;
     colorTail 2 3 (star isSpace ;; Eol))%regex.
  rewrite exec_bol. unfold matchAt, plus. cbn [run].
  destruct (run_colorTail 2 3 (star isSpace ;; Eol) endsLine_star_Eol
              (rev (ws ++ sp) ++ [35; 35; 35]) (t0 :: tl) ws2 hex
              [(1%nat, span [] [35; 35; 35])]
              Hdot ws2_some ws2_space hex_six hex_digits) as (b' & u & Hrun).
  exists b', u.
  rewrite (repeatG_longest isHash 1 (Some 3%nat) _ [] [35; 35; 35] _ []
             (b', [], [(3%nat, 35 :: hex); (2%nat, u); (1%nat, [35; 35; 35])]));
    [ | reflexivity | simpl; lia | simpl; lia | | ].
  - rewrite span_nil. reflexivity.
  - destruct ws as [|w ws']; [now elim ws_some|]. simpl in *.
    apply andb_true_iff in ws_space as [Hw _]. now apply space_not_hash.
  - cbn [rev app].
    apply repeatG_longest; try assumption; try exact I.
    rewrite length_app. destruct ws; [now elim ws_some | simpl; lia].
Qed.

Lemma exec_reHeadingColor_colored :
  exists b' u,
    exec reHeadingColor (coloredHeading ws title ws2 hex)
    = Some (mkMatch [] (rev b') [] [(2%nat, 35 :: hex); (1%nat, u)]).
Proof.
  destruct (nonBlank_split title title_some) as (sp & t0 & tl & Et & Hsp & Ht0).
  unfold coloredHeading. rewrite Et, heading_line_assoc.
  assert (Hdot : forallb isDot (t0 :: tl) = true).
  { rewrite Et, forallb_app in title_line.
    now apply andb_true_iff in title_line as [_ ?]. }
  assert (Hws : forallb isSpace (ws ++ sp) = true).
  { rewrite forallb_app. now rewrite ws_space, Hsp. }
  change reHeadingColor with
    (Bol ;; Repeat true 1 (Some 3%nat) isHash ;; plus isSpace ;;
     colorTail 1 2 Eol)%regex.
  rewrite exec_bol. unfold matchAt, plus. cbn [run].
  destruct (run_colorTail 1 2 Eol endsLine_Eol
              (rev (ws ++ sp) ++ [35; 35; 35]) (t0 :: tl) ws2 hex []
              Hdot ws2_some ws2_space hex_six hex_digits) as (b' & u & Hrun).
  exists b', u.
  rewrite (repeatG_longest isHash 1 (Some 3%nat) _ [] [35; 35; 35] _ []
             (b', [], [(2%nat, 35 :: hex); (1%nat, u)]));
    [ | reflexivity | simpl; lia | simpl; lia | | ].
  - rewrite span_nil. reflexivity.
  - destruct ws as [|w ws']; [now elim ws_some|]. simpl in *.
    apply andb_true_iff in ws_space as [Hw _]. now apply space_not_hash.
  - cbn [rev app].
    apply repeatG_longest; try assumption; try exact I.
    rewrite length_app. destruct ws; [now elim ws_some | simpl; lia].
Qed.

End ColoredHeading.

(** A line that starts with four hashes matches none of the regexes. *)
Lemma four_hashes_other rest :
  exec reHeading (lit "####" ++ rest) = None /\
  exec reTask (lit "####" ++ rest) = None /\
  exec reHeadingColor (lit "####" ++ rest) = None.
Proof.
  unfold reHeading, reTask, reHeadingColor. rewrite !exec_bol.
  repeat split.
Qed.

(** C9: a line made of exactly three hashes, whitespace, a title (not
    blank, without line terminators), whitespace and a trailing colour of
    six hex digits is a heading for [parseTasks] and for
    [applyHeadingColors], with that colour; a line that starts with four
    hashes is no heading and no task: the parse loop steps over it with
    both trackers unchanged. *)
Theorem heading_hash_boundary :
  (forall ws title ws2 hex,
      ws <> [] -> forallb isSpace ws = true ->
      nonBlank title = true -> forallb isDot title = true ->
      ws2 <> [] -> forallb isSpace ws2 = true ->
      length hex = 6%nat -> forallb isHex hex = true ->
      let line := coloredHeading ws title ws2 hex in
      (exists h, exec reHeading line = Some h /\
                 cap 3 (groups h) = Some (lit "#" ++ hex)) /\
      decoratedColor line = Some (lit "#" ++ hex) /\
      forall i lh lc rest,
        exists title',
          parseLoop i lh lc (line :: rest)
          = parseLoop (S i) (Some title') (lit "#" ++ hex) rest) /\
  (forall rest,
      let line := lit "####" ++ rest in
      exec reHeading line = None /\ exec reTask line = None /\
      decoratedColor line = None /\
      forall i lh lc lines,
        parseLoop i lh lc (line :: lines) = parseLoop (S i) lh lc lines).
Proof.
  split.
  - intros ws title ws2 hex H1 H2 H3 H4 H5 H6 H7 H8 line.
    destruct (exec_reHeading_colored ws title ws2 hex H1 H2 H3 H4 H5 H6 H7 H8)
      as (b' & u & E).
    destruct (exec_reHeadingColor_colored ws title ws2 hex H1 H2 H3 H4 H5 H6 H7 H8)
      as (b2 & u2 & E2).
    fold line in E, E2. repeat split.
    + eexists. split; [exact E | reflexivity].
    + unfold decoratedColor. now rewrite E2.
    + intros i lh lc rest. simpl. rewrite E. eexists. reflexivity.
  - intros rest line.
    destruct (four_hashes_other rest) as (Hh & Ht & Hc). fold line in Hh, Ht, Hc.
    repeat split; try assumption.
    + unfold decoratedColor. now rewrite Hc.
    + intros i lh lc lines. simpl. now rewrite Hh, Ht.
Qed.

Lemma heading_hash_boundary_witness :
  let line := lit "### Release  notes" ++ [9; 32] ++ lit "#1a2B3c" in
  (exists h, exec reHeading line = Some h /\
             cap 3 (groups h) = Some (lit "#1a2B3c")) /\
  decoratedColor line = Some (lit "#1a2B3c") /\
  forall i lh lc rest,
    exists title',
      parseLoop i lh lc (line :: rest)
      = parseLoop (S i) (Some title') (lit "#1a2B3c") rest.
Proof.
  apply (proj1 heading_hash_boundary (lit " ") (lit "Release  notes") [9; 32]
           (lit "1a2B3c"));
    solve [discriminate | reflexivity].
Defined.

(** * Toggling the status *)

Lemma nextStatusChar_status st :
  isStatusChar st = true -> isStatusChar (nextStatusChar st) = true.
Proof. intros H. unfold isStatusChar in H. point_class H; reflexivity. Qed.

Lemma nextStatusChar_cycle st :
  isStatusChar st = true ->
  nextStatusChar (nextStatusChar (nextStatusChar st)) = st.
Proof. intros H. unfold isStatusChar in H. point_class H; reflexivity. Qed.

Lemma toggle_dashLine ind ws st rest :
  forallb isSpace ind = true -> forallb isSpace ws = true ->
  isStatusChar st = true ->
  toggleTaskStatus (dashLine ind ws st rest)
  = dashLine ind ws (nextStatusChar st) rest.
Proof.
  intros Hi Hw Hs. unfold toggleTaskStatus, replace, dashLine.
  change reToggle with (reBracketed isDash).
  rewrite exec_reBracketed by apply space_not_dash.
  change (lit "-" ++ ?x) with (45 :: x).
  change (lit "[" ++ ?x) with (91 :: x).
  change (lit "]" ++ ?x) with (93 :: x).
  rewrite (checkboxPrefix_intro isDash space_not_dash ind 45 ws st rest Hi eq_refl Hw Hs).
  unfold toggleReplacer, group. cbn [pre post groups cap Nat.eqb].
  unfold isStatusChar in Hs. point_class Hs; cbn; now list_norm.
Qed.

(** The Monaco toggle leaves a task line with another bullet as it is. *)
Lemma toggle_ignores_other_bullets line ind bul ws st rest :
  checkboxPrefix isBullet line = Some (ind, bul, ws, st, rest) ->
  isDash bul = false -> toggleTaskStatus line = line.
Proof.
  intros Hp Hd. unfold toggleTaskStatus, replace.
  change reToggle with (reBracketed isDash).
  rewrite exec_reBracketed by apply space_not_dash.
  destruct (checkboxPrefix isDash line) as [[[[[i2 b2] w2] s2] r2]|] eqn:E;
    [|reflexivity].
  apply checkboxPrefix_shape in E as (E & Hi2 & Hb2 & _).
  apply checkboxPrefix_shape in Hp as (Hl & Hi & Hb & _).
  exfalso. rewrite Hl in E.
  assert (S2 : isSpace b2 = false) by now apply bullet_not_space, dash_is_bullet.
  assert (S1 : isSpace bul = false) by now apply bullet_not_space.
  destruct (takeWhile_app isSpace ind bul (ws ++ 91 :: st :: 93 :: rest) Hi S1)
    as [_ D1].
  destruct (takeWhile_app isSpace i2 b2 (w2 ++ 91 :: s2 :: 93 :: r2) Hi2 S2)
    as [_ D2].
  rewrite E, D2 in D1. injection D1 as -> _. congruence.
Qed.

Lemma exec_reAceWith mid ind ws r :
  forallb isSpace ind = true -> forallb isSpace ws = true ->
  exec (reAceWith mid) (ind ++ 45 :: ws ++ 91 :: r) =
  match run mid (run (Class isRBracket) accept) (91 :: rev ws ++ 45 :: rev ind) r
            [(1%nat, ind)] with
  | Some (b', r', cs) => Some (mkMatch [] (rev b') r' cs)
  | None => None
  end.
Proof.
  intros Hi Hw. unfold reAceWith. rewrite exec_bol. unfold matchAt, star.
  cbn [run]. rewrite repeatG_star_max by reject_space.
  destruct (takeWhile_app isSpace ind 45 (ws ++ 91 :: r) Hi eq_refl) as [-> ->].
  cbn [isDash N.eqb Pos.eqb]. rewrite repeatG_star_max by reject_space.
  destruct (takeWhile_app isSpace ws 91 r Hw eq_refl) as [-> ->].
  cbn [isLBracket N.eqb Pos.eqb]. rewrite span_nil, !app_nil_r, rev_involutive.
  destruct (run mid _ _ r _) as [[[b' r'] cs]|]; [|reflexivity].
  now rewrite span_nil.
Qed.

Lemma aceToggle_dashLine ind st rest :
  forallb isSpace ind = true -> isStatusChar st = true ->
  aceToggleTaskStatus (dashLine ind (lit " ") st rest)
  = dashLine ind (lit " ") (nextStatusChar st) rest.
Proof.
  intros Hi Hs. unfold aceToggleTaskStatus, test, replace, dashLine.
  change reAcePending with (reAceWith (star isSpace)).
  change reAceInProgress with (reAceWith (Class isSlash)).
  change reAceDone with (reAceWith (Class isX)).
  change (lit "-" ++ ?x) with (45 :: x).
  change (lit "[" ++ ?x) with (91 :: x).
  change (lit "]" ++ ?x) with (93 :: x).
  rewrite !exec_reAceWith by (assumption || reflexivity).
  unfold isStatusChar in Hs. point_class Hs; cbn; now list_norm.
Qed.

(** C2 (as the code has it): on every task line whose bullet is a dash,
    [toggleTaskStatus] moves the status character one step along
    space, slash, x, space and changes nothing else, so three applications
    give the line back; the Ace variant does the same when the dash is
    followed by exactly one space. *)
Theorem toggle_cycles_dash_tasks ind ws st rest :
  forallb isSpace ind = true -> forallb isSpace ws = true ->
  isStatusChar st = true ->
  toggleTaskStatus (dashLine ind ws st rest)
  = dashLine ind ws (nextStatusChar st) rest /\
  toggleTaskStatus (toggleTaskStatus (toggleTaskStatus (dashLine ind ws st rest)))
  = dashLine ind ws st rest /\
  aceToggleTaskStatus (dashLine ind (lit " ") st rest)
  = dashLine ind (lit " ") (nextStatusChar st) rest /\
  aceToggleTaskStatus
    (aceToggleTaskStatus (aceToggleTaskStatus (dashLine ind (lit " ") st rest)))
  = dashLine ind (lit " ") st rest.
Proof.
  intros Hi Hw Hs.
  pose proof (nextStatusChar_status st Hs) as Hs1.
  pose proof (nextStatusChar_status _ Hs1) as Hs2.
  repeat split.
  - now apply toggle_dashLine.
  - rewrite !toggle_dashLine by assumption.
    now rewrite nextStatusChar_cycle.
  - now apply aceToggle_dashLine.
  - rewrite !aceToggle_dashLine by assumption.
    now rewrite nextStatusChar_cycle.
Qed.

Lemma toggle_cycles_dash_tasks_witness :
  toggleTaskStatus (lit "  -  [/] ship it") = lit "  -  [x] ship it" /\
  toggleTaskStatus (toggleTaskStatus (toggleTaskStatus (lit "  -  [/] ship it")))
  = lit "  -  [/] ship it" /\
  aceToggleTaskStatus (lit "  - [/] ship it") = lit "  - [x] ship it" /\
  aceToggleTaskStatus (aceToggleTaskStatus (aceToggleTaskStatus (lit "  - [/] ship it")))
  = lit "  - [/] ship it".
Proof.
  exact (toggle_cycles_dash_tasks (lit "  ") (lit "  ") 47 (lit " ship it")
           eq_refl eq_refl eq_refl).
Defined.

(** C2, the claim as stated, fails on a task line with a star bullet: the
    Monaco toggle does not move its status character, and the Ace toggle
    rewrites the line around it. *)
Lemma toggle_not_cycle_on_star_bullet :
  ~ (forall line c, statusCharOf line = Some c ->
       statusCharOf (toggleTaskStatus line) = Some (nextStatusChar c)) /\
  ~ (forall line c, statusCharOf line = Some c ->
       exists a b, line = a ++ c :: b /\
                   aceToggleTaskStatus line = a ++ nextStatusChar c :: b).
Proof.
  split.
  - intros H. specialize (H (lit "* [ ] a") 32 eq_refl).
    vm_compute in H. discriminate.
  - intros H. destruct (H (lit "* [ ] a") 32 eq_refl) as (a & b & Ha & Hb).
    apply (f_equal (@length N)) in Ha, Hb.
    rewrite length_app in Ha, Hb. vm_compute in Ha, Hb.
    simpl in Ha, Hb. lia.
Qed.

(** * Setting the due date *)

Lemma startsWith_app p r : startsWith p (p ++ r) = true.
Proof. induction p as [|c p IH]; simpl; [reflexivity|]. now rewrite N.eqb_refl. Qed.

Lemma startsWith_refl p : startsWith p p = true.
Proof. induction p as [|c p IH]; simpl; [reflexivity|]. now rewrite N.eqb_refl. Qed.

Lemma startsWith_split p r :
  startsWith p r = true -> r = p ++ skipn (length p) r.
Proof.
  revert r. induction p as [|c p IH]; intros [|d r]; simpl; try easy.
  intros H. apply andb_true_iff in H as [E H]. apply N.eqb_eq in E. subst d.
  f_equal. now apply IH.
Qed.

Lemma includes_app p u v : startsWith p v = true -> includes p (u ++ v) = true.
Proof.
  intros H. induction u as [|c u IH]; simpl.
  - destruct v; simpl in *; now rewrite H.
  - rewrite IH. apply orb_true_r.
Qed.

Lemma run_Lit s k b r cs :
  run (Lit s) k b r cs =
  if startsWith s r then k (rev s ++ b) (skipn (length s) r) cs else None.
Proof.
  revert b r. induction s as [|c s IH]; intros b r; [reflexivity|].
  cbn [Lit]. unfold Chr. cbn [run]. destruct r as [|d r]; [reflexivity|].
  cbn [startsWith]. destruct (c =? d) eqn:E; [|reflexivity].
  apply N.eqb_eq in E. subst d. rewrite IH. cbn [andb length skipn rev].
  now rewrite <- app_assoc.
Qed.

(** [reDate] reads ten characters and checks them. *)
Lemma run_reDate_sound k b r cs x :
  run reDate k b r cs = Some x ->
  exists X r', r = X ++ r' /\ isDate X = true /\ k (rev X ++ b) r' cs = Some x.
Proof.
  unfold reDate, times. cbn [run]. rewrite repeatG_exact.
  do 4 (destruct r as [|? r]; [discriminate|]).
  cbn [length Nat.leb firstn skipn forallb andb rev app].
  destruct (isDigit n) eqn:D1; [|discriminate].
  destruct (isDigit n0) eqn:D2; [|discriminate].
  destruct (isDigit n1) eqn:D3; [|discriminate].
  destruct (isDigit n2) eqn:D4; [|discriminate]. cbn [andb].
  destruct r as [|h1 r]; [discriminate|].
  destruct (isDash h1) eqn:H1; [|discriminate].
  rewrite repeatG_exact.
  do 2 (destruct r as [|? r]; [discriminate|]).
  cbn [length Nat.leb firstn skipn forallb andb rev app].
  destruct (isDigit n3) eqn:D5; [|discriminate].
  destruct (isDigit n4) eqn:D6; [|discriminate]. cbn [andb].
  destruct r as [|h2 r]; [discriminate|].
  destruct (isDash h2) eqn:H2; [|discriminate].
  rewrite repeatG_exact.
  do 2 (destruct r as [|? r]; [discriminate|]).
  cbn [length Nat.leb firstn skipn forallb andb rev app].
  destruct (isDigit n5) eqn:D7; [|discriminate].
  destruct (isDigit n6) eqn:D8; [|discriminate]. cbn [andb].
  intros H. exists [n; n0; n1; n2; h1; n3; n4; h2; n5; n6], r.
  split; [reflexivity|]. split.
  - cbn [isDate]. now rewrite D1, D2, D3, D4, H1, D5, D6, H2, D7, D8.
  - exact H.
Qed.

Lemma run_reDate_complete k b X r cs :
  isDate X = true -> run reDate k b (X ++ r) cs = k (rev X ++ b) r cs.
Proof.
  intros H. do 10 (destruct X as [|? X]; [discriminate|]).
  destruct X; [|discriminate]. cbn [isDate] in H.
  do 9 (apply andb_true_iff in H as [H ?]).
  unfold reDate, times. cbn [run app].
  rewrite repeatG_exact.
  cbn [length Nat.leb firstn skipn forallb andb rev app].
  rewrite H, H8, H7, H6. cbn [andb]. rewrite H5.
  rewrite repeatG_exact.
  cbn [length Nat.leb firstn skipn forallb andb rev app].
  rewrite H4, H3. cbn [andb]. rewrite H2.
  rewrite repeatG_exact.
  cbn [length Nat.leb firstn skipn forallb andb rev app].
  rewrite H1, H0. cbn [andb]. reflexivity.
Qed.

Lemma matchAt_reDue_sound b v m :
  matchAt reDue b v = Some m ->
  exists X post, v = lit "due:" ++ X ++ post /\ isDate X = true /\
                 m = mkMatch (rev b) (lit "due:" ++ X) post [].
Proof.
  unfold matchAt, reDue. cbn [run]. rewrite run_Lit.
  destruct (startsWith (lit "due:") v) eqn:S; [|discriminate].
  apply startsWith_split in S.
  destruct (run reDate accept _ _ _) as [[[b' r'] cs]|] eqn:R; [|discriminate].
  apply run_reDate_sound in R as (X & post & E & HX & R).
  injection R as <- <- <-. intros H; injection H as <-.
  exists X, post. rewrite E in S. repeat split; try assumption.
  f_equal. change (rev X ++ ?y) with (rev X ++ rev (lit "due:") ++ b).
  rewrite app_assoc, span_app. now list_norm.
Qed.

Lemma matchAt_reDue_complete b X post :
  isDate X = true ->
  matchAt reDue b (lit "due:" ++ X ++ post)
  = Some (mkMatch (rev b) (lit "due:" ++ X) post []).
Proof.
  intros HX. unfold matchAt, reDue. cbn [run]. rewrite run_Lit.
  rewrite startsWith_app, skipn_app, Nat.sub_diag, skipn_all. cbn [skipn app].
  rewrite run_reDate_complete by assumption. unfold accept.
  f_equal. f_equal. rewrite app_assoc, span_app. now list_norm.
Qed.

(** The first match of the "due:" regex is the first "due:" date. *)
Lemma exec_reDue_first line :
  (exists pre X post, line = pre ++ lit "due:" ++ X ++ post /\ isDate X = true) ->
  exists pre X post,
    firstDueDate line pre X post /\
    exec reDue line = Some (mkMatch pre (lit "due:" ++ X) post []).
Proof.
  intros (pre0 & X0 & post0 & E0 & H0).
  assert (Hsome : exec reDue line <> None).
  { rewrite E0. apply search_complete.
    rewrite matchAt_reDue_complete by assumption. discriminate. }
  destruct (exec reDue line) as [m|] eqn:E; [clear Hsome | now elim Hsome].
  apply search_first in E as (u & v & Hl & Hm & Hmin).
  apply matchAt_reDue_sound in Hm as (X & post & -> & HX & ->).
  exists u, X, post. rewrite app_nil_r, rev_involutive. split; [|reflexivity].
  repeat split; try assumption.
  intros pre' X' post' E' H'.
  destruct (Nat.le_gt_cases (length u) (length pre')) as [L|L]; [exact L|].
  specialize (Hmin pre' _ E' L).
  rewrite matchAt_reDue_complete in Hmin by assumption. discriminate.
Qed.

(** C4: on a line that holds a "due:" date, [addTodaysDate] (in both
    editors) puts the new date in the place of the first such date and
    leaves the text before and after it as it was. *)
Theorem addTodaysDate_replaces_first_due line d :
  isDateText d = true ->
  (exists pre X post, line = pre ++ lit "due:" ++ X ++ post /\ isDate X = true) ->
  exists pre X post,
    firstDueDate line pre X post /\
    addTodaysDate d line = pre ++ lit "due:" ++ d ++ post /\
    aceAddTodaysDate d line = pre ++ lit "due:" ++ d ++ post.
Proof.
  intros _ H. destruct (exec_reDue_first line H) as (u & X & w & Hf & He).
  exists u, X, w. split; [exact Hf|].
  destruct Hf as (Hl & _ & _).
  assert (Hi : includes (lit "due:") line = true).
  { rewrite Hl. apply includes_app, startsWith_app. }
  unfold addTodaysDate, aceAddTodaysDate, replace. rewrite Hi, He.
  cbn [pre post]. now rewrite <- !app_assoc.
Qed.

Lemma addTodaysDate_replaces_first_due_witness :
  exists pre X post,
    firstDueDate (lit "- [ ] pay due:2024-12-31 then due:2025-01-05 (b)") pre X post /\
    addTodaysDate (lit "2025-02-02")
      (lit "- [ ] pay due:2024-12-31 then due:2025-01-05 (b)")
    = pre ++ lit "due:" ++ lit "2025-02-02" ++ post /\
    aceAddTodaysDate (lit "2025-02-02")
      (lit "- [ ] pay due:2024-12-31 then due:2025-01-05 (b)")
    = pre ++ lit "due:" ++ lit "2025-02-02" ++ post.
Proof.
  apply (addTodaysDate_replaces_first_due
           (lit "- [ ] pay due:2024-12-31 then due:2025-01-05 (b)")
           (lit "2025-02-02")).
  - reflexivity.
  - exists (lit "- [ ] pay "), (lit "2024-12-31"), (lit " then due:2025-01-05 (b)").
    split; reflexivity.
Defined.

(** A match of the word-bounded "due:" regex starts with "due:". *)
Lemma exec_reDueB_includes line m :
  exec reDueB line = Some m -> includes (lit "due:") line = true.
Proof.
  intros H. apply search_first in H as (u & v & -> & H & _).
  apply includes_app. unfold matchAt, reDueB in H. cbn [run] in H.
  destruct (xorb _ _); [|discriminate].
  rewrite run_Lit in H. now destruct (startsWith (lit "due:") v).
Qed.

Lemma includes_false_cons p c s :
  includes p (c :: s) = false -> startsWith p (c :: s) = false /\ includes p s = false.
Proof. simpl. intros H. now apply orb_false_iff in H. Qed.

Lemma startsWith_app_r p u v :
  startsWith p u = true -> startsWith p (u ++ v) = true.
Proof.
  revert u. induction p as [|c p IH]; intros [|d u]; simpl; try easy.
  intros H. apply andb_true_iff in H as [-> H]. now rewrite IH.
Qed.

Lemma includes_app_r p u v : includes p u = true -> includes p (u ++ v) = true.
Proof.
  induction u as [|c u IH]; intros E.
  - destruct p; [now destruct v | discriminate].
  - cbn [includes app] in *. apply orb_true_iff in E as [E|E].
    + apply (startsWith_app_r p (c :: u) v) in E. cbn [app] in E. now rewrite E.
    + rewrite IH by assumption. apply orb_true_r.
Qed.

Lemma includes_false_app_l p u v : includes p (u ++ v) = false -> includes p u = false.
Proof.
  intros H. destruct (includes p u) eqn:E; [|reflexivity].
  now rewrite (includes_app_r p u v E) in H.
Qed.

Lemma dateText_no_d d c : isDateText d = true -> In c d -> c <> 100.
Proof.
  unfold isDateText. rewrite forallb_forall. intros H Hc ->.
  specialize (H _ Hc). discriminate.
Qed.

Lemma countOcc_absent_head c p s :
  (forall x, In x s -> x <> c) -> countOcc (c :: p) s = 0%nat.
Proof.
  induction s as [|x s IH]; intros H; [reflexivity|].
  cbn [countOcc startsWith]. rewrite IH by (intros y Hy; apply H; now right).
  destruct (c =? x) eqn:E; [|reflexivity].
  apply N.eqb_eq in E. subst x. now elim (H c (or_introl eq_refl)).
Qed.

Lemma countOcc_self c p :
  (forall x, In x p -> x <> c) -> countOcc (c :: p) (c :: p) = 1%nat.
Proof.
  intros H. cbn [countOcc]. rewrite startsWith_refl.
  now rewrite countOcc_absent_head.
Qed.

(** The appended "due:" token is the only occurrence of "due:" and the
    date in a line that held no "due:" and now ends with a space and the
    token. *)
Lemma countOcc_after_space l d :
  includes (lit "due:") l = false -> isDateText d = true ->
  countOcc (lit "due:" ++ d) (l ++ 32 :: lit "due:" ++ d) = 1%nat.
Proof.
  intros Hl Hd. change (lit "due:" ++ d) with (100 :: 117 :: 101 :: 58 :: d).
  induction l as [|c l IH].
  - change (countOcc ?P ([] ++ 32 :: ?P))
      with (Nat.add (if startsWith P (32 :: P) then 1%nat else 0%nat) (countOcc P P)).
    change (startsWith _ (32 :: _)) with false.
    apply countOcc_self.
    intros x [<-|[<-|[<-|Hx]]]; try discriminate.
    now apply (dateText_no_d d).
  - apply includes_false_cons in Hl as [Hs Hl].
    cbn [app countOcc]. rewrite (IH Hl).
    replace (startsWith _ _) with false; [reflexivity|]. symmetry.
    change (lit "due:") with [100; 117; 101; 58] in Hs.
    destruct l as [|c2 [|c3 [|c4 l]]]; cbn [app startsWith] in *.
    + change (117 =? 32) with false. now rewrite andb_false_r.
    + change (101 =? 32) with false. now rewrite !andb_false_r.
    + change (58 =? 32) with false. now rewrite !andb_false_r.
    + destruct (100 =? c); [|reflexivity].
      destruct (117 =? c2); [|reflexivity].
      destruct (101 =? c3); [|reflexivity].
      destruct (58 =? c4); [discriminate | reflexivity].
Qed.

Lemma endsWith_space_split line :
  endsWith (lit " ") line = true -> exists l, line = l ++ [32].
Proof.
  unfold endsWith. change (rev (lit " ")) with [32].
  destruct (rev line) as [|c r] eqn:E; [discriminate|]. cbn [startsWith].
  rewrite andb_true_r. intros H. apply N.eqb_eq in H. subst c.
  exists (rev r). rewrite <- (rev_involutive line), E. reflexivity.
Qed.

(** C3 (as the code has it): on a line without the text "due:",
    [addTodaysDate] and the due step of [updateTaskDatesAtLine] append
    "due:" and the date; the line is kept as it is in front, a separating
    space is added exactly when the line does not end with a space
    character, and the result holds "due:" with the date exactly once. *)
Theorem due_date_appended line d :
  includes (lit "due:") line = false -> isDateText d = true ->
  let sep := if endsWith (lit " ") line then [] else lit " " in
  addTodaysDate d line = line ++ sep ++ lit "due:" ++ d /\
  setDue d line = line ++ sep ++ lit "due:" ++ d /\
  countOcc (lit "due:" ++ d) (line ++ sep ++ lit "due:" ++ d) = 1%nat.
Proof.
  intros Hl Hd sep. repeat split.
  - unfold addTodaysDate. now rewrite Hl.
  - unfold setDue, test.
    destruct (exec reDueB line) eqn:E; [|reflexivity].
    apply exec_reDueB_includes in E. congruence.
  - unfold sep. destruct (endsWith (lit " ") line) eqn:E.
    + apply endsWith_space_split in E as [l ->].
      rewrite <- app_assoc. cbn [app].
      apply countOcc_after_space; [|assumption].
      now apply includes_false_app_l in Hl.
    + now apply countOcc_after_space.
Qed.

Lemma due_date_appended_witness :
  addTodaysDate (lit "2025-01-20") (lit "- [ ] buy milk ")
  = lit "- [ ] buy milk due:2025-01-20" /\
  setDue (lit "2025-01-20") (lit "- [ ] buy milk ")
  = lit "- [ ] buy milk due:2025-01-20" /\
  countOcc (lit "due:2025-01-20") (lit "- [ ] buy milk due:2025-01-20") = 1%nat.
Proof.
  exact (due_date_appended (lit "- [ ] buy milk ") (lit "2025-01-20")
           eq_refl eq_refl).
Defined.

(** C3, the claim as stated, fails on a line that ends with a tab: the
    line ends in whitespace and the separating space is inserted all the
    same. *)
Lemma space_inserted_after_tab :
  ~ (forall line d,
       includes (lit "due:") line = false -> isDateText d = true ->
       (addTodaysDate d line = line ++ lit " " ++ lit "due:" ++ d \/
        setDue d line = line ++ lit " " ++ lit "due:" ++ d) ->
       match rev line with c :: _ => isSpace c = false | [] => True end).
Proof.
  intros H.
  specialize (H [97; 9] (lit "2025-01-20") eq_refl eq_refl (or_introl eq_refl)).
  discriminate H.
Qed.

(** The due step of [updateTaskDatesAtLine] tests the word-bounded regex
    before it replaces with the unbounded one: a "due:" date glued to a
    preceding word character is not replaced, the new date is appended. *)
Lemma setDue_glued_date :
  setDue (lit "2025-02-02") (lit "- [ ] xdue:2020-01-01")
  = lit "- [ ] xdue:2020-01-01 due:2025-02-02".
Proof. reflexivity. Qed.

(** [addTodaysDate] on a line that holds "due:" without a date after it
    leaves the line as it is. *)
Lemma addTodaysDate_due_without_date :
  addTodaysDate (lit "2025-02-02") (lit "- [ ] pay overdue: bill")
  = lit "- [ ] pay overdue: bill".
Proof. reflexivity. Qed.

(** * Further properties *)

(** ** The task regex, exactly *)

(** What follows the checkbox matches when, past the leading whitespace, the
    rest of the line holds no line terminator; the text is that rest. *)
Lemma run_taskTail b r cs :
  run taskTail accept b r cs =
  if forallb isDot (dropWhile isSpace r)
  then Some (rev r ++ b, [], (3%nat, dropWhile isSpace r) :: cs)
  else None.
Proof.
  destruct (forallb isDot (dropWhile isSpace r)) eqn:D.
  - unfold taskTail, star. cbn [run].
    rewrite <- (takeWhile_dropWhile isSpace r) at 1.
    apply repeatG_longest; try exact I.
    + apply takeWhile_all.
    + simpl; lia.
    + destruct (dropWhile isSpace r) as [|c v] eqn:E; [exact I|].
      clear D. revert E. induction r as [|d r IH]; simpl; [discriminate|].
      destruct (isSpace d) eqn:S; [exact IH|]. intros H; injection H as <- _. exact S.
    + rewrite <- (app_nil_r (dropWhile isSpace r)) at 1.
      apply repeatG_longest; try exact I; try assumption.
      * simpl; lia.
      * unfold accept. rewrite span_app, rev_involutive.
        rewrite app_assoc, <- rev_app_distr.
        now rewrite !takeWhile_dropWhile.
  - destruct (run taskTail accept b r cs) eqn:R; [|reflexivity].
    assert (H : run taskTail accept b r cs <> None) by congruence.
    apply taskTail_matches in H as (ws & body & -> & Hw & Hb).
    exfalso. clear R. induction ws as [|w ws IH]; simpl in *.
    + assert (forallb isDot (dropWhile isSpace body) = true); [|congruence].
      clear D. induction body as [|c body IHb]; simpl in *; [reflexivity|].
      apply andb_true_iff in Hb as [Hc Hb].
      destruct (isSpace c); [now apply IHb | simpl; now rewrite Hc, Hb].
    + apply andb_true_iff in Hw as [Hw1 Hw]. rewrite Hw1 in D. now apply IH.
Qed.

(** The match of [reTask] on a line, in terms of the checkbox split. *)
Lemma exec_reTask_exact line :
  exec reTask line =
  match checkboxPrefix isBullet line with
  | Some (ind, bul, ws, st, rest) =>
      if forallb isDot (dropWhile isSpace rest)
      then Some (mkMatch [] line []
                   [(3%nat, dropWhile isSpace rest); (2%nat, [st]); (1%nat, ind)])
      else None
  | None => None
  end.
Proof.
  rewrite reTask_unfold, exec_reTaskWith.
  destruct (checkboxPrefix isBullet line) as [[[[[ind bul] ws] st] rest]|] eqn:P;
    [|reflexivity].
  rewrite run_taskTail.
  destruct (forallb isDot (dropWhile isSpace rest)); [|reflexivity].
  apply checkboxPrefix_shape in P as (-> & _).
  f_equal. f_equal. now list_norm.
Qed.

(** ** Editing the status and parsing again *)

Lemma setNth_same i x m : nth_error m i = Some x -> setNth i x m = m.
Proof.
  revert i. induction m as [|y m IH]; intros [|i] H; simpl in *; try easy.
  - now injection H as ->.
  - now rewrite IH.
Qed.

Lemma restatus_above n s i lh lc lines :
  (n <= i)%nat -> restatus n s (parseLoop i lh lc lines) = parseLoop i lh lc lines.
Proof.
  intros Hn. unfold restatus. rewrite <- (map_id (parseLoop i lh lc lines)) at 2.
  apply map_ext_in. intros u Hu.
  pose proof (parseLoop_lower i lh lc lines) as L.
  rewrite Forall_forall in L. specialize (L u Hu).
  destruct (Nat.eqb_spec (lineNumber u) n); [lia | reflexivity].
Qed.

(** Rewriting the status character of line [j] changes the status of that
    line's task and nothing else in the parse. *)
Lemma parseLoop_status_edit lines i lh lc j line ind bul ws st rest st' :
  nth_error lines j = Some line ->
  checkboxPrefix isBullet line = Some (ind, bul, ws, st, rest) ->
  isStatusChar st' = true ->
  parseLoop i lh lc (setNth j (ind ++ bul :: ws ++ 91 :: st' :: 93 :: rest) lines)
  = restatus (i + j + 1) (statusOfChar [st']) (parseLoop i lh lc lines).
Proof.
  intros Hn Hp Hs'. revert i lh lc j Hn.
  induction lines as [|l lines IH]; intros i lh lc j Hn; [now destruct j|].
  destruct j as [|j]; cbn [nth_error setNth] in *.
  - injection Hn as ->.
    pose proof (checkboxPrefix_shape _ _ _ _ _ _ _ Hp) as (Hl & Hi & Hb & Hw & Hs).
    pose proof (checkboxPrefix_intro isBullet space_not_bullet ind bul ws st' rest
                  Hi Hb Hw Hs') as Hp'.
    cbn [parseLoop].
    rewrite (checkbox_not_heading _ _ Hp), (checkbox_not_heading _ _ Hp').
    rewrite !exec_reTask_exact, Hp, Hp'.
    destruct (forallb isDot (dropWhile isSpace rest)).
    + unfold restatus. cbn [map]. cbn [taskOfMatch lineNumber].
      rewrite Nat.add_0_r, Nat.eqb_refl. f_equal.
      fold (restatus (i + 1) (statusOfChar [st']) (parseLoop (S i) lh lc lines)).
      rewrite restatus_above by lia. reflexivity.
    + rewrite restatus_above by lia. reflexivity.
  - cbn [parseLoop]. replace (i + S j + 1)%nat with (S i + j + 1)%nat by lia.
    destruct (exec reHeading l); [now apply (IH (S i))|].
    destruct (exec reTask l) as [m|]; [|now apply (IH (S i))].
    unfold restatus. cbn [map]. rewrite lineNumber_taskOfMatch.
    destruct (Nat.eqb_spec (i + 1) (S i + j + 1)); [lia|].
    f_equal. now apply (IH (S i)).
Qed.

Lemma statusOfChar_mapped target :
  In target statusNames ->
  exists c, mapped target = [c] /\ isStatusChar c = true /\ statusOfChar [c] = target.
Proof.
  intros [<-|[<-|[<-|[]]]]; [exists 32 | exists 47 | exists 120]; now repeat split.
Qed.

(** X1: after a Kanban drop the board is rebuilt from a fresh parse; that
    parse shows the dropped task with the status of the target column and
    every other field of every task as before. *)
Theorem writeback_then_parse (model : Model) (t : Task) (target : str) :
  In t (parseTasks (Some model)) -> In target statusNames ->
  exists model',
    updateTaskStatusAtLine model (lineNumber t) target = Some model' /\
    parseTasks (Some model')
    = restatus (lineNumber t) target (parseTasks (Some model)).
Proof.
  intros H Ht.
  apply parseTasks_In in H
    as (j & line & m & ind & bul & ws & st & rest & lh & lc
        & Hln & Hj & _ & _ & _ & Hp & _).
  destruct (statusOfChar_mapped target Ht) as (c & Hc & Hs & Hback).
  exists (setNth j (ind ++ bul :: ws ++ 91 :: c :: 93 :: rest) model). split.
  - unfold updateTaskStatusAtLine.
    rewrite Hln, getLineContent_succ, Hj, (replace_reUpdate _ _ _ _ _ _ _ Hp), Hc.
    cbn [app]. destruct (str_eqb _ line) eqn:E; cbn [negb].
    + apply str_eqb_eq in E. rewrite E. now rewrite (setNth_same _ _ _ Hj).
    + now rewrite Nat.add_1_r.
  - unfold parseTasks.
    rewrite (parseLoop_status_edit model 0 None defaultColor j line
               ind bul ws st rest c Hj Hp Hs).
    now rewrite Hback, Hln.
Qed.

Lemma writeback_then_parse_witness :
  exists model',
    updateTaskStatusAtLine demoModel 2 (lit "done") = Some model' /\
    parseTasks (Some model')
    = restatus 2 (lit "done") (parseTasks (Some demoModel)).
Proof.
  apply (writeback_then_parse demoModel demoTask (lit "done")).
  - vm_compute; auto.
  - vm_compute; auto.
Defined.

Lemma checkboxPrefix_dash_bullet line x :
  checkboxPrefix isDash line = Some x -> checkboxPrefix isBullet line = Some x.
Proof.
  destruct x as [[[[ind bul] ws] st] rest]. intros H.
  apply checkboxPrefix_shape in H as (-> & Hi & Hb & Hw & Hs).
  apply checkboxPrefix_intro; auto using space_not_bullet, dash_is_bullet.
Qed.

Lemma statusOfChar_next st :
  isStatusChar st = true ->
  statusOfChar [nextStatusChar st] = nextStatus (statusOfChar [st]).
Proof. intros H. unfold isStatusChar in H. point_class H; reflexivity. Qed.

(** X2: toggling the status of a task line with a dash bullet and parsing
    again moves that task one step along backlog, inprogress, done,
    backlog; every other field of every task stays as before. *)
Theorem toggle_then_parse (model : Model) (t : Task) (line : str) :
  In t (parseTasks (Some model)) ->
  getLineContent model (lineNumber t) = Some line ->
  checkboxPrefix isDash line <> None ->
  parseTasks (Some (replaceLine model (lineNumber t) (toggleTaskStatus line)))
  = restatus (lineNumber t) (nextStatus (status t)) (parseTasks (Some model)).
Proof.
  intros H Hl Hd.
  apply parseTasks_In in H
    as (j & line' & m & ind & bul & ws & st & rest & lh & lc
        & Hln & Hj & _ & _ & _ & Hp & Hst).
  rewrite Hln, getLineContent_succ, Hj in Hl. injection Hl as ->.
  destruct (checkboxPrefix isDash line) as [x|] eqn:E; [clear Hd | now elim Hd].
  pose proof (checkboxPrefix_dash_bullet _ _ E) as Hp'.
  rewrite Hp in Hp'. injection Hp' as <-.
  pose proof (checkboxPrefix_shape _ _ _ _ _ _ _ E) as (Hline & Hi & Hb & Hw & Hs).
  apply N.eqb_eq in Hb. subst bul.
  pose proof (toggle_dashLine ind ws st rest Hi Hw Hs) as T.
  unfold dashLine in T.
  change (lit "-" ++ ?x) with (45 :: x) in T.
  change (lit "[" ++ ?x) with (91 :: x) in T.
  change (lit "]" ++ ?x) with (93 :: x) in T. cbn [app] in T.
  rewrite <- Hline in T. rewrite T, Hln, Nat.add_1_r. cbn [replaceLine].
  unfold parseTasks.
  rewrite (parseLoop_status_edit model 0 None defaultColor j line
             ind 45 ws st rest (nextStatusChar st) Hj Hp
             (nextStatusChar_status st Hs)).
  rewrite statusOfChar_next by assumption.
  now rewrite Hst, Nat.add_1_r.
Qed.

Lemma toggle_then_parse_witness :
  parseTasks (Some (replaceLine demoModel 4 (toggleTaskStatus (lit "- [ ] call Bob"))))
  = restatus 4 (lit "inprogress") (parseTasks (Some demoModel)).
Proof.
  apply (toggle_then_parse demoModel demoPending (lit "- [ ] call Bob")).
  - vm_compute; auto.
  - reflexivity.
  - discriminate.
Defined.

(** ** Heading and colour of a task *)

Lemma nearestColor_some above : nearestColor above <> [].
Proof.
  induction above as [|l above IH]; simpl; [discriminate|].
  destruct (exec reHeading l) as [h|]; [|exact IH].
  destruct (cap 3 (groups h)) as [[|c s]|]; try exact IH. intros E. discriminate E.
Qed.

Lemma orElse_some a b : a <> [] -> orElse a b = a.
Proof. destruct a; [now intros [] | reflexivity]. Qed.

Lemma headingColor_nearest h l above :
  exec reHeading l = Some h ->
  headingColor h (nearestColor above) = nearestColor (l :: above).
Proof.
  intros E. simpl. rewrite E. unfold headingColor.
  destruct (cap 3 (groups h)) as [[|c s]|]; reflexivity.
Qed.

Lemma parseLoop_inherits pre lines t :
  In t (parseLoop (length pre) (nearestHeading (rev pre)) (nearestColor (rev pre)) lines) ->
  heading t = nearestHeading (linesAbove (pre ++ lines) (lineNumber t)) /\
  color t = nearestColor (linesAbove (pre ++ lines) (lineNumber t)).
Proof.
  revert pre. induction lines as [|l lines IH]; intros pre; [easy|].
  assert (Hrest : forall lh lc,
            lh = nearestHeading (rev (pre ++ [l])) ->
            lc = nearestColor (rev (pre ++ [l])) ->
            In t (parseLoop (S (length pre)) lh lc lines) ->
            heading t = nearestHeading (linesAbove (pre ++ l :: lines) (lineNumber t)) /\
            color t = nearestColor (linesAbove (pre ++ l :: lines) (lineNumber t))).
  { intros lh lc -> -> H.
    replace (pre ++ l :: lines) with ((pre ++ [l]) ++ lines) by now rewrite <- app_assoc.
    apply IH. now rewrite length_app, Nat.add_1_r. }
  cbn [parseLoop]. destruct (exec reHeading l) as [h|] eqn:Hh.
  - apply Hrest; rewrite rev_app_distr; cbn [rev app].
    + simpl. now rewrite Hh.
    + now apply headingColor_nearest.
  - assert (Hsame : In t (parseLoop (S (length pre)) (nearestHeading (rev pre))
                            (nearestColor (rev pre)) lines) ->
              heading t = nearestHeading (linesAbove (pre ++ l :: lines) (lineNumber t)) /\
              color t = nearestColor (linesAbove (pre ++ l :: lines) (lineNumber t))).
    { apply Hrest; rewrite rev_app_distr; simpl; now rewrite Hh. }
    destruct (exec reTask l) as [m|]; [|exact Hsame].
    intros [<-|H]; [|exact (Hsame H)].
    cbn [taskOfMatch lineNumber heading color]. unfold linesAbove.
    rewrite Nat.add_sub, firstn_app, Nat.sub_diag, firstn_all. cbn [firstn].
    rewrite app_nil_r. split; [reflexivity|].
    apply orElse_some, nearestColor_some.
Qed.

(** X3: the heading of every task is the trimmed title of the nearest
    heading line above it (none when no heading precedes it), and its colour
    is the colour of the nearest heading line above it that carries a
    colour (the default "#1976D2" when there is none); lines below the task
    play no part. *)
Theorem task_inherits_from_above (model : Model) (t : Task) :
  In t (parseTasks (Some model)) ->
  heading t = nearestHeading (linesAbove model (lineNumber t)) /\
  color t = nearestColor (linesAbove model (lineNumber t)).
Proof.
  intros H. exact (parseLoop_inherits [] model t H).
Qed.

Lemma task_inherits_from_above_witness :
  heading demoPending = nearestHeading [lit "notes"; lit "  * [/] write report +doc";
                                        lit "# Work #00AA00"] /\
  color demoPending = nearestColor [lit "notes"; lit "  * [/] write report +doc";
                                    lit "# Work #00AA00"].
Proof.
  apply (task_inherits_from_above demoModel demoPending). vm_compute; auto.
Defined.

(** ** The fields of a parsed task *)

Lemma matchAt_reFieldB_sound name b v m :
  matchAt (reFieldB name) b v = Some m ->
  exists X post, v = name ++ X ++ post /\ isDate X = true /\ matched m = name ++ X.
Proof.
  unfold matchAt, reFieldB. cbn [run].
  destruct (xorb (headIsWord b) (headIsWord v)); [|discriminate].
  rewrite run_Lit.
  destruct (startsWith name v) eqn:S; [|discriminate].
  apply startsWith_split in S.
  destruct (run reDate _ _ _ _) as [[[b' r'] cs]|] eqn:R; [|discriminate].
  apply run_reDate_sound in R as (X & post & E & HX & R).
  destruct (xorb _ _); [|discriminate]. injection R as <- <- <-.
  intros H; injection H as <-. cbn [matched].
  exists X, post. rewrite E in S. repeat split; try assumption.
  rewrite app_assoc, span_app. now list_norm.
Qed.

Lemma exec_reFieldB_sound name s m :
  exec (reFieldB name) s = Some m ->
  exists X, matched m = name ++ X /\ isDate X = true /\ includes (matched m) s = true.
Proof.
  intros H. apply search_first in H as (u & v & -> & H & _).
  apply matchAt_reFieldB_sound in H as (X & post & -> & HX & ->).
  exists X. repeat split; try assumption.
  apply includes_app. rewrite app_assoc. apply startsWith_app.
Qed.

Lemma exec_rePrio_sound s pm p :
  exec rePrio s = Some pm -> cap 1 (groups pm) = Some p ->
  In p [lit "a"; lit "b"; lit "c"].
Proof.
  intros H. apply search_first in H as (u & v & _ & H & _).
  unfold matchAt, rePrio, Chr in H. cbn [run] in H.
  destruct v as [|c1 [|c2 [|c3 v]]]; try discriminate;
    destruct (40 =? c1); try discriminate;
    destruct (isPrio c2) eqn:P; try discriminate.
  destruct (41 =? c3); [|discriminate].
  injection H as <-. cbn [groups cap Nat.eqb].
  change (c2 :: c1 :: ?x) with ([c2] ++ c1 :: x). rewrite span_app.
  intros E; injection E as <-. cbn [rev app].
  unfold isPrio in P. apply andb_true_iff in P as [P1 P2].
  apply N.leb_le in P1, P2.
  assert (c2 = 97 \/ c2 = 98 \/ c2 = 99) as [->|[->| ->]] by lia; simpl; auto.
Qed.

Lemma trimStart_dropWhile s : trimStart s = dropWhile isSpace s.
Proof. induction s as [|c s IH]; simpl; [reflexivity|]. now rewrite IH. Qed.

Lemma dropWhile_idem p s : dropWhile p (dropWhile p s) = dropWhile p s.
Proof.
  induction s as [|c s IH]; simpl; [reflexivity|].
  destruct (p c) eqn:E; [exact IH|]. simpl. now rewrite E.
Qed.

Lemma statusOfChar_name s : In (statusOfChar s) statusNames.
Proof.
  unfold statusOfChar, statusNames.
  destruct (str_eqb s (lit "/")); [simpl; auto|].
  destruct (str_eqb s (lit "x")); simpl; auto.
Qed.

(** X4: what every record of the parse holds: a status that is one of the
    three column names; the id "ln-" and the line number; a text without
    line terminators and without leading whitespace; a due (start) field
    that, when present, is "due:" ("start:") and a date of the form
    dddd-dd-dd taken from the text; a priority that, when present, is a, b
    or c. *)
Theorem parsed_task_fields (model : Model) (t : Task) :
  In t (parseTasks (Some model)) ->
  In (status t) statusNames /\
  id t = lit "ln-" ++ numToStr (lineNumber t) /\
  forallb isDot (text t) = true /\ trimStart (text t) = text t /\
  (forall x, due t = Some x ->
     exists X, x = lit "due:" ++ X /\ isDate X = true /\ includes x (text t) = true) /\
  (forall x, start t = Some x ->
     exists X, x = lit "start:" ++ X /\ isDate X = true /\ includes x (text t) = true) /\
  (forall p, priority t = Some p -> In p [lit "a"; lit "b"; lit "c"]).
Proof.
  intros H.
  apply parseLoop_In in H as (j & line & lh & lc & m & _ & _ & Hm & ->).
  rewrite exec_reTask_exact in Hm.
  destruct (checkboxPrefix isBullet line) as [[[[[ind bul] ws] st] rest]|];
    [|discriminate].
  destruct (forallb isDot (dropWhile isSpace rest)) eqn:D; [|discriminate].
  injection Hm as <-.
  cbn [taskOfMatch status id lineNumber text due start priority group groups cap Nat.eqb].
  repeat split.
  - apply statusOfChar_name.
  - exact D.
  - rewrite trimStart_dropWhile. apply dropWhile_idem.
  - intros x Hx. destruct (exec reDueB (dropWhile isSpace rest)) as [dm|] eqn:E;
      [|discriminate]. injection Hx as <-.
    exact (exec_reFieldB_sound (lit "due:") _ _ E).
  - intros x Hx. destruct (exec reStartB (dropWhile isSpace rest)) as [dm|] eqn:E;
      [|discriminate]. injection Hx as <-.
    exact (exec_reFieldB_sound (lit "start:") _ _ E).
  - intros p Hp. destruct (exec rePrio (dropWhile isSpace rest)) as [pm|] eqn:E;
      [|discriminate].
    exact (exec_rePrio_sound _ _ _ E Hp).
Qed.

Lemma parsed_task_fields_witness :
  In (status demoTask) statusNames /\
  id demoTask = lit "ln-" ++ numToStr (lineNumber demoTask) /\
  forallb isDot (text demoTask) = true /\ trimStart (text demoTask) = text demoTask /\
  (forall x, due demoTask = Some x ->
     exists X, x = lit "due:" ++ X /\ isDate X = true /\
               includes x (text demoTask) = true) /\
  (forall x, start demoTask = Some x ->
     exists X, x = lit "start:" ++ X /\ isDate X = true /\
               includes x (text demoTask) = true) /\
  (forall p, priority demoTask = Some p -> In p [lit "a"; lit "b"; lit "c"]).
Proof.
  apply (parsed_task_fields demoModel demoTask). vm_compute; auto.
Defined.

(** ** The Tab action *)

Lemma currentIndentOf_takeWhile line : currentIndentOf line = takeWhile isSpace line.
Proof.
  unfold currentIndentOf, reIndent. rewrite exec_bol. unfold matchAt, star.
  cbn [run].
  rewrite <- (takeWhile_dropWhile isSpace line) at 1.
  erewrite repeatG_longest; [ | apply takeWhile_all | simpl; lia | exact I | | reflexivity].
  - unfold group. cbn [groups cap Nat.eqb]. rewrite app_nil_r, span_nil.
    apply rev_involutive.
  - destruct (dropWhile isSpace line) as [|c v] eqn:E; [exact I|].
    revert E. induction line as [|d r IH]; simpl; [discriminate|].
    destruct (isSpace d) eqn:S; [exact IH|]. intros H; injection H as <- _. exact S.
Qed.

Lemma skipn_takeWhile p (s : str) : skipn (length (takeWhile p s)) s = dropWhile p s.
Proof.
  induction s as [|c s IH]; simpl; [reflexivity|].
  destruct (p c); simpl; [exact IH | reflexivity].
Qed.

Lemma statusChar_isDot st : isStatusChar st = true -> isDot st = true.
Proof. intros H. unfold isStatusChar in H. point_class H; reflexivity. Qed.

(** Every line with a checkbox passes the test of the Tab and Enter
    actions. *)
Lemma test_reCheckboxAny line x :
  checkboxPrefix isBullet line = Some x -> test reCheckboxAny line = true.
Proof.
  destruct x as [[[[ind bul] ws] st] rest]. intros H.
  apply checkboxPrefix_shape in H as (-> & Hi & Hb & Hw & Hs).
  unfold test, reCheckboxAny. rewrite exec_bol. unfold matchAt, star. cbn [run].
  rewrite repeatG_star_max by reject_space.
  destruct (takeWhile_app isSpace ind bul (ws ++ 91 :: st :: 93 :: rest) Hi
              (bullet_not_space _ Hb)) as [-> ->].
  rewrite Hb. rewrite repeatG_star_max by reject_space.
  destruct (takeWhile_app isSpace ws 91 (st :: 93 :: rest) Hw eq_refl) as [-> ->].
  cbn [isLBracket isRBracket N.eqb Pos.eqb].
  now rewrite (statusChar_isDot _ Hs).
Qed.

(** Replacing a line by one that is a heading for the parse exactly when
    the first is, and yields the same task, leaves the parse as it is. *)
Lemma parseLoop_edit_same lines i lh lc j line line' :
  nth_error lines j = Some line ->
  exec reHeading line = None -> exec reHeading line' = None ->
  (forall k lh0 lc0,
      option_map (taskOfMatch k lh0 lc0) (exec reTask line')
      = option_map (taskOfMatch k lh0 lc0) (exec reTask line)) ->
  parseLoop i lh lc (setNth j line' lines) = parseLoop i lh lc lines.
Proof.
  intros Hn Hh Hh' Ht. revert i lh lc j Hn.
  induction lines as [|l lines IH]; intros i lh lc j Hn; [now destruct j|].
  destruct j as [|j]; cbn [nth_error setNth parseLoop] in *.
  - injection Hn as ->. rewrite Hh, Hh'.
    specialize (Ht i lh lc).
    destruct (exec reTask line'), (exec reTask line); cbn [option_map] in Ht;
      try discriminate; [congruence | reflexivity].
  - destruct (exec reHeading l); [now apply IH|].
    destruct (exec reTask l); [f_equal|]; now apply IH.
Qed.

(** X5: the Tab action on the line of a task puts four spaces after the
    line's indentation and changes nothing else; a fresh parse of the
    document gives the same tasks as before. *)
Theorem tab_indent_keeps_parse (model : Model) (t : Task) (line : str) :
  In t (parseTasks (Some model)) ->
  getLineContent model (lineNumber t) = Some line ->
  exists line',
    indentTask line = Some line' /\
    line' = takeWhile isSpace line ++ lit "    " ++ dropWhile isSpace line /\
    parseTasks (Some (replaceLine model (lineNumber t) line'))
    = parseTasks (Some model).
Proof.
  intros H Hl.
  apply parseTasks_In in H
    as (j & line0 & m & ind & bul & ws & st & rest & lh & lc
        & Hln & Hj & Hh & _ & _ & Hp & _).
  rewrite Hln, getLineContent_succ, Hj in Hl. injection Hl as ->.
  exists (takeWhile isSpace line ++ lit "    " ++ dropWhile isSpace line).
  split; [|split; [reflexivity|]].
  - unfold indentTask. rewrite (test_reCheckboxAny _ _ Hp).
    now rewrite currentIndentOf_takeWhile, skipn_takeWhile, <- app_assoc.
  - rewrite Hln, Nat.add_1_r. cbn [replaceLine]. unfold parseTasks.
    pose proof (checkboxPrefix_shape _ _ _ _ _ _ _ Hp) as (Hline & Hi & Hb & Hw & Hs).
    assert (Htw : takeWhile isSpace line = ind /\
                  dropWhile isSpace line = bul :: ws ++ 91 :: st :: 93 :: rest).
    { rewrite Hline. apply takeWhile_app; [assumption|]. now apply bullet_not_space. }
    destruct Htw as [-> ->].
    assert (Hp' : checkboxPrefix isBullet
                    (ind ++ lit "    " ++ bul :: ws ++ 91 :: st :: 93 :: rest)
                  = Some (ind ++ lit "    ", bul, ws, st, rest)).
    { rewrite app_assoc. apply checkboxPrefix_intro; auto using space_not_bullet.
      rewrite forallb_app, Hi. reflexivity. }
    apply (parseLoop_edit_same model 0 None defaultColor j line); try assumption.
    + eapply checkbox_not_heading; eassumption.
    + intros k lh0 lc0. rewrite !exec_reTask_exact, Hp, Hp'.
      now destruct (forallb isDot (dropWhile isSpace rest)).
Qed.

Lemma tab_indent_keeps_parse_witness :
  exists line',
    indentTask (lit "- [ ] call Bob") = Some line' /\
    line' = takeWhile isSpace (lit "- [ ] call Bob") ++ lit "    "
            ++ dropWhile isSpace (lit "- [ ] call Bob") /\
    parseTasks (Some (replaceLine demoModel 4 line')) = parseTasks (Some demoModel).
Proof.
  apply (tab_indent_keeps_parse demoModel demoPending (lit "- [ ] call Bob")).
  - vm_compute; auto.
  - reflexivity.
Defined.

(** ** The Enter action on a task line *)

Lemma trimStart_snoc s c : isSpace c = false -> trimStart (s ++ [c]) <> [].
Proof.
  intros Hc. induction s as [|d s IH]; simpl.
  - now rewrite Hc.
  - destruct (isSpace d); [exact IH | discriminate].
Qed.

Lemma trim_checkbox line x :
  checkboxPrefix isBullet line = Some x -> str_eqb (trim line) [] = false.
Proof.
  destruct x as [[[[ind bul] ws] st] rest]. intros H.
  apply checkboxPrefix_shape in H as (-> & Hi & Hb & _).
  destruct (str_eqb _ []) eqn:E; [|reflexivity]. apply str_eqb_eq in E.
  unfold trim, trimEnd in E.
  rewrite (trimStart_dropWhile (ind ++ _)) in E.
  destruct (takeWhile_app isSpace ind bul (ws ++ 91 :: st :: 93 :: rest) Hi
              (bullet_not_space _ Hb)) as [_ D].
  rewrite D in E. cbn [rev] in E.
  apply (f_equal (@rev N)) in E. rewrite rev_involutive in E. cbn [rev] in E.
  now apply trimStart_snoc in E; [|apply bullet_not_space].
Qed.

Lemma exec_reEnterHeading_hash line h :
  exec reEnterHeading line = Some h -> exists r, line = 35 :: r.
Proof.
  unfold reEnterHeading. rewrite exec_bol. unfold matchAt. cbn [run].
  destruct line as [|c r]; [discriminate|].
  cbn [repeatG canMore]. destruct (isHash c) eqn:E; [|discriminate].
  apply N.eqb_eq in E. subst c. eauto.
Qed.

Lemma checkbox_not_enterHeading line x :
  checkboxPrefix isBullet line = Some x -> exec reEnterHeading line = None.
Proof.
  destruct x as [[[[ind bul] ws] st] rest]. intros H.
  apply checkboxPrefix_shape in H as (-> & Hi & Hb & _).
  destruct (exec reEnterHeading _) eqn:E; [|reflexivity].
  apply exec_reEnterHeading_hash in E as [r E].
  destruct ind as [|c ind]; simpl in *; injection E as -> _; discriminate.
Qed.

Lemma forallb_skipn {A} (p : A -> bool) n l :
  forallb p l = true -> forallb p (skipn n l) = true.
Proof.
  revert l. induction n as [|n IH]; intros [|x l]; simpl; auto.
  intros H. apply andb_true_iff in H as [_ H]. now apply IH.
Qed.

Lemma forallb_dropWhile p q (l : str) :
  forallb p l = true -> forallb p (dropWhile q l) = true.
Proof.
  induction l as [|x l IH]; simpl; auto.
  intros H. apply andb_true_iff in H as [Hx H].
  destruct (q x); [now apply IH | simpl; now rewrite Hx, H].
Qed.

(** The parse of a line made of an indentation and the marker "- [ ] "
    before some text. *)
Lemma parse_new_task_line ind body :
  forallb isSpace ind = true -> forallb isDot body = true ->
  map (fun u => (status u, text u))
      (parseTasks (Some [ind ++ lit "- [ ] " ++ body]))
  = [(lit "backlog", trimStart body)].
Proof.
  intros Hi Hb.
  assert (Hp : checkboxPrefix isBullet (ind ++ lit "- [ ] " ++ body)
               = Some (ind, 45, [32], 32, 32 :: body)).
  { apply (checkboxPrefix_intro isBullet space_not_bullet ind 45 [32] 32 (32 :: body));
      auto. }
  unfold parseTasks. cbn [parseLoop].
  rewrite (checkbox_not_heading _ _ Hp), exec_reTask_exact, Hp.
  cbn [dropWhile isSpace existsb N.eqb Pos.eqb orb].
  rewrite (forallb_dropWhile isDot isSpace body Hb).
  cbn [map taskOfMatch status text group groups cap Nat.eqb].
  now rewrite trimStart_dropWhile.
Qed.

(** X6: Enter in the line of a task (a line without line terminators) puts
    two lines in its place: the text left of the cursor, then a new line
    with the same indentation, the marker "- [ ] " and the text right of the
    cursor; a cursor at the last character or beyond keeps the whole line
    and opens an empty task.  Nothing of the line is lost, and the parse
    reads the new line as a Pending task whose text is the moved text
    without its leading whitespace. *)
Theorem enter_continues_task (model : Model) (t : Task) (line : str) (column : nat) :
  In t (parseTasks (Some model)) ->
  getLineContent model (lineNumber t) = Some line ->
  forallb isDot line = true ->
  let atEnd := (length line <=? column)%nat in
  let before := if atEnd then line else firstn (column - 1) line in
  let after := if atEnd then [] else skipn (column - 1) line in
  let newLine := takeWhile isSpace line ++ lit "- [ ] " ++ after in
  enterKey model (lineNumber t) column = Some (Replaced [before; newLine]) /\
  before ++ after = line /\
  map (fun u => (status u, text u)) (parseTasks (Some [newLine]))
  = [(lit "backlog", trimStart after)].
Proof.
  intros H Hl Hdot atEnd before after newLine.
  apply parseTasks_In in H
    as (j & line0 & m & ind & bul & ws & st & rest & lh & lc
        & Hln & Hj & _ & _ & _ & Hp & _).
  pose proof Hl as Hl'. rewrite Hln, getLineContent_succ, Hj in Hl'.
  injection Hl' as ->.
  repeat split.
  - unfold enterKey. rewrite Hl, (trim_checkbox _ _ Hp).
    rewrite (checkbox_not_enterHeading _ _ Hp), (test_reCheckboxAny _ _ Hp).
    rewrite currentIndentOf_takeWhile.
    unfold newLine, before, after, atEnd.
    destruct (length line <=? column)%nat; [|reflexivity].
    now rewrite app_nil_r.
  - unfold before, after. destruct atEnd; [apply app_nil_r | apply firstn_skipn].
  - apply parse_new_task_line; [apply takeWhile_all|].
    unfold after. destruct atEnd; [reflexivity|]. now apply forallb_skipn.
Qed.

Lemma enter_continues_task_witness :
  enterKey demoModel 4 7
  = Some (Replaced [lit "- [ ] "; lit "- [ ] call Bob"]) /\
  lit "- [ ] " ++ lit "call Bob" = lit "- [ ] call Bob" /\
  map (fun u => (status u, text u)) (parseTasks (Some [lit "- [ ] call Bob"]))
  = [(lit "backlog", trimStart (lit "call Bob"))].
Proof.
  exact (enter_continues_task demoModel demoPending (lit "- [ ] call Bob") 7
           (or_intror (or_introl eq_refl)) eq_refl eq_refl).
Defined.

(** ** The Enter action on a heading line *)














(** ** Heading levels *)

(** A greedy quantifier before something that cannot start with the class
    takes the whole run, and fails when the run does not fit its bounds. *)
Lemma repeatG_run p lo hi k b r cs :
  rejects p k ->
  repeatG p lo hi k b r cs =
  if (lo <=? length (takeWhile p r))%nat && fits hi (length (takeWhile p r))
  then k (rev (takeWhile p r) ++ b) (dropWhile p r) cs else None.
Proof.
  intros Hk. revert lo hi b. induction r as [|c r IH]; intros lo hi b.
  - cbn [repeatG takeWhile dropWhile length rev app stopAt fits].
    destruct lo, hi; reflexivity.
  - cbn [repeatG takeWhile dropWhile]. destruct (p c) eqn:E.
    + cbn [andb length rev].
      destruct hi as [[|h]|]; cbn [canMore decr option_map pred fits].
      * rewrite andb_false_r. destruct lo; cbn [stopAt]; [now apply Hk | reflexivity].
      * rewrite IH. cbn [fits].
        replace (pred lo <=? length (takeWhile p r))%nat
          with (lo <=? S (length (takeWhile p r)))%nat
          by (destruct lo; reflexivity).
        change (S (length (takeWhile p r)) <=? S h)%nat
          with (length (takeWhile p r) <=? h)%nat.
        rewrite <- app_assoc. cbn [app].
        destruct (_ && _); [|destruct lo; cbn [stopAt]; [now apply Hk | reflexivity]].
        destruct (k _ _ _) eqn:K; [reflexivity|].
        destruct lo; cbn [stopAt]; [now apply Hk | reflexivity].
      * rewrite IH. cbn [fits].
        replace (pred lo <=? length (takeWhile p r))%nat
          with (lo <=? S (length (takeWhile p r)))%nat
          by (destruct lo; reflexivity).
        rewrite <- app_assoc. cbn [app].
        destruct (_ && _); [|destruct lo; cbn [stopAt]; [now apply Hk | reflexivity]].
        destruct (k _ _ _) eqn:K; [reflexivity|].
        destruct lo; cbn [stopAt]; [now apply Hk | reflexivity].
    + cbn [andb length rev app]. destruct lo, hi; reflexivity.
Qed.

Lemma exec_reHeadingLevel line :
  exec reHeadingLevel line =
  if (1 <=? hashRun line)%nat && (hashRun line <=? 3)%nat then
    match dropWhile isHash line with
    | c :: r => if isSpace c
                then Some (mkMatch [] (takeWhile isHash line ++ [c]) r
                             [(1%nat, takeWhile isHash line)])
                else None
    | [] => None
    end
  else None.
Proof.
  unfold reHeadingLevel. rewrite exec_bol. unfold matchAt, hashRun. cbn [run].
  rewrite repeatG_run.
  2:{ intros c ? ? ? Hc. cbn. destruct (isSpace c) eqn:S; [|reflexivity].
      apply space_not_hash in S. congruence. }
  cbn [fits]. destruct (_ && _); [|reflexivity].
  destruct (dropWhile isHash line) as [|c r]; [reflexivity|].
  destruct (isSpace c); [|reflexivity]. unfold accept.
  rewrite !app_nil_r, !span_nil. cbn [rev]. now rewrite !rev_involutive.
Qed.

(** The level of a line: the number of its leading hashes, when there are
    one to three of them and whitespace follows. *)
Lemma headingLevelOf_spec line l :
  headingLevelOf line = Some l <->
  l = hashRun line /\ (1 <= l <= 3)%nat /\
  exists c r, dropWhile isHash line = c :: r /\ isSpace c = true.
Proof.
  unfold headingLevelOf. rewrite exec_reHeadingLevel.
  destruct (Nat.leb_spec 1 (hashRun line)) as [L1|L1]; cbn [andb].
  - destruct (Nat.leb_spec (hashRun line) 3) as [L3|L3].
    + destruct (dropWhile isHash line) as [|c r].
      * split; [discriminate | now intros (_ & _ & ? & ? & ? & _)].
      * destruct (isSpace c) eqn:S.
        -- unfold group. cbn [groups cap Nat.eqb]. fold (hashRun line). split.
           ++ intros E; injection E as <-. repeat split; eauto.
           ++ now intros (-> & _).
        -- split; [discriminate|].
           intros (_ & _ & c' & r' & E & S'). injection E as <- <-. congruence.
    + split; [discriminate | intros (-> & ? & _); lia].
  - split; [discriminate | intros (-> & ? & _); lia].
Qed.

Lemma repeatL_sound p lo hi k b r cs x :
  repeatL p lo hi k b r cs = Some x ->
  exists u v, r = u ++ v /\ k (rev u ++ b) v cs = Some x.
Proof.
  revert lo hi b. induction r as [|c r IH]; intros lo hi b; cbn [repeatL].
  - destruct (stopAt lo k b [] cs) eqn:S; [|discriminate].
    intros H; injection H as ->. destruct lo; [|discriminate]. now exists [], [].
  - destruct (stopAt lo k b (c :: r) cs) eqn:S.
    + intros H; injection H as ->. destruct lo; [|discriminate]. now exists [], (c :: r).
    + destruct (p c && canMore hi); [|discriminate].
      intros H. apply IH in H as (u & v & -> & H).
      exists (c :: u), v. simpl. now rewrite <- app_assoc.
Qed.

(** The captures at the end of a match are those at its start with
    captures of the regex's own groups put in front. *)
Lemma run_extends re :
  forall k b r cs x,
    run re k b r cs = Some x ->
    exists b' r' new,
      k b' r' (new ++ cs) = Some x /\
      Forall (fun e => In (fst e) (groupsOf re)) new.
Proof.
  induction re as [ |p|r1 IH1 r2 IH2|i r1 IH1|r1 IH1|g lo hi p| | | ];
    intros k b r cs x H; cbn [run groupsOf] in *.
  - exists b, r, []. now split.
  - destruct r as [|c r]; [discriminate|]. destruct (p c); [|discriminate].
    exists (c :: b), r, []. now split.
  - apply IH1 in H as (b1 & r1' & n1 & H & F1).
    apply IH2 in H as (b2 & r2' & n2 & H & F2).
    exists b2, r2', (n2 ++ n1). rewrite <- app_assoc. split; [exact H|].
    apply Forall_app. split; eapply Forall_impl; try eassumption;
      intros e He; apply in_or_app; auto.
  - apply IH1 in H as (b1 & r1' & n1 & H & F1).
    exists b1, r1', ((i, span b b1) :: n1). split; [exact H|].
    constructor; [now left|].
    eapply Forall_impl; [|exact F1]. intros e He. now right.
  - destruct (run r1 k b r cs) as [y|] eqn:R.
    + injection H as ->. now apply IH1 in R.
    + exists b, r, []. now split.
  - destruct g.
    + apply repeatG_sound in H as (u & v & _ & _ & _ & H).
      exists (rev u ++ b), v, []. now split.
    + apply repeatL_sound in H as (u & v & _ & H).
      exists (rev u ++ b), v, []. now split.
  - destruct b; [|discriminate]. exists [], r, []. now split.
  - destruct r; [|discriminate]. exists b, [], []. now split.
  - destruct (xorb _ _); [|discriminate]. exists b, r, []. now split.
Qed.

Lemma cap_app_other i (new cs : caps) :
  Forall (fun e => fst e <> i) new -> cap i (new ++ cs) = cap i cs.
Proof.
  induction new as [|[j s] new IH]; intros F; [reflexivity|].
  inversion F as [|? ? Hj F']; subst. cbn [app cap]. cbn [fst] in Hj.
  destruct (Nat.eqb_spec i j); [congruence | now apply IH].
Qed.

(** The first group of [reHeading] is the run of leading hashes: one to
    three of them, followed by whitespace. *)
Lemma exec_reHeading_level line h :
  exec reHeading line = Some h ->
  group 1 h = takeWhile isHash line /\ headingLevelOf line = Some (hashRun line).
Proof.
  change reHeading with
    (Bol ;; Group 1 (Repeat true 1 (Some 3%nat) isHash) ;; headingRest)%regex.
  rewrite exec_bol. unfold matchAt. cbn [run].
  rewrite repeatG_run.
  2:{ intros c ? ? ? Hc. unfold headingRest, plus. cbn [run repeatG].
      destruct (isSpace c) eqn:S; [|reflexivity].
      apply space_not_hash in S. congruence. }
  cbn [fits]. fold (hashRun line).
  destruct ((1 <=? hashRun line)%nat && (hashRun line <=? 3)%nat) eqn:B; [|discriminate].
  destruct (run headingRest _ _ _ _) as [[[b' r'] cs]|] eqn:R; [|discriminate].
  intros H; injection H as <-. split.
  - apply run_extends in R as (b1 & r1 & new & R & F).
    injection R as _ _ <-. unfold group. cbn [groups].
    rewrite cap_app_other.
    + cbn [cap Nat.eqb]. rewrite app_nil_r, span_nil. apply rev_involutive.
    + eapply Forall_impl; [|exact F]. cbn. intros e [<-|[<-|[]]]; discriminate.
  - apply headingLevelOf_spec. apply andb_true_iff in B as [B1 B2].
    apply Nat.leb_le in B1, B2. repeat split; try assumption.
    unfold headingRest, plus in R. cbn [run] in R.
    apply repeatG_sound in R as (u & v & Hd & Hu & Hlen & _).
    destruct u as [|c u]; [simpl in Hlen; lia|].
    simpl in Hd, Hu. apply andb_true_iff in Hu as [Hc _].
    exists c, (u ++ v). now split.
Qed.

(** ** The headings of the new-task dialog *)

Lemma collectLoop_In i lines e :
  In e (collectLoop i lines) ->
  exists j line h,
    nth_error lines j = Some line /\ exec reHeading line = Some h /\
    e = mkHeadingEntry (i + j + 1) (length (group 1 h)) (group 2 h).
Proof.
  revert i. induction lines as [|l lines IH]; intros i; simpl; [easy|].
  assert (Hrest : In e (collectLoop (S i) lines) ->
            exists j line h,
              nth_error (l :: lines) j = Some line /\ exec reHeading line = Some h /\
              e = mkHeadingEntry (i + j + 1) (length (group 1 h)) (group 2 h)).
  { intros H. apply IH in H as (j & line & h & Hn & Hh & ->).
    exists (S j), line, h. repeat split; try assumption.
    f_equal. lia. }
  destruct (exec reHeading l) as [h|] eqn:Hh; [|exact Hrest].
  intros [<-|H]; [|now apply Hrest].
  exists 0%nat, l, h. repeat split; try assumption. f_equal. lia.
Qed.

Lemma collectLoop_sorted i lines :
  StronglySorted lt (map hLine (collectLoop i lines)).
Proof.
  revert i. induction lines as [|l lines IH]; intros i; simpl; [constructor|].
  destruct (exec reHeading l); [|apply IH].
  simpl. constructor; [apply IH|].
  rewrite Forall_map. apply Forall_forall. intros e He.
  apply collectLoop_In in He as (j & _ & h & _ & _ & ->). simpl. lia.
Qed.

(** X8: the headings offered by the new-task dialog come in document order
    with strictly increasing line numbers; each names a line of the
    document whose level is the number of its leading hashes, between one
    and three, and no task of the parse sits on such a line. *)
Theorem collected_headings (model : Model) :
  StronglySorted lt (map hLine (collectHeadings model)) /\
  forall e, In e (collectHeadings model) ->
    (1 <= hLevel e <= 3)%nat /\ (1 <= hLine e <= length model)%nat /\
    (exists line, getLineContent model (hLine e) = Some line /\
                  hLevel e = hashRun line /\
                  headingLevelOf line = Some (hLevel e)) /\
    forall t, In t (parseTasks (Some model)) -> lineNumber t <> hLine e.
Proof.
  split; [apply collectLoop_sorted|]. intros e He.
  apply collectLoop_In in He as (j & line & h & Hn & Hh & ->).
  cbn [hLevel hLine]. cbn [Nat.add].
  destruct (exec_reHeading_level _ _ Hh) as (Hg & Hl).
  pose proof (proj1 (headingLevelOf_spec _ _) Hl) as (_ & Hb & _).
  assert (Hlen : (j < length model)%nat) by (apply nth_error_Some; congruence).
  rewrite Hg. fold (hashRun line). repeat split; try lia.
  - exists line. rewrite getLineContent_succ. now repeat split.
  - intros t Ht E.
    apply parseTasks_In in Ht
      as (j' & line' & m & ind & bul & ws & st & rest & lh & lc
          & Hln & Hj & Hh' & _).
    assert (j' = j) as -> by lia. congruence.
Qed.

Lemma collected_headings_witness :
  In (mkHeadingEntry 3 2 (lit "B"))
     (collectHeadings [lit "# A"; lit "- [ ] x"; lit "## B"]) /\
  ((1 <= 2 <= 3)%nat /\ (1 <= 3 <= 3)%nat /\
   (exists line,
       getLineContent [lit "# A"; lit "- [ ] x"; lit "## B"] 3 = Some line /\
       2%nat = hashRun line /\ headingLevelOf line = Some 2%nat) /\
   forall t, In t (parseTasks (Some [lit "# A"; lit "- [ ] x"; lit "## B"])) ->
             lineNumber t <> 3%nat).
Proof.
  assert (H : In (mkHeadingEntry 3 2 (lit "B"))
                 (collectHeadings [lit "# A"; lit "- [ ] x"; lit "## B"]))
    by (vm_compute; right; left; reflexivity).
  split; [exact H|].
  exact (proj2 (collected_headings [lit "# A"; lit "- [ ] x"; lit "## B"])
               (mkHeadingEntry 3 2 (lit "B")) H).
Defined.

Lemma findInsertAt_spec level ln lines :
  (ln <= findInsertAt level ln lines <= ln + length lines)%nat /\
  (forall k line l,
      (k < findInsertAt level ln lines - ln)%nat -> nth_error lines k = Some line ->
      headingLevelOf line = Some l -> (level < l)%nat) /\
  ((findInsertAt level ln lines < ln + length lines)%nat ->
   exists line l,
     nth_error lines (findInsertAt level ln lines - ln) = Some line /\
     headingLevelOf line = Some l /\ (l <= level)%nat).
Proof.
  revert ln. induction lines as [|t lines IH]; intros ln; cbn [findInsertAt length].
  - repeat split; intros; lia.
  - specialize (IH (S ln)). destruct IH as (Hb & Hin & Hend).
    assert (Hgo : (forall l, headingLevelOf t = Some l -> (level < l)%nat) ->
              (ln <= findInsertAt level (S ln) lines <= ln + S (length lines))%nat /\
              (forall k line l,
                  (k < findInsertAt level (S ln) lines - ln)%nat ->
                  nth_error (t :: lines) k = Some line ->
                  headingLevelOf line = Some l -> (level < l)%nat) /\
              ((findInsertAt level (S ln) lines < ln + S (length lines))%nat ->
               exists line l,
                 nth_error (t :: lines) (findInsertAt level (S ln) lines - ln) = Some line /\
                 headingLevelOf line = Some l /\ (l <= level)%nat)).
    { intros Ht. split; [lia|]. split.
      - intros [|k] line l Hk Hn Hl; cbn [nth_error] in Hn.
        + injection Hn as <-. now apply Ht.
        + apply (Hin k line l); [lia | assumption | assumption].
      - intros Hlt. destruct Hend as (line & l & Hn & Hl & Hle); [lia|].
        exists line, l. repeat split; try assumption.
        replace (findInsertAt level (S ln) lines - ln)%nat
          with (S (findInsertAt level (S ln) lines - S ln)) by lia.
        exact Hn. }
    destruct (headingLevelOf t) as [l|] eqn:Hl.
    + destruct (Nat.leb_spec l level) as [Hle|Hgt].
      * split; [lia|]. split.
        -- intros k line l' Hk. lia.
        -- intros _. exists t, l. rewrite Nat.sub_diag. now repeat split.
      * apply Hgo. intros l' E. injection E as <-. exact Hgt.
    + apply Hgo. discriminate.
Qed.

Lemma nth_error_skipn {A} (l : list A) n k :
  nth_error (skipn n l) k = nth_error l (n + k).
Proof.
  revert l. induction n as [|n IH]; intros [|x l]; simpl; auto.
  now destruct k.
Qed.

(** X9: for a heading offered by the dialog [insertTaskUnderHeading] never
    fails; the line it inserts in front of lies below the heading and at
    most one past the end of the document; every line between the heading
    and that point that counts as a heading is of deeper level, and the
    line at that point, when there is one, is a heading of the same or a
    higher level. *)
Theorem insert_point_in_section (model : Model) (e : HeadingEntry)
    (text metaStart metaDue : str) :
  In e (collectHeadings model) ->
  exists insertAt,
    insertTaskUnderHeading model (hLine e) text metaStart metaDue
    = Some (insertAt, newTaskLineText text metaStart metaDue) /\
    (hLine e < insertAt <= length model + 1)%nat /\
    (forall k line l,
        (hLine e < k < insertAt)%nat -> getLineContent model k = Some line ->
        headingLevelOf line = Some l -> (hLevel e < l)%nat) /\
    ((insertAt <= length model)%nat ->
     exists line l,
       getLineContent model insertAt = Some line /\
       headingLevelOf line = Some l /\ (l <= hLevel e)%nat).
Proof.
  intros He.
  apply collectLoop_In in He as (j & line & h & Hn & Hh & ->).
  cbn [hLevel hLine Nat.add].
  destruct (exec_reHeading_level _ _ Hh) as (Hg & Hl).
  assert (Hlen : (j < length model)%nat) by (apply nth_error_Some; congruence).
  rewrite Hg. fold (hashRun line).
  unfold insertTaskUnderHeading. rewrite getLineContent_succ, Hn, Hl.
  replace (j + 1)%nat with (S j) by lia.
  destruct (findInsertAt_spec (hashRun line) (S j + 1) (skipn (S j) model))
    as (Hb & Hin & Hend).
  rewrite length_skipn in Hb, Hend.
  eexists. split; [reflexivity|]. repeat split; try lia.
  - intros k line' l Hk Hln Hl'.
    destruct k as [|k]; [lia|]. cbn [getLineContent] in Hln.
    apply (Hin (k - S j)%nat line' l); [lia | | assumption].
    rewrite nth_error_skipn. now replace (S j + (k - S j))%nat with k by lia.
  - intros Hle. destruct Hend as (line' & l & Hn' & Hl' & Hle'); [lia|].
    exists line', l. repeat split; try assumption.
    rewrite nth_error_skipn in Hn'.
    destruct (findInsertAt _ _ _) as [|r]; [lia|]. cbn [getLineContent].
    now replace (S j + (S r - (S j + 1)))%nat with r in Hn' by lia.
Qed.

Lemma insert_point_in_section_witness :
  exists insertAt,
    insertTaskUnderHeading
      [lit "# A"; lit "## B"; lit "- [ ] x"; lit "### C"; lit "text"; lit "# D"]
      2 (lit "buy milk") (lit "2024-01-01") []
    = Some (insertAt, newTaskLineText (lit "buy milk") (lit "2024-01-01") []) /\
    (2 < insertAt <= 6 + 1)%nat /\
    (forall k line l,
        (2 < k < insertAt)%nat ->
        getLineContent
          [lit "# A"; lit "## B"; lit "- [ ] x"; lit "### C"; lit "text"; lit "# D"] k
        = Some line ->
        headingLevelOf line = Some l -> (2 < l)%nat) /\
    ((insertAt <= 6)%nat ->
     exists line l,
       getLineContent
         [lit "# A"; lit "## B"; lit "- [ ] x"; lit "### C"; lit "text"; lit "# D"]
         insertAt = Some line /\
       headingLevelOf line = Some l /\ (l <= 2)%nat).
Proof.
  apply (insert_point_in_section
           [lit "# A"; lit "## B"; lit "- [ ] x"; lit "### C"; lit "text"; lit "# D"]
           (mkHeadingEntry 2 2 (lit "B")) (lit "buy milk") (lit "2024-01-01") []).
  vm_compute. right; left; reflexivity.
Defined.

(** ** The line written by the new-task dialog *)

Lemma matchAt_reFieldB_no name b v :
  startsWith name v = false -> matchAt (reFieldB name) b v = None.
Proof.
  intros H. unfold matchAt, reFieldB. cbn [run].
  destruct (xorb _ _); [|reflexivity]. now rewrite run_Lit, H.
Qed.

Lemma isDate_last_word X b : isDate X = true -> headIsWord (rev X ++ b) = true.
Proof.
  intros H. do 10 (destruct X as [|? X]; [discriminate|]).
  destruct X; [|discriminate]. cbn [isDate] in H.
  apply andb_true_iff in H as [_ H]. cbn [rev app headIsWord]. list_norm.
  cbn [app headIsWord]. unfold isWord. now rewrite H, !orb_true_r.
Qed.

Lemma matchAt_reFieldB_complete name b X post :
  headIsWord b = false -> headIsWord name = true -> isDate X = true ->
  headIsWord post = false ->
  matchAt (reFieldB name) b (name ++ X ++ post)
  = Some (mkMatch (rev b) (name ++ X) post []).
Proof.
  intros Hb Hn HX Hp. unfold matchAt, reFieldB. cbn [run].
  replace (headIsWord (name ++ X ++ post)) with true
    by (destruct name; [discriminate | symmetry; exact Hn]).
  rewrite Hb. cbn [xorb]. rewrite run_Lit.
  rewrite startsWith_app, skipn_app, Nat.sub_diag, skipn_all. cbn [skipn app].
  rewrite run_reDate_complete by assumption.
  rewrite isDate_last_word, Hp by assumption. cbn [xorb]. unfold accept.
  f_equal. f_equal. rewrite app_assoc, span_app. now list_norm.
Qed.

Lemma search_skip re b u v :
  (forall u1 c u2, u = u1 ++ c :: u2 -> matchAt re (rev u1 ++ b) (c :: u2 ++ v) = None) ->
  search re b (u ++ v) = search re (rev u ++ b) v.
Proof.
  revert b. induction u as [|c u IH]; intros b H; [reflexivity|].
  cbn [app search]. pose proof (H [] c u eq_refl) as H0.
  cbn [rev app] in H0. rewrite H0.
  rewrite IH; [cbn [rev]; now rewrite <- app_assoc|].
  intros u1 c' u2 ->. specialize (H (c :: u1) c' u2 eq_refl).
  cbn [rev] in H. now rewrite <- app_assoc in H.
Qed.

Lemma startsWith_before_space p u w :
  ~ In 32 p -> startsWith p (u ++ 32 :: w) = true -> startsWith p u = true.
Proof.
  revert u. induction p as [|c p IH]; intros u Hp; [now destruct u|].
  destruct u as [|d u]; cbn [app startsWith]; intros H;
    apply andb_true_iff in H as [E H].
  - apply N.eqb_eq in E. elim Hp. now left.
  - rewrite E. apply IH; [|exact H]. intros Hin. apply Hp. now right.
Qed.

Lemma includes_suffix p u1 u2 : includes p (u1 ++ u2) = false -> includes p u2 = false.
Proof.
  induction u1 as [|c u1 IH]; [easy|]. cbn [app]. intros H.
  destruct (includes_false_cons _ _ _ H) as [_ H']. now apply IH.
Qed.

Lemma includes_app_space p u w :
  p <> [] -> ~ In 32 p ->
  includes p u = false -> includes p w = false -> includes p (u ++ 32 :: w) = false.
Proof.
  intros Hne Hp Hu Hw. induction u as [|c u IH].
  - cbn [app includes]. rewrite Hw, orb_false_r.
    destruct p as [|c p]; [now elim Hne|]. cbn [startsWith].
    destruct (c =? 32) eqn:E; [|reflexivity].
    apply N.eqb_eq in E. elim Hp. now left.
  - destruct (includes_false_cons _ _ _ Hu) as [Hs Hu'].
    cbn [app includes]. rewrite (IH Hu'), orb_false_r.
    destruct (startsWith p (c :: u ++ 32 :: w)) eqn:E; [|reflexivity].
    apply (startsWith_before_space p (c :: u) w Hp) in E. congruence.
Qed.

(** A dated field appended after a space to a text that does not hold the
    field's name is the first match of the field's regex. *)
Lemma exec_reFieldB_appended name u X post :
  headIsWord name = true -> ~ In 32 name -> includes name u = false ->
  isDate X = true -> headIsWord post = false ->
  exec (reFieldB name) (u ++ 32 :: name ++ X ++ post)
  = Some (mkMatch (u ++ [32]) (name ++ X) post []).
Proof.
  intros Hn Hsp Hu HX Hp. unfold exec.
  replace (u ++ 32 :: name ++ X ++ post) with ((u ++ [32]) ++ name ++ X ++ post)
    by now rewrite <- app_assoc.
  rewrite search_skip.
  - rewrite app_nil_r.
    assert (E : matchAt (reFieldB name) (rev (u ++ [32])) (name ++ X ++ post)
                = Some (mkMatch (rev (rev (u ++ [32]))) (name ++ X) post [])).
    { apply matchAt_reFieldB_complete; try assumption.
      now rewrite rev_app_distr. }
    rewrite rev_involutive in E.
    destruct (name ++ X ++ post); cbn [search]; now rewrite E.
  - intros u1 c u2 E. apply matchAt_reFieldB_no.
    destruct (startsWith name (c :: u2 ++ name ++ X ++ post)) eqn:S; [|reflexivity].
    exfalso.
    assert (Hhd : forall w, startsWith name (32 :: w) = false).
    { intros w. destruct name as [|n0 name]; [discriminate|]. cbn [startsWith].
      destruct (n0 =? 32) eqn:E0; [|reflexivity].
      apply N.eqb_eq in E0. elim Hsp. now left. }
    induction u2 as [|y u2 _] using rev_ind.
    + apply (app_inj_tail u u1 32 c) in E as [_ <-].
      cbn [app] in S. now rewrite Hhd in S.
    + rewrite app_comm_cons, app_assoc in E.
      apply app_inj_tail in E as [-> <-].
      replace (c :: (u2 ++ [32]) ++ name ++ X ++ post)
        with ((c :: u2) ++ 32 :: name ++ X ++ post) in S
        by (cbn [app]; now rewrite <- app_assoc).
      apply (startsWith_before_space name (c :: u2) _ Hsp) in S.
      apply includes_suffix in Hu. cbn [includes] in Hu.
      now rewrite S in Hu.
Qed.

Lemma exec_reFieldB_includes name line m :
  exec (reFieldB name) line = Some m -> includes name line = true.
Proof.
  intros H. apply search_first in H as (u & v & -> & H & _).
  apply includes_app. destruct (startsWith name v) eqn:S; [reflexivity|].
  now rewrite (matchAt_reFieldB_no name _ v S) in H.
Qed.

Lemma exec_reFieldB_none name line :
  includes name line = false -> exec (reFieldB name) line = None.
Proof.
  intros H. destruct (exec (reFieldB name) line) as [m|] eqn:E; [|reflexivity].
  apply exec_reFieldB_includes in E. congruence.
Qed.

Lemma includes_no_head c p w :
  (forall x, In x w -> x <> c) -> includes (c :: p) w = false.
Proof.
  induction w as [|x w IH]; intros H; [reflexivity|].
  cbn [includes startsWith]. rewrite IH by (intros y Hy; apply H; now right).
  destruct (c =? x) eqn:E; [|reflexivity].
  apply N.eqb_eq in E. subst x. now elim (H c (or_introl eq_refl)).
Qed.

Lemma isDate_dateText X : isDate X = true -> isDateText X = true.
Proof.
  intros H. do 10 (destruct X as [|? X]; [discriminate|]).
  destruct X; [|discriminate]. cbn [isDate] in H.
  do 9 (apply andb_true_iff in H as [H ?]).
  cbn [isDateText forallb].
  repeat match goal with E : _ = true |- _ => rewrite E; clear E end.
  now rewrite ?orb_true_r.
Qed.

Lemma dateText_isDot d : isDateText d = true -> forallb isDot d = true.
Proof.
  unfold isDateText. rewrite !forallb_forall. intros H c Hc.
  specialize (H c Hc). apply orb_true_iff in H as [H|H].
  - unfold isDigit in H. apply andb_true_iff in H as [H1 H2].
    apply N.leb_le in H1. apply N.leb_le in H2.
    unfold isDot, isLineTerminator. cbn [existsb].
    repeat match goal with
           | |- context [c =? ?k] =>
               replace (c =? k) with false by (symmetry; apply N.eqb_neq; lia)
           end.
    reflexivity.
  - apply N.eqb_eq in H. now subst c.
Qed.

Lemma dateText_not c d x :
  isDigit c = false -> isDash c = false -> isDateText d = true -> In x d -> x <> c.
Proof.
  unfold isDateText. rewrite forallb_forall. intros Hc1 Hc2 H Hx ->.
  specialize (H _ Hx). now rewrite Hc1, Hc2 in H.
Qed.

Lemma optField_some (sep d : str) :
  d <> [] -> match d with [] => [] | _ :: _ => sep ++ d end = sep ++ d.
Proof. destruct d; [now intros [] | reflexivity]. Qed.

Lemma newTaskLineText_body text s d :
  newTaskLineText text s d = lit "- [ ] " ++ dialogBody text s d.
Proof.
  unfold newTaskLineText, dialogBody.
  destruct s as [|c s]; destruct d as [|c' d]; cbn [app join];
    rewrite ?app_nil_r, <- ?app_assoc; reflexivity.
Qed.

Lemma trimStart_fixed_app u v : u <> [] -> trimStart u = u -> trimStart (u ++ v) = u ++ v.
Proof.
  destruct u as [|c u]; [now intros [] |]. intros _. cbn [trimStart app].
  destruct (isSpace c) eqn:S; [|reflexivity].
  intros H. exfalso.
  assert (L : (length (trimStart u) <= length u)%nat).
  { clear. induction u as [|x u IH]; simpl; [lia|]. destruct (isSpace x); simpl; lia. }
  rewrite H in L. simpl in L. lia.
Qed.

(** The line written by the dialog is a task line; its record holds the
    typed text followed by the chosen dates, which are read back as the
    start and due fields. *)
Lemma dialog_line_task txt s d :
  txt <> [] -> trimStart txt = txt -> forallb isDot txt = true ->
  includes (lit "start:") txt = false -> includes (lit "due:") txt = false ->
  (s = [] \/ isDate s = true) -> (d = [] \/ isDate d = true) ->
  exec reHeading (newTaskLineText txt s d) = None /\
  exists m,
    exec reTask (newTaskLineText txt s d) = Some m /\
    forall i lh lc,
      status (taskOfMatch i lh lc m) = lit "backlog" /\
      text (taskOfMatch i lh lc m) = dialogBody txt s d /\
      start (taskOfMatch i lh lc m) = fieldOf (lit "start:") s /\
      due (taskOfMatch i lh lc m) = fieldOf (lit "due:") d.
Proof.
  intros Hne Htrim Hdot Hst Hdu Hs Hd.
  rewrite newTaskLineText_body.
  set (body := dialogBody txt s d).
  assert (HoptD : headIsWord (match d with [] => [] | _ :: _ => lit " due:" ++ d end)
                  = false) by now destruct d.
  assert (HdotS : forallb isDot s = true).
  { destruct Hs as [->|Hs]; [reflexivity|]. now apply dateText_isDot, isDate_dateText. }
  assert (HdotD : forallb isDot d = true).
  { destruct Hd as [->|Hd]; [reflexivity|]. now apply dateText_isDot, isDate_dateText. }
  assert (Hbody : forallb isDot body = true).
  { assert (Hopt : forall sep x : str,
              forallb isDot sep = true -> forallb isDot x = true ->
              forallb isDot (match x with [] => [] | _ :: _ => sep ++ x end) = true).
    { intros sep x H1 H2. destruct x; [reflexivity|].
      now rewrite forallb_app, H1, H2. }
    unfold body, dialogBody. rewrite !forallb_app, Hdot.
    rewrite !Hopt by (assumption || reflexivity). reflexivity. }
  assert (Hfix : dropWhile isSpace body = body).
  { rewrite <- trimStart_dropWhile. now apply trimStart_fixed_app. }
  assert (Hp : checkboxPrefix isBullet (lit "- [ ] " ++ body)
               = Some ([], 45, [32], 32, 32 :: body)).
  { apply (checkboxPrefix_intro isBullet space_not_bullet [] 45 [32] 32 (32 :: body));
      auto. }
  split; [exact (checkbox_not_heading _ _ Hp)|].
  rewrite exec_reTask_exact, Hp.
  cbn [dropWhile isSpace existsb N.eqb Pos.eqb orb]. rewrite Hfix, Hbody.
  eexists. split; [reflexivity|]. intros i lh lc.
  cbn [taskOfMatch status text start due group groups cap Nat.eqb].
  split; [reflexivity|]. split; [reflexivity|].
  assert (Hstart_sp : ~ In 32 (lit "start:"))
    by (intros H; cbn in H; repeat destruct H as [H|H]; try discriminate H; exact H).
  assert (Hdue_sp : ~ In 32 (lit "due:"))
    by (intros H; cbn in H; repeat destruct H as [H|H]; try discriminate H; exact H).
  split.
  - (* the start field *)
    change reStartB with (reFieldB (lit "start:")). unfold body, dialogBody.
    destruct Hs as [->|Hs].
    + cbn [fieldOf app]. rewrite exec_reFieldB_none; [reflexivity|].
      destruct Hd as [->|Hd]; [now rewrite app_nil_r|].
      rewrite optField_some by (intros ->; discriminate Hd).
      change (lit " due:" ++ d) with (32 :: lit "due:" ++ d).
      apply includes_app_space; try assumption; [discriminate|].
      change (lit "start:") with (115 :: lit "tart:").
      apply includes_no_head. intros x Hx. apply in_app_or in Hx as [Hx|Hx].
      * cbn in Hx. repeat destruct Hx as [<-|Hx]; try discriminate. destruct Hx.
      * now apply (dateText_not 115 d x eq_refl eq_refl (isDate_dateText _ Hd)).
    + assert (Hs0 : s <> []) by (intros ->; discriminate Hs).
      rewrite (optField_some (lit " start:") s Hs0).
      replace (fieldOf (lit "start:") s) with (Some (lit "start:" ++ s))
        by (destruct s; [now elim Hs0 | reflexivity]).
      change (lit " start:" ++ s) with (32 :: lit "start:" ++ s).
      cbn [app]. rewrite <- app_assoc.
      now rewrite exec_reFieldB_appended.
  - (* the due field *)
    change reDueB with (reFieldB (lit "due:")). unfold body, dialogBody.
    assert (Hu : includes (lit "due:")
                   (txt ++ match s with [] => [] | _ :: _ => lit " start:" ++ s end)
                 = false).
    { destruct Hs as [->|Hs]; [now rewrite app_nil_r|].
      rewrite optField_some by (intros ->; discriminate Hs).
      change (lit " start:" ++ s) with (32 :: lit "start:" ++ s).
      apply includes_app_space; try assumption; [discriminate|].
      change (lit "due:") with (100 :: lit "ue:").
      apply includes_no_head. intros x Hx. apply in_app_or in Hx as [Hx|Hx].
      * cbn in Hx. repeat destruct Hx as [<-|Hx]; try discriminate. destruct Hx.
      * now apply (dateText_not 100 s x eq_refl eq_refl (isDate_dateText _ Hs)). }
    rewrite app_assoc.
    destruct Hd as [->|Hd].
    + cbn [fieldOf]. rewrite app_nil_r. now rewrite exec_reFieldB_none.
    + assert (Hd0 : d <> []) by (intros ->; discriminate Hd).
      rewrite (optField_some (lit " due:") d Hd0).
      replace (fieldOf (lit "due:") d) with (Some (lit "due:" ++ d))
        by (destruct d; [now elim Hd0 | reflexivity]).
      change (lit " due:" ++ d) with (32 :: lit "due:" ++ d).
      rewrite <- (app_nil_r d) at 1.
      now rewrite exec_reFieldB_appended.
Qed.

Lemma trimStart_head s c r : trimStart s = c :: r -> isSpace c = false.
Proof.
  induction s as [|d s IH]; simpl; [discriminate|].
  destruct (isSpace d) eqn:S; [exact IH|]. intros H. injection H as <- _. exact S.
Qed.

Lemma trimStart_app_snoc a c :
  isSpace c = false -> trimStart (a ++ [c]) = trimStart a ++ [c].
Proof.
  intros Hc. induction a as [|d a IH]; simpl.
  - now rewrite Hc.
  - destruct (isSpace d); [exact IH | reflexivity].
Qed.

Lemma trimEnd_cons c u : isSpace c = false -> trimEnd (c :: u) = c :: trimEnd u.
Proof.
  intros Hc. unfold trimEnd. cbn [rev].
  rewrite trimStart_app_snoc by assumption. now rewrite rev_app_distr.
Qed.

Lemma trim_fixed raw : trimStart (trim raw) = trim raw.
Proof.
  unfold trim. destruct (trimStart raw) as [|c x] eqn:E; [reflexivity|].
  apply trimStart_head in E. rewrite trimEnd_cons by assumption.
  cbn [trimStart]. now rewrite E.
Qed.

Lemma forallb_trim p raw : forallb p raw = true -> forallb p (trim raw) = true.
Proof.
  intros H. unfold trim, trimEnd. rewrite !forallb_forall in *.
  intros x Hx. apply H. apply in_rev in Hx.
  assert (Hsub : forall s y, In y (trimStart s) -> In y s).
  { clear. induction s as [|d s IH]; simpl; [easy|].
    destruct (isSpace d); [intros y Hy; right; now apply IH | easy]. }
  apply Hsub in Hx. apply in_rev in Hx. now apply Hsub.
Qed.

(** ** A new task line in the document *)

Lemma parseLoop_shift i lh lc lines :
  parseLoop (S i) lh lc lines = map shiftTask (parseLoop i lh lc lines).
Proof.
  revert i lh lc. induction lines as [|l lines IH]; intros i lh lc; [reflexivity|].
  cbn [parseLoop]. destruct (exec reHeading l); [apply IH|].
  destruct (exec reTask l); [|apply IH].
  cbn [map]. f_equal; [|apply IH].
  unfold taskOfMatch, shiftTask. cbn [lineNumber status text heading color tags due
                                       start priority].
  now replace (S i + 1)%nat with (i + 1 + 1)%nat by lia.
Qed.

Lemma nearest_snoc pre l :
  nearestHeading (rev (pre ++ [l]))
  = match exec reHeading l with
    | Some h => Some (trim (group 2 h))
    | None => nearestHeading (rev pre)
    end /\
  nearestColor (rev (pre ++ [l]))
  = match exec reHeading l with
    | Some h => headingColor h (nearestColor (rev pre))
    | None => nearestColor (rev pre)
    end.
Proof.
  rewrite rev_app_distr. cbn [rev app nearestHeading nearestColor].
  destruct (exec reHeading l) as [h|] eqn:E; [|now split].
  split; [reflexivity|]. symmetry. rewrite (headingColor_nearest h l _ E).
  cbn [nearestColor]. now rewrite E.
Qed.

(** The parse of a document in two parts: the trackers at the cut are the
    nearest heading and colour above it. *)
Lemma parseLoop_app pre a b :
  parseLoop (length pre) (nearestHeading (rev pre)) (nearestColor (rev pre)) (a ++ b)
  = parseLoop (length pre) (nearestHeading (rev pre)) (nearestColor (rev pre)) a
    ++ parseLoop (length (pre ++ a)) (nearestHeading (rev (pre ++ a)))
                 (nearestColor (rev (pre ++ a))) b.
Proof.
  revert pre. induction a as [|l a IH]; intros pre.
  - now rewrite app_nil_r.
  - replace (pre ++ l :: a) with ((pre ++ [l]) ++ a) by now rewrite <- app_assoc.
    specialize (IH (pre ++ [l])).
    destruct (nearest_snoc pre l) as [Eh Ec]. rewrite Eh, Ec in IH.
    rewrite length_app, Nat.add_1_r in IH. cbn [length] in IH.
    cbn [app parseLoop].
    destruct (exec reHeading l) as [h|]; [exact IH|].
    destruct (exec reTask l) as [m|]; [|exact IH].
    cbn [app]. f_equal. exact IH.
Qed.

Lemma filter_all {A} (f : A -> bool) (l : list A) :
  Forall (fun x => f x = true) l -> filter f l = l.
Proof.
  induction 1 as [|x l Hx _ IH]; [reflexivity|]. cbn [filter]. now rewrite Hx, IH.
Qed.

Lemma filter_none {A} (f : A -> bool) (l : list A) :
  Forall (fun x => f x = false) l -> filter f l = [].
Proof.
  induction 1 as [|x l Hx _ IH]; [reflexivity|]. cbn [filter]. now rewrite Hx, IH.
Qed.

(** A task line put in front of line [k + 1]: the tasks above stay, the new
    task takes the trackers of the lines above it, the tasks below move
    down one line. *)
Lemma parse_insert_line (model : Model) k line m :
  (k < length model)%nat -> exec reHeading line = None -> exec reTask line = Some m ->
  parseTasks (Some (insertLineBefore model (k + 1) line))
  = filter (fun u => (lineNumber u <? k + 1)%nat) (parseTasks (Some model))
    ++ taskOfMatch k (nearestHeading (linesAbove model (k + 1)))
                   (nearestColor (linesAbove model (k + 1))) m
    :: map shiftTask
         (filter (fun u => (k + 1 <=? lineNumber u)%nat) (parseTasks (Some model))).
Proof.
  intros Hk Hh Hm. unfold insertLineBefore, linesAbove, parseTasks.
  destruct (Nat.leb_spec (k + 1) (length model)) as [_|Hgt]; [|lia].
  rewrite Nat.add_sub.
  assert (Hlen : length (firstn k model) = k) by (rewrite length_firstn; lia).
  pose proof (parseLoop_app [] (firstn k model) (skipn k model)) as Hold.
  pose proof (parseLoop_app [] (firstn k model) (line :: skipn k model)) as Hnew.
  cbn [app rev length nearestHeading nearestColor] in Hold, Hnew.
  rewrite firstn_skipn in Hold. rewrite Hlen in Hold, Hnew.
  rewrite Hnew, Hold. clear Hnew Hold.
  cbn [parseLoop]. rewrite Hh, Hm.
  rewrite !filter_app.
  set (P1 := parseLoop 0 None defaultColor (firstn k model)).
  set (P2 := parseLoop k _ _ (skipn k model)).
  assert (H1 : Forall (fun u => (lineNumber u <= k)%nat) P1).
  { apply Forall_forall. intros t Ht.
    apply parseLoop_In in Ht as (j & l & lh' & lc' & m' & Hn & _ & _ & ->).
    rewrite lineNumber_taskOfMatch.
    assert (j < length (firstn k model))%nat by (apply nth_error_Some; congruence).
    lia. }
  assert (H2 : Forall (fun u => (k < lineNumber u)%nat) P2) by apply parseLoop_lower.
  rewrite (filter_all _ P1), (filter_none _ P2), (filter_none _ P1), (filter_all _ P2).
  - rewrite app_nil_r. cbn [app]. f_equal. f_equal. apply parseLoop_shift.
  - eapply Forall_impl; [|exact H2]. intros u Hu. apply Nat.leb_le. cbn beta in Hu. lia.
  - eapply Forall_impl; [|exact H1]. intros u Hu. apply Nat.leb_gt. cbn beta in Hu. lia.
  - eapply Forall_impl; [|exact H2]. intros u Hu. apply Nat.ltb_ge. cbn beta in Hu. lia.
  - eapply Forall_impl; [|exact H1]. intros u Hu. apply Nat.ltb_lt. cbn beta in Hu. lia.
Qed.

Lemma nearestHeading_last pre j line h :
  nth_error pre j = Some line -> exec reHeading line = Some h ->
  exists j' line' h',
    (j <= j' < length pre)%nat /\ nth_error pre j' = Some line' /\
    exec reHeading line' = Some h' /\
    nearestHeading (rev pre) = Some (trim (group 2 h')).
Proof.
  induction pre as [|x pre IH] using rev_ind; intros Hn Hh; [now destruct j|].
  assert (Hj : (j < length (pre ++ [x]))%nat) by (apply nth_error_Some; congruence).
  rewrite length_app in *. cbn [length] in *.
  destruct (nearest_snoc pre x) as [Eh _]. rewrite Eh.
  destruct (exec reHeading x) as [hx|] eqn:Ex.
  - exists (length pre), x, hx. repeat split; try lia; try assumption.
    rewrite nth_error_app2, Nat.sub_diag by lia. reflexivity.
  - assert (j < length pre)%nat.
    { destruct (Nat.eq_dec j (length pre)) as [->|]; [|lia].
      rewrite nth_error_app2, Nat.sub_diag in Hn by lia. cbn in Hn. congruence. }
    rewrite nth_error_app1 in Hn by assumption.
    destruct (IH Hn Hh) as (j' & line' & h' & Hb & Hn' & Hh' & E).
    exists j', line', h'. repeat split; try lia; try assumption.
    now rewrite nth_error_app1 by lia.
Qed.

Lemma collectLoop_complete i lines j line h :
  nth_error lines j = Some line -> exec reHeading line = Some h ->
  In (mkHeadingEntry (i + j + 1) (length (group 1 h)) (group 2 h)) (collectLoop i lines).
Proof.
  revert i j. induction lines as [|l lines IH]; intros i j Hn Hh; [now destruct j|].
  destruct j as [|j]; cbn [nth_error] in Hn; cbn [collectLoop].
  - injection Hn as ->. rewrite Hh. left. f_equal. lia.
  - specialize (IH (S i) j Hn Hh).
    replace (S i + j + 1)%nat with (i + S j + 1)%nat in IH by lia.
    destruct (exec reHeading l); [now right | exact IH].
Qed.

(** X11: a task created by the dialog under a heading whose section ends
    before the end of the document (the insertion point is a line of the
    document) shows on the board as follows.  The tasks above the new line
    are as before, the tasks below it are as before but one line further
    down, and between them stands the new task, in the backlog, with the
    text typed and the dates chosen.  Its heading is the chosen heading, or
    else a deeper heading of that section: the new line goes to the end of
    the section, below its sub-sections.  This holds for a typed text
    without line terminators that does not itself hold "start:" or "due:",
    each date being empty or a date of the form YYYY-MM-DD.  (For a typed
    text that holds a "due:" date the parse can read that date in place of
    the chosen one: lemma [dialog_typed_due_first] is an example.) *)
Theorem dialog_task_on_board (model : Model) (e : HeadingEntry)
    (rawText metaStart metaDue : str) (insertAt : nat) (line : str) :
  In e (collectHeadings model) ->
  createTaskFromDialog model (Some (hLine e)) rawText metaStart metaDue
  = Some (insertAt, line) ->
  (insertAt <= length model)%nat ->
  forallb isDot rawText = true ->
  includes (lit "start:") (trim rawText) = false ->
  includes (lit "due:") (trim rawText) = false ->
  metaStart = [] \/ isDate metaStart = true ->
  metaDue = [] \/ isDate metaDue = true ->
  exists t,
    parseTasks (Some (insertLineBefore model insertAt line))
    = filter (fun u => (lineNumber u <? insertAt)%nat) (parseTasks (Some model))
      ++ t :: map shiftTask
                (filter (fun u => (insertAt <=? lineNumber u)%nat)
                        (parseTasks (Some model))) /\
    lineNumber t = insertAt /\
    status t = lit "backlog" /\
    text t = dialogBody (trim rawText) metaStart metaDue /\
    start t = fieldOf (lit "start:") metaStart /\
    due t = fieldOf (lit "due:") metaDue /\
    (heading t = Some (trim (hTitle e)) \/
     exists e', In e' (collectHeadings model) /\
                (hLine e < hLine e' < insertAt)%nat /\
                (hLevel e < hLevel e')%nat /\
                heading t = Some (trim (hTitle e'))).
Proof.
  intros He Hc Hlen Hdot Hst Hdu Hs Hd.
  apply collectLoop_In in He as (j & hl & h & Hn & Hh & ->).
  cbn [hLine hLevel hTitle Nat.add] in *.
  destruct (exec_reHeading_level _ _ Hh) as (Hg & Hl).
  unfold createTaskFromDialog in Hc.
  destruct (trim rawText) as [|c0 x] eqn:Et; [discriminate|]. rewrite <- Et in *.
  assert (Hne : trim rawText <> []) by (rewrite Et; discriminate).
  replace (j + 1)%nat with (S j) in * by lia.
  unfold insertTaskUnderHeading in Hc. cbn [getLineContent] in Hc.
  rewrite Hn, Hl in Hc. injection Hc as Hat <-.
  change (findInsertAt (hashRun hl) (S j + 1) (skipn (S j) model) = insertAt) in Hat.
  destruct (findInsertAt_spec (hashRun hl) (S j + 1) (skipn (S j) model))
    as (Hb & Hin & _).
  rewrite Hat in Hb, Hin. clear Hat.
  destruct (dialog_line_task (trim rawText) metaStart metaDue Hne (trim_fixed rawText)
              (forallb_trim isDot rawText Hdot) Hst Hdu Hs Hd) as (Hlh & m & Hm & Hf).
  destruct insertAt as [|k]; [lia|].
  replace (S k) with (k + 1)%nat in * by lia.
  exists (taskOfMatch k (nearestHeading (linesAbove model (k + 1)))
                      (nearestColor (linesAbove model (k + 1))) m).
  split; [apply parse_insert_line; [lia | assumption | assumption]|].
  split; [reflexivity|].
  destruct (Hf k (nearestHeading (linesAbove model (k + 1)))
              (nearestColor (linesAbove model (k + 1)))) as (F1 & F2 & F3 & F4).
  repeat (split; [assumption|]).
  cbn [taskOfMatch heading]. unfold linesAbove. rewrite Nat.add_sub.
  assert (Hjk : (j < k)%nat) by lia.
  assert (Hn1 : nth_error (firstn k model) j = Some hl).
  { rewrite nth_error_firstn. destruct (Nat.ltb_spec j k); [assumption | lia]. }
  destruct (nearestHeading_last _ _ _ _ Hn1 Hh) as (j' & line' & h' & Hb' & Hn' & Hh' & ->).
  rewrite length_firstn in Hb'.
  rewrite nth_error_firstn in Hn'.
  destruct (Nat.ltb_spec j' k) as [Hj'|]; [|lia].
  destruct (Nat.eq_dec j' j) as [->|Hneq].
  - left. rewrite Hn in Hn'. injection Hn' as <-. rewrite Hh in Hh'.
    injection Hh' as <-. reflexivity.
  - right.
    exists (mkHeadingEntry (0 + j' + 1) (length (group 1 h')) (group 2 h')).
    split; [now apply (collectLoop_complete 0 model j' line' h')|].
    cbn [hLine hLevel hTitle Nat.add]. split; [lia|]. split; [|reflexivity].
    destruct (exec_reHeading_level _ _ Hh') as (Hg' & Hl').
    rewrite Hg, Hg'. fold (hashRun hl) (hashRun line').
    apply (Hin (j' - S j)%nat line' (hashRun line')); [lia | | assumption].
    rewrite nth_error_skipn. now replace (S j + (j' - S j))%nat with j' by lia.
Qed.

Lemma dialog_task_on_board_witness :
  exists t,
    parseTasks (Some (insertLineBefore
                        [lit "# A"; lit "## B"; lit "- [x] call"; lit "# C"; lit "- [ ] z"]
                        4 (lit "- [ ] buy milk due:2025-01-20")))
    = filter (fun u => (lineNumber u <? 4)%nat)
             (parseTasks (Some [lit "# A"; lit "## B"; lit "- [x] call"; lit "# C";
                                lit "- [ ] z"]))
      ++ t :: map shiftTask
                (filter (fun u => (4 <=? lineNumber u)%nat)
                        (parseTasks (Some [lit "# A"; lit "## B"; lit "- [x] call";
                                           lit "# C"; lit "- [ ] z"]))) /\
    lineNumber t = 4%nat /\
    status t = lit "backlog" /\
    text t = dialogBody (trim (lit "buy milk ")) [] (lit "2025-01-20") /\
    start t = fieldOf (lit "start:") [] /\
    due t = fieldOf (lit "due:") (lit "2025-01-20") /\
    (heading t = Some (trim (hTitle (mkHeadingEntry 1 1 (lit "A")))) \/
     exists e',
       In e' (collectHeadings [lit "# A"; lit "## B"; lit "- [x] call"; lit "# C";
                               lit "- [ ] z"]) /\
       (hLine (mkHeadingEntry 1 1 (lit "A")) < hLine e' < 4)%nat /\
       (hLevel (mkHeadingEntry 1 1 (lit "A")) < hLevel e')%nat /\
       heading t = Some (trim (hTitle e'))).
Proof.
  apply (dialog_task_on_board
           [lit "# A"; lit "## B"; lit "- [x] call"; lit "# C"; lit "- [ ] z"]
           (mkHeadingEntry 1 1 (lit "A")) (lit "buy milk ") [] (lit "2025-01-20")
           4 (lit "- [ ] buy milk due:2025-01-20")).
  - vm_compute. left; reflexivity.
  - reflexivity.
  - simpl; lia.
  - reflexivity.
  - reflexivity.
  - reflexivity.
  - left; reflexivity.
  - right; reflexivity.
Defined.

(** A date typed into the text comes first in the line, and the parse
    reads the first "due:" date of the text: the chosen date is not the one
    the task shows. *)
Lemma dialog_typed_due_first :
  createTaskFromDialog [lit "# A"; lit "# C"] (Some 1%nat)
                       (lit "pay due:2020-01-01") [] (lit "2025-01-20")
  = Some (2%nat, lit "- [ ] pay due:2020-01-01 due:2025-01-20") /\
  map due (parseTasks
             (Some (insertLineBefore [lit "# A"; lit "# C"] 2
                      (lit "- [ ] pay due:2020-01-01 due:2025-01-20"))))
  = [Some (lit "due:2020-01-01")].
Proof. split; reflexivity. Qed.

(** ** Escaping for the Kanban cards *)

Lemma escapeHtml_from b r :
  replaceAllFrom (Class isHtmlSpecial) (fun m => htmlEntity (matched m)) 0 b r
  = flat_map escapeChar r.
Proof.
  revert b. induction r as [|c r IH]; intros b; [reflexivity|].
  cbn [replaceAllFrom flat_map]. unfold matchAt, escapeChar. cbn [run].
  destruct (isHtmlSpecial c).
  - unfold accept. cbn [matched]. change (c :: b) with ([c] ++ b).
    rewrite (span_app b [c]). cbn [rev app length Nat.pred].
    now rewrite IH.
  - cbn [app]. now rewrite IH.
Qed.

Lemma escapeHtml_flat_map s : escapeHtml s = flat_map escapeChar s.
Proof. apply escapeHtml_from. Qed.

Lemma escapeChar_cases c :
  (isHtmlSpecial c = false /\ escapeChar c = [c]) \/
  (c = 38 /\ escapeChar c = lit "&amp;") \/
  (c = 60 /\ escapeChar c = lit "&lt;") \/
  (c = 62 /\ escapeChar c = lit "&gt;") \/
  (c = 34 /\ escapeChar c = lit "&quot;") \/
  (c = 39 /\ escapeChar c = lit "&#39;").
Proof.
  unfold escapeChar. destruct (isHtmlSpecial c) eqn:E; [|now left]. right.
  unfold isHtmlSpecial in E.
  repeat (apply orb_true_iff in E as [E|E]); apply N.eqb_eq in E; subst c; auto 10.
Qed.

Lemma escapeChar_plain c x :
  In x (escapeChar c) -> x <> 60 /\ x <> 62 /\ x <> 34 /\ x <> 39.
Proof.
  destruct (escapeChar_cases c) as [[E ->]|[[-> ->]|[[-> ->]|[[-> ->]|[[-> ->]|[-> ->]]]]]].
  - intros [<-|[]]. unfold isHtmlSpecial in E.
    repeat (apply orb_false_iff in E as [E ?]).
    repeat split; intros ->; discriminate.
  - cbn. intros H. repeat destruct H as [<-|H]; try easy.
  - cbn. intros H. repeat destruct H as [<-|H]; try easy.
  - cbn. intros H. repeat destruct H as [<-|H]; try easy.
  - cbn. intros H. repeat destruct H as [<-|H]; try easy.
  - cbn. intros H. repeat destruct H as [<-|H]; try easy.
Qed.

Lemma split_after_plain (w rest u v : str) :
  (forall x, In x w -> x <> 38) -> w ++ rest = u ++ 38 :: v ->
  exists u', u = w ++ u' /\ rest = u' ++ 38 :: v.
Proof.
  revert u. induction w as [|x w IH]; intros u Hw E.
  - now exists u.
  - destruct u as [|y u]; cbn [app] in E.
    + injection E as -> _. now elim (Hw 38 (or_introl eq_refl)).
    + injection E as <- E.
      destruct (IH u (fun z Hz => Hw z (or_intror Hz)) E) as (u' & -> & ->).
      now exists u'.
Qed.

Lemma escapeChar_entity c :
  isHtmlSpecial c = true ->
  exists w, escapeChar c = 38 :: w /\
            In w [lit "amp;"; lit "lt;"; lit "gt;"; lit "quot;"; lit "#39;"] /\
            forall x, In x w -> x <> 38.
Proof.
  intros Hc.
  destruct (escapeChar_cases c)
    as [[E _]|[[-> ->]|[[-> ->]|[[-> ->]|[[-> ->]|[-> ->]]]]]]; [congruence|..];
    eexists; (split; [reflexivity|]); (split; [cbn; auto 10|]);
    intros x Hx; cbn in Hx; repeat destruct Hx as [<-|Hx]; try discriminate;
    destruct Hx.
Qed.

Lemma escapeHtml_plain s x :
  In x (escapeHtml s) -> x <> 60 /\ x <> 62 /\ x <> 34 /\ x <> 39.
Proof.
  rewrite escapeHtml_flat_map. intros H.
  apply in_flat_map in H as (c & _ & H). now apply escapeChar_plain in H.
Qed.

(** X12: the text [escapeHtml] returns holds no angle bracket and no
    quote, and every ampersand in it starts one of the five entities the
    function writes; a text without the five special characters is
    returned as it is. *)
Theorem escapeHtml_safe (s : str) :
  (forall x, In x (escapeHtml s) -> x <> 60 /\ x <> 62 /\ x <> 34 /\ x <> 39) /\
  (forall u v, escapeHtml s = u ++ 38 :: v ->
               exists w, In w [lit "amp;"; lit "lt;"; lit "gt;"; lit "quot;"; lit "#39;"] /\
                         startsWith w v = true) /\
  (forallb (fun c => negb (isHtmlSpecial c)) s = true -> escapeHtml s = s).
Proof.
  split; [apply escapeHtml_plain|]. rewrite escapeHtml_flat_map. split.
  - induction s as [|c s IH]; intros u v E; [now destruct u|].
    cbn [flat_map] in E. destruct (isHtmlSpecial c) eqn:Hc.
    + destruct (escapeChar_entity c Hc) as (w & Ew & Hw & Hplain).
      rewrite Ew in E. destruct u as [|y u]; cbn [app] in E.
      * injection E as <-. exists w. split; [assumption|]. apply startsWith_app.
      * injection E as _ E.
        destruct (split_after_plain _ _ _ _ Hplain E) as (u' & _ & E').
        now apply (IH u' v).
    + unfold escapeChar in E. rewrite Hc in E.
      destruct u as [|y u]; cbn [app] in E.
      * injection E as -> _. discriminate Hc.
      * injection E as _ E. now apply (IH u v).
  - induction s as [|c s IH]; [reflexivity|]. cbn [forallb flat_map].
    intros H. apply andb_true_iff in H as [Hc H]. rewrite (IH H).
    unfold escapeChar. apply negb_true_iff in Hc. now rewrite Hc.
Qed.

Lemma escapeHtml_safe_witness :
  forallb (fun c => negb (isHtmlSpecial c)) (lit "call Bob (a)") = true /\
  escapeHtml (lit "call Bob (a)") = lit "call Bob (a)".
Proof.
  split; [reflexivity|].
  exact (proj2 (proj2 (escapeHtml_safe (lit "call Bob (a)"))) eq_refl).
Defined.

Lemma escapeChar_inj c c' x y :
  escapeChar c ++ x = escapeChar c' ++ y -> c = c' /\ x = y.
Proof.
  destruct (escapeChar_cases c)
    as [[E ->]|[[-> ->]|[[-> ->]|[[-> ->]|[[-> ->]|[-> ->]]]]]];
  destruct (escapeChar_cases c')
    as [[E' ->]|[[-> ->]|[[-> ->]|[[-> ->]|[[-> ->]|[-> ->]]]]]];
  cbn; intros H; try discriminate H;
  try (injection H; intros; subst; try discriminate; now split).
Qed.

(** X13: [escapeHtml] loses nothing: two texts that are escaped to the same
    text are the same text. *)
Theorem escapeHtml_injective (s s' : str) :
  escapeHtml s = escapeHtml s' -> s = s'.
Proof.
  rewrite !escapeHtml_flat_map. revert s'.
  assert (Hne : forall c r, escapeChar c ++ r <> []).
  { intros c r.
    destruct (escapeChar_cases c)
      as [[_ ->]|[[_ ->]|[[_ ->]|[[_ ->]|[[_ ->]|[_ ->]]]]]]; discriminate. }
  induction s as [|c s IH]; intros [|c' s'] E; cbn [flat_map] in E.
  - reflexivity.
  - symmetry in E. now apply Hne in E.
  - now apply Hne in E.
  - apply escapeChar_inj in E as [<- E]. f_equal. now apply IH.
Qed.

Lemma escapeHtml_injective_witness : lit "a<b & c" = lit "a<b & c".
Proof.
  apply (escapeHtml_injective (lit "a<b & c") (lit "a<b & c")). reflexivity.
Defined.

Lemma countChar_app c u v : countChar c (u ++ v) = (countChar c u + countChar c v)%nat.
Proof. unfold countChar. now rewrite filter_app, length_app. Qed.

Lemma countChar_escapeHtml c s :
  c = 60 \/ c = 62 \/ c = 34 \/ c = 39 -> countChar c (escapeHtml s) = 0%nat.
Proof.
  intros Hc. unfold countChar.
  destruct (filter (N.eqb c) (escapeHtml s)) as [|x l] eqn:E; [reflexivity|].
  assert (Hx : In x (filter (N.eqb c) (escapeHtml s))) by (rewrite E; now left).
  apply filter_In in Hx as [Hx Hcx]. apply N.eqb_eq in Hcx. subst x.
  apply escapeHtml_plain in Hx. lia.
Qed.

(** X14: the markup of a Kanban card does not depend on the task: whatever
    the text, heading, tags and due date of the task are, the card's HTML
    holds exactly the four opening angle brackets, the four closing angle
    brackets and the four double quotes of the card's template. *)
Theorem card_markup_fixed (t : Task) :
  countChar 60 (cardHtml t) = 4%nat /\
  countChar 62 (cardHtml t) = 4%nat /\
  countChar 34 (cardHtml t) = 4%nat.
Proof.
  unfold cardHtml.
  repeat split; rewrite !countChar_app;
    destruct (heading t) as [[|? ?]|]; destruct (tags t) as [|? ?];
    destruct (due t) as [[|? ?]|];
    rewrite ?countChar_app, !countChar_escapeHtml by auto; reflexivity.
Qed.

(** ** insertTask *)





Lemma dropWhile_all p (s : str) : forallb p s = true -> dropWhile p s = [].
Proof.
  induction s as [|c s IH]; [reflexivity|]. cbn [forallb dropWhile].
  intros H. apply andb_true_iff in H as [-> H]. now apply IH.
Qed.




(** ** Folding ranges *)

Lemma exec_reFoldHeader line :
  exec reFoldHeader line =
  if (1 <=? hashRun line)%nat then
    match dropWhile isHash line with
    | c :: r => if isSpace c
                then Some (mkMatch [] (takeWhile isHash line ++ [c]) r
                             [(1%nat, takeWhile isHash line)])
                else None
    | [] => None
    end
  else None.
Proof.
  unfold reFoldHeader, plus. rewrite exec_bol. unfold matchAt, hashRun. cbn [run].
  rewrite repeatG_run.
  2:{ intros c ? ? ? Hc. cbn. destruct (isSpace c) eqn:S; [|reflexivity].
      apply space_not_hash in S. congruence. }
  cbn [fits]. rewrite andb_true_r. destruct (_ <=? _)%nat; [|reflexivity].
  destruct (dropWhile isHash line) as [|c r]; [reflexivity|].
  destruct (isSpace c); [|reflexivity]. unfold accept.
  rewrite !app_nil_r, !span_nil. cbn [rev]. now rewrite !rev_involutive.
Qed.

Lemma foldLevel_spec line l :
  foldLevel line = Some l <->
  l = hashRun line /\ (1 <= l)%nat /\
  exists c r, dropWhile isHash line = c :: r /\ isSpace c = true.
Proof.
  unfold foldLevel. rewrite exec_reFoldHeader.
  destruct (Nat.leb_spec 1 (hashRun line)) as [L1|L1].
  - destruct (dropWhile isHash line) as [|c r].
    + split; [discriminate | now intros (_ & _ & ? & ? & ? & _)].
    + destruct (isSpace c) eqn:S.
      * unfold group. cbn [groups cap Nat.eqb]. fold (hashRun line). split.
        -- intros E; injection E as <-. repeat split; eauto.
        -- now intros (-> & _).
      * split; [discriminate|].
        intros (_ & _ & c' & r' & E & S'). injection E as <- <-. congruence.
  - split; [discriminate | intros (-> & ? & _); lia].
Qed.

Lemma blank_not_header t : test reBlank t = true -> foldLevel t = None.
Proof.
  intros H. destruct (foldLevel t) as [l|] eqn:E; [|reflexivity]. exfalso.
  apply foldLevel_spec in E as (-> & L1 & _).
  destruct t as [|c t]; [cbn in L1; lia|].
  unfold hashRun in L1. cbn [takeWhile] in L1.
  destruct (isHash c) eqn:Hc; [|cbn in L1; lia].
  unfold test, reBlank in H. rewrite exec_bol in H. unfold matchAt, star in H.
  cbn [run repeatG] in H.
  destruct (isSpace c) eqn:S; [apply space_not_hash in S; congruence|].
  cbn [andb stopAt] in H. discriminate H.
Qed.

Lemma headersLoop_In i lines h :
  In h (headersLoop i lines) <->
  exists j line, nth_error lines j = Some line /\
                 foldLevel line = Some (level h) /\
                 headerLine h = (i + j + 1)%nat /\ content h = trim line.
Proof.
  revert i. induction lines as [|l lines IH]; intros i; cbn [headersLoop].
  - split; [easy | now intros ([|j] & ? & ? & _)].
  - assert (Hrest : In h (headersLoop (S i) lines) <->
              exists j line, nth_error (l :: lines) (S j) = Some line /\
                             foldLevel line = Some (level h) /\
                             headerLine h = (i + S j + 1)%nat /\ content h = trim line).
    { rewrite IH. split; intros (j & line & Hn & Hl & Hh & Hc); exists j, line;
        repeat split; try assumption; lia. }
    destruct (exec reFoldHeader l) as [hm|] eqn:E.
    + split.
      * intros [<-|H].
        -- exists 0%nat, l. cbn [nth_error level headerLine content]. unfold foldLevel.
           rewrite E. repeat split. lia.
        -- apply Hrest in H as (j & line & H). now exists (S j), line.
      * intros ([|j] & line & Hn & Hl & Hh & Hc).
        -- left. cbn [nth_error] in Hn. injection Hn as <-. unfold foldLevel in Hl.
           rewrite E in Hl. injection Hl as Hl. destruct h as [lv hl ct].
           cbn [level headerLine content] in *. subst. f_equal. lia.
        -- right. apply Hrest. now exists j, line.
    + split.
      * intros H. apply Hrest in H as (j & line & H). now exists (S j), line.
      * intros ([|j] & line & Hn & Hl & Hh & Hc).
        -- cbn [nth_error] in Hn. injection Hn as <-. unfold foldLevel in Hl.
           now rewrite E in Hl.
        -- apply Hrest. now exists j, line.
Qed.

Lemma headersLoop_sorted i lines : StronglySorted byLine (headersLoop i lines).
Proof.
  revert i. induction lines as [|l lines IH]; intros i; cbn [headersLoop]; [constructor|].
  destruct (exec reFoldHeader l); [|apply IH].
  constructor; [apply IH|]. apply Forall_forall. intros h Hh.
  apply headersLoop_In in Hh as (j & _ & _ & _ & Hh & _). unfold byLine. cbn. lia.
Qed.

Lemma headers_of_model (m : Model) h :
  In h (headersLoop 0 m) <->
  exists line, getLineContent m (headerLine h) = Some line /\
               foldLevel line = Some (level h) /\ content h = trim line.
Proof.
  rewrite headersLoop_In. split.
  - intros (j & line & Hn & Hl & Hh & Hc). exists line.
    rewrite Hh. cbn [Nat.add]. now rewrite getLineContent_succ.
  - intros (line & Hn & Hl & Hc). destruct (headerLine h) as [|j] eqn:E; [discriminate|].
    exists j, line. cbn [getLineContent] in Hn. repeat split; try assumption. lia.
Qed.

Lemma endLineOf_bounds lv later N x :
  Forall (fun h => (x < headerLine h <= N)%nat) later -> (x <= N)%nat ->
  (x <= endLineOf lv later N <= N)%nat.
Proof.
  induction 1 as [|h later Hh _ IH]; intros HN; cbn [endLineOf]; [lia|].
  destruct (level h <=? lv)%nat; [lia | now apply IH].
Qed.

Lemma endLineOf_mono lv lv' later N :
  (lv <= lv')%nat -> StronglySorted byLine later ->
  Forall (fun h => (headerLine h <= N)%nat) later ->
  (endLineOf lv' later N <= endLineOf lv later N)%nat.
Proof.
  intros Hlv Hs. induction Hs as [|h later Hs IH Hh]; intros HN; cbn [endLineOf]; [lia|].
  apply Forall_cons_iff in HN as [HhN HN].
  destruct (Nat.leb_spec (level h) lv) as [L|L].
  - destruct (Nat.leb_spec (level h) lv'); lia.
  - destruct (Nat.leb_spec (level h) lv') as [L'|L']; [|now apply IH].
    assert (headerLine h <= endLineOf lv later N <= N)%nat; [|lia].
    apply endLineOf_bounds; [|assumption].
    apply Forall_forall. intros k Hk. rewrite Forall_forall in Hh, HN.
    specialize (Hh k Hk). specialize (HN k Hk). unfold byLine in Hh. lia.
Qed.

(** The section of a header ends before a later header starts, or reaches
    at least as far as that header's section. *)
Lemma endLineOf_pair c a k b N :
  StronglySorted byLine (c :: a ++ k :: b) ->
  Forall (fun h => (1 <= headerLine h <= N)%nat) (a ++ k :: b) ->
  (endLineOf (level c) (a ++ k :: b) N < headerLine k)%nat \/
  (endLineOf (level k) b N <= endLineOf (level c) (a ++ k :: b) N)%nat.
Proof.
  intros Hs HN. apply StronglySorted_inv in Hs as [Hs _].
  induction a as [|h a IH]; cbn [app endLineOf] in *.
  - apply Forall_cons_iff in HN as [HkN HN].
    apply StronglySorted_inv in Hs as [Hs _].
    destruct (Nat.leb_spec (level k) (level c)) as [L|L]; [left; lia | right].
    apply endLineOf_mono; [lia | assumption |].
    eapply Forall_impl; [|exact HN]. cbn beta. intros; lia.
  - apply Forall_cons_iff in HN as [HhN HN].
    apply StronglySorted_inv in Hs as [Hs Hh].
    destruct (Nat.leb_spec (level h) (level c)) as [L|L]; [|now apply IH].
    left. rewrite Forall_forall in Hh. specialize (Hh k). unfold byLine in Hh.
    assert (headerLine h < headerLine k)%nat by (apply Hh, in_or_app; right; now left).
    lia.
Qed.

Lemma rangeOf_In (m : Model) c later r :
  In r (rangeOf m c later) ->
  fEnd r = endLineOf (level c) later (length m) /\
  (headerLine c < fEnd r)%nat /\ (fStart r <= fEnd r)%nat /\
  (fStart r = headerLine c \/
   fStart r = (headerLine c + 1)%nat /\
   exists t, getLineContent m (headerLine c + 1) = Some t /\ test reBlank t = true).
Proof.
  unfold rangeOf. destruct (Nat.ltb_spec (headerLine c) (endLineOf (level c) later (length m)))
    as [L|L]; [|easy].
  destruct (Nat.leb_spec (headerLine c + 1) (endLineOf (level c) later (length m)))
    as [L'|L']; [|lia].
  destruct (getLineContent m (headerLine c + 1)) as [t|] eqn:Et.
  - destruct (test reBlank t) eqn:Eb.
    + destruct (Nat.leb_spec (headerLine c + 1) (endLineOf (level c) later (length m)));
        [|lia].
      intros [<-|[]]. cbn [fStart fEnd]. split; [reflexivity|].
      split; [lia|]. split; [lia|].
      right. split; [reflexivity|]. now exists t.
    + destruct (Nat.leb_spec (headerLine c) (endLineOf (level c) later (length m)));
        [|lia].
      intros [<-|[]]. cbn [fStart fEnd]. split; [reflexivity|].
      split; [lia|]. split; [lia|]. now left.
  - destruct (Nat.leb_spec (headerLine c) (endLineOf (level c) later (length m)));
      [|lia].
    intros [<-|[]]. cbn [fStart fEnd]. split; [reflexivity|].
      split; [lia|]. split; [lia|]. now left.
Qed.

Lemma rangesLoop_In (m : Model) hs r :
  In r (rangesLoop m hs) ->
  exists a k b, hs = a ++ k :: b /\ In r (rangeOf m k b).
Proof.
  induction hs as [|c later IH]; cbn [rangesLoop]; [easy|].
  intros H. apply in_app_or in H as [H|H].
  - now exists [], c, later.
  - destruct (IH H) as (a & k & b & -> & Hr). now exists (c :: a), k, b.
Qed.

Lemma rangesLoop_pairs (m : Model) hs :
  StronglySorted byLine hs -> Forall (isHeaderOf m) hs ->
  ForallOrdPairs apartOrNested (rangesLoop m hs).
Proof.
  intros Hs Hm. induction Hs as [|c later Hs IH Hc]; cbn [rangesLoop]; [constructor|].
  apply Forall_cons_iff in Hm as [Hcm Hm]. specialize (IH Hm).
  assert (Hbound : Forall (fun h => (1 <= headerLine h <= length m)%nat) later).
  { eapply Forall_impl; [|exact Hm]. intros h (line & Hn & _).
    destruct (headerLine h) as [|j]; [discriminate|]. cbn [getLineContent] in Hn.
    assert (j < length m)%nat by (apply nth_error_Some; congruence). lia. }
  assert (Hpair : forall r1 r2, In r1 (rangeOf m c later) -> In r2 (rangesLoop m later) ->
                                apartOrNested r1 r2).
  { intros r1 r2 H1 H2.
    apply rangesLoop_In in H2 as (a & k & b & -> & H2).
    apply rangeOf_In in H1 as (E1 & L1 & S1 & St1).
    apply rangeOf_In in H2 as (E2 & L2 & S2 & St2).
    assert (Hck : (headerLine c < headerLine k)%nat).
    { rewrite Forall_forall in Hc. apply (Hc k), in_or_app. right. now left. }
    assert (Hk : isHeaderOf m k).
    { rewrite Forall_forall in Hm. apply Hm, in_or_app. right. now left. }
    unfold apartOrNested. split.
    - destruct St1 as [->|[-> (t & Ht & Hb)]]; [destruct St2 as [->|[-> _]]; lia|].
      assert (headerLine c + 1 <> headerLine k)%nat.
      { intros E. destruct Hk as (line & Hn & Hl). rewrite <- E, Ht in Hn.
        injection Hn as <-. now rewrite (blank_not_header t Hb) in Hl. }
      destruct St2 as [->|[-> _]]; lia.
    - destruct (endLineOf_pair c a k b (length m)) as [D|D].
      + now constructor.
      + assumption.
      + left. rewrite E1. destruct St2 as [->|[-> _]]; lia.
      + right. rewrite E1, E2. exact D. }
  destruct (rangeOf m c later) as [|r1 [|r1' rs]] eqn:Er.
  - exact IH.
  - cbn [app]. constructor; [|exact IH].
    apply Forall_forall. intros r2 H2. apply Hpair; [now left | assumption].
  - exfalso. unfold rangeOf in Er.
    repeat match type of Er with
           | (if ?x then _ else _) = _ => destruct x
           end; discriminate.
Qed.

Lemma headers_isHeaderOf (m : Model) : Forall (isHeaderOf m) (headersLoop 0 m).
Proof.
  apply Forall_forall. intros h Hh. apply headers_of_model in Hh as (line & Hn & Hl & _).
  now exists line.
Qed.

(** X16: the folding ranges of a document lie inside the document, each
    starting no later than it ends, and they form a nesting: of two ranges
    the one listed first starts first, and either ends before the other
    starts or encloses it. *)
Theorem folding_ranges_nested (model : Model) :
  Forall (fun r => (1 <= fStart r <= fEnd r)%nat /\ (fEnd r <= length model)%nat)
         (provideFoldingRanges model) /\
  ForallOrdPairs apartOrNested (provideFoldingRanges model).
Proof.
  split.
  - apply Forall_forall. intros r Hr.
    apply rangesLoop_In in Hr as (a & k & b & E & Hr).
    apply rangeOf_In in Hr as (E1 & L1 & S1 & St1).
    pose proof (headersLoop_sorted 0 model) as Hs. rewrite E in Hs.
    pose proof (headers_isHeaderOf model) as Hm. rewrite E in Hm.
    assert (Hb : Forall (fun h => (0 < headerLine h <= length model)%nat) b).
    { apply Forall_app in Hm as [_ Hm]. apply Forall_cons_iff in Hm as [_ Hm].
      eapply Forall_impl; [|exact Hm]. intros h (line & Hn & _).
      destruct (headerLine h) as [|j]; [discriminate|]. cbn [getLineContent] in Hn.
      assert (j < length model)%nat by (apply nth_error_Some; congruence). lia. }
    pose proof (endLineOf_bounds (level k) b (length model) 0 Hb (Nat.le_0_l _)) as Hend.
    assert (Hk : (1 <= headerLine k)%nat).
    { apply Forall_app in Hm as [_ Hm]. apply Forall_cons_iff in Hm as [(line & Hn & _) _].
      destruct (headerLine k); [discriminate | lia]. }
    destruct St1 as [->|[-> _]]; lia.
  - apply rangesLoop_pairs; [apply headersLoop_sorted | apply headers_isHeaderOf].
Qed.

Lemma endLineOf_cases lv later N :
  (endLineOf lv later N = N /\ Forall (fun h => (lv < level h)%nat) later) \/
  (exists a h b, later = a ++ h :: b /\ Forall (fun h => (lv < level h)%nat) a /\
                 (level h <= lv)%nat /\ endLineOf lv later N = (headerLine h - 1)%nat).
Proof.
  induction later as [|h later IH]; cbn [endLineOf]; [left; split; [reflexivity|constructor]|].
  destruct (Nat.leb_spec (level h) lv) as [L|L].
  - right. exists [], h, later. repeat split; [constructor | assumption].
  - destruct IH as [[E Hd]|(a & h' & b & -> & Hd & Hl & E)].
    + left. split; [assumption | now constructor].
    + right. exists (h :: a), h', b. repeat split; try assumption. now constructor.
Qed.

Lemma sorted_app_inv (a : list Header) c b :
  StronglySorted byLine (a ++ c :: b) ->
  Forall (fun h => byLine h c) a /\ Forall (byLine c) b /\ StronglySorted byLine b.
Proof.
  induction a as [|x a IH]; cbn [app]; intros H.
  - apply StronglySorted_inv in H as [H1 H2]. now repeat split.
  - apply StronglySorted_inv in H as [H1 H2]. destruct (IH H1) as (Ha & Hb & Hs).
    repeat split; try assumption. constructor; [|assumption].
    rewrite Forall_forall in H2. apply H2, in_or_app. right. now left.
Qed.

(** X17: every folding range is the section of a header line: it starts at
    the header, or at the blank line right below it, and runs to the last
    line before the next header of the same or a higher level, or to the
    end of the document; every header inside it is of a deeper level. *)
Theorem folding_range_is_section (model : Model) (r : FoldingRange) :
  In r (provideFoldingRanges model) ->
  exists L line lv,
    getLineContent model L = Some line /\ foldLevel line = Some lv /\
    (fStart r = L \/
     fStart r = (L + 1)%nat /\
     exists t, getLineContent model (L + 1) = Some t /\ test reBlank t = true) /\
    (L < fEnd r)%nat /\
    (forall k t l, (L < k <= fEnd r)%nat -> getLineContent model k = Some t ->
                   foldLevel t = Some l -> (lv < l)%nat) /\
    ((fEnd r < length model)%nat ->
     exists t l, getLineContent model (fEnd r + 1) = Some t /\
                 foldLevel t = Some l /\ (l <= lv)%nat).
Proof.
  intros Hr. apply rangesLoop_In in Hr as (a & c & b & E & Hr).
  apply rangeOf_In in Hr as (E1 & L1 & S1 & St1).
  pose proof (headersLoop_sorted 0 model) as Hs. rewrite E in Hs.
  apply sorted_app_inv in Hs as (Ha & Hb & Hsb).
  assert (Hc : In c (headersLoop 0 model)) by (rewrite E; apply in_or_app; right; now left).
  apply headers_of_model in Hc as (line & Hn & Hl & _).
  exists (headerLine c), line, (level c).
  repeat (split; [assumption|]).
  assert (Hinb : forall k t l, (headerLine c < k)%nat -> getLineContent model k = Some t ->
                               foldLevel t = Some l ->
                               exists h, In h b /\ headerLine h = k /\ level h = l).
  { intros k t l Hk Ht Hlv.
    assert (Hh : In (mkHeader l k (trim t)) (headersLoop 0 model)).
    { apply headers_of_model. now exists t. }
    rewrite E in Hh. apply in_app_or in Hh as [Hh|[Hh|Hh]].
    - rewrite Forall_forall in Ha. apply Ha in Hh. unfold byLine in Hh. cbn in Hh. lia.
    - subst c. cbn in Hk. lia.
    - now exists (mkHeader l k (trim t)). }
  destruct (endLineOf_cases (level c) b (length model))
    as [[Een Hd]|(a' & h & b' & -> & Hd & Hlh & Een)]; rewrite <- E1 in Een.
  - split; [|lia].
    intros k t l Hk Ht Hlv. destruct (Hinb k t l (proj1 Hk) Ht Hlv) as (h & Hh & _ & <-).
    rewrite Forall_forall in Hd. now apply Hd.
  - apply sorted_app_inv in Hsb as (Ha' & Hb' & _). split.
    + intros k t l Hk Ht Hlv. destruct (Hinb k t l (proj1 Hk) Ht Hlv) as (h' & Hh & <- & <-).
      apply in_app_or in Hh as [Hh|[<-|Hh]].
      * rewrite Forall_forall in Hd. now apply Hd.
      * lia.
      * rewrite Forall_forall in Hb'. apply Hb' in Hh. unfold byLine in Hh. lia.
    + intros _.
      assert (Hh : In h (headersLoop 0 model)).
      { rewrite E. apply in_or_app. right. right. apply in_or_app. right. now left. }
      apply headers_of_model in Hh as (t & Ht & Hlt & _).
      exists t, (level h). rewrite Een.
      rewrite Forall_forall in Hb.
      assert (byLine c h) by (apply Hb, in_or_app; right; now left).
      unfold byLine in *.
      replace (headerLine h - 1 + 1)%nat with (headerLine h) by lia. now repeat split.
Qed.

Lemma folding_range_is_section_witness :
  exists L line lv,
    getLineContent [lit "# A"; lit ""; lit "## B"; lit "x"; lit "# C"] L = Some line /\
    foldLevel line = Some lv /\
    (fStart (mkRange 2 4) = L \/
     fStart (mkRange 2 4) = (L + 1)%nat /\
     exists t, getLineContent [lit "# A"; lit ""; lit "## B"; lit "x"; lit "# C"] (L + 1)
               = Some t /\ test reBlank t = true) /\
    (L < fEnd (mkRange 2 4))%nat /\
    (forall k t l,
        (L < k <= fEnd (mkRange 2 4))%nat ->
        getLineContent [lit "# A"; lit ""; lit "## B"; lit "x"; lit "# C"] k = Some t ->
        foldLevel t = Some l -> (lv < l)%nat) /\
    ((fEnd (mkRange 2 4) < length [lit "# A"; lit ""; lit "## B"; lit "x"; lit "# C"])%nat ->
     exists t l,
       getLineContent [lit "# A"; lit ""; lit "## B"; lit "x"; lit "# C"]
                      (fEnd (mkRange 2 4) + 1) = Some t /\
       foldLevel t = Some l /\ (l <= lv)%nat).
Proof.
  apply (folding_range_is_section [lit "# A"; lit ""; lit "## B"; lit "x"; lit "# C"]
           (mkRange 2 4)).
  vm_compute. left; reflexivity.
Defined.

(** ** The Ace toggle on any line *)

Lemma exec_indent_group T line m :
  (forall k, rejects isSpace (run T k)) -> ~ In 1%nat (groupsOf T) ->
  exec (Bol ;; Group 1 (star isSpace) ;; T) line = Some m ->
  pre m = [] /\ group 1 m = takeWhile isSpace line.
Proof.
  intros HT Hg. rewrite exec_bol. unfold matchAt, star. cbn [run].
  rewrite repeatG_star_max by (intros c b r cs Hc; now apply HT).
  destruct (run T _ _ _ _) as [[[b' r'] cs]|] eqn:R0; [|discriminate].
  intros H; injection H as <-. split; [reflexivity|].
  apply run_extends in R0 as (b1 & r1 & new & R0 & F).
  injection R0 as _ _ <-. unfold group. cbn [groups].
  rewrite cap_app_other.
  - cbn [cap Nat.eqb]. rewrite app_nil_r, span_nil. apply rev_involutive.
  - eapply Forall_impl; [|exact F]. cbn beta. intros e He E. apply Hg.
    now rewrite <- E.
Qed.

Lemma exec_reAceWith_group mid line m :
  groupsOf mid = [] -> exec (reAceWith mid) line = Some m ->
  pre m = [] /\ group 1 m = takeWhile isSpace line.
Proof.
  intros Hg. unfold reAceWith. apply exec_indent_group.
  - intros k c b r cs Hc. cbn [run]. now rewrite (space_not_dash _ Hc).
  - cbn [groupsOf app]. now rewrite Hg.
Qed.

(** X18: the Ace editor's toggle turns every line into a task line: the
    result keeps the line's indentation and continues with a dash, one
    space and a checkbox.  From then on the toggle cycles: three more
    applications give the same line again. *)
Theorem aceToggle_makes_task (line : str) :
  (exists st rest,
      isStatusChar st = true /\
      aceToggleTaskStatus line = dashLine (takeWhile isSpace line) (lit " ") st rest) /\
  aceToggleTaskStatus
    (aceToggleTaskStatus (aceToggleTaskStatus (aceToggleTaskStatus line)))
  = aceToggleTaskStatus line.
Proof.
  assert (H : exists st rest,
            isStatusChar st = true /\
            aceToggleTaskStatus line
            = dashLine (takeWhile isSpace line) (lit " ") st rest).
  { unfold aceToggleTaskStatus, test, replace.
    change reAcePending with (reAceWith (star isSpace)).
    change reAceInProgress with (reAceWith (Class isSlash)).
    change reAceDone with (reAceWith (Class isX)).
    destruct (exec (reAceWith (star isSpace)) line) as [m|] eqn:E1.
    { apply exec_reAceWith_group in E1 as [-> ->]; [|reflexivity].
      exists 47, (post m). split; [reflexivity|]. unfold dashLine.
      now rewrite <- app_assoc. }
    destruct (exec (reAceWith (Class isSlash)) line) as [m|] eqn:E2.
    { apply exec_reAceWith_group in E2 as [-> ->]; [|reflexivity].
      exists 120, (post m). split; [reflexivity|]. unfold dashLine.
      now rewrite <- app_assoc. }
    destruct (exec (reAceWith (Class isX)) line) as [m|] eqn:E3.
    { apply exec_reAceWith_group in E3 as [-> ->]; [|reflexivity].
      exists 32, (post m). split; [reflexivity|]. unfold dashLine.
      now rewrite <- app_assoc. }
    fold (currentIndentOf line). rewrite currentIndentOf_takeWhile.
    eexists 32, (32 :: _). split; [reflexivity|]. reflexivity. }
  split; [exact H|].
  destruct H as (st & rest & Hs & ->).
  pose proof (takeWhile_all isSpace line) as Hi.
  pose proof (nextStatusChar_status st Hs) as Hs1.
  pose proof (nextStatusChar_status _ Hs1) as Hs2.
  rewrite !aceToggle_dashLine by assumption.
  now rewrite nextStatusChar_cycle.
Qed.

(** ** The Kanban filters *)

Lemma matchAllFrom_In re skip b r x :
  In x (matchAllFrom re skip b r) ->
  exists b' r' m, matchAt re b' r' = Some m /\ x = matched m.
Proof.
  revert skip b. induction r as [|c r IH]; intros skip b.
  - destruct skip; cbn [matchAllFrom]; [|easy].
    destruct (matchAt re b []) as [m|] eqn:E; [|easy].
    intros [<-|[]]. now exists b, [], m.
  - destruct skip as [|n]; cbn [matchAllFrom]; [|apply IH].
    destruct (matchAt re b (c :: r)) as [m|] eqn:E; [|apply IH].
    intros [<-|H]; [now exists b, (c :: r), m | now apply IH in H].
Qed.

Lemma matchAt_reTag b r m :
  matchAt reTag b r = Some m ->
  exists name, matched m = 43 :: name /\ name <> [] /\
               forallb isWordOrHyphen name = true.
Proof.
  unfold matchAt, reTag, Chr, plus. cbn [run].
  destruct r as [|c r]; [discriminate|].
  destruct (43 =? c) eqn:Ec; [|discriminate]. apply N.eqb_eq in Ec. subst c.
  destruct (repeatG _ _ _ _ _ _ _) as [[[b' r'] cs]|] eqn:R; [|discriminate].
  apply repeatG_sound in R as (u & v & -> & Hu & Hlen & R).
  unfold accept in R. injection R as <- <- <-.
  intros H; injection H as <-. cbn [matched].
  exists u. split; [|split; [|assumption]].
  - replace (rev u ++ 43 :: b) with (rev (43 :: u) ++ b)
      by (cbn [rev]; now rewrite <- app_assoc).
    now rewrite span_app, rev_involutive.
  - intros ->. cbn in Hlen. lia.
Qed.

Lemma tag_shape s x :
  In x (matchAll reTag s) ->
  exists name, x = 43 :: name /\ name <> [] /\ forallb isWordOrHyphen name = true.
Proof.
  intros H. apply matchAllFrom_In in H as (b & r & m & Hm & ->).
  now apply matchAt_reTag in Hm.
Qed.

Lemma wordOrHyphen_not_space c : isWordOrHyphen c = true -> isSpace c = false.
Proof.
  intros H. destruct (isSpace c) eqn:S; [|reflexivity]. exfalso.
  unfold isSpace in S. unfold isWordOrHyphen, isWord, isDigit in H.
  repeat match goal with
         | E : existsb _ _ = true |- _ => cbn [existsb] in E
         | E : (_ || _) = true |- _ => apply orb_true_iff in E as [E|E]
         | E : (_ && _) = true |- _ => apply andb_true_iff in E as [? ?]
         | E : (_ =? _) = true |- _ => apply N.eqb_eq in E; subst
         | E : (_ <=? _) = true |- _ => apply N.leb_le in E
         | E : false = true |- _ => discriminate E
         end; try lia; try discriminate.
Qed.

Lemma matchAt_reSpaces_no b c r : isSpace c = false -> matchAt reSpaces b (c :: r) = None.
Proof.
  intros Hc. unfold matchAt, reSpaces, plus. cbn [run repeatG]. now rewrite Hc.
Qed.

Lemma matchAt_reSpaces_one b r :
  headIsSpace r = false ->
  matchAt reSpaces b (32 :: r) = Some (mkMatch (rev b) [32] r []).
Proof.
  intros Hr. unfold matchAt, reSpaces, plus. cbn [run repeatG].
  change (isSpace 32) with true. cbn [andb canMore pred decr option_map].
  assert (E : repeatG isSpace 0 None accept (32 :: b) r [] = Some (32 :: b, r, [])).
  { destruct r as [|c r]; [reflexivity|]. cbn [headIsSpace] in Hr.
    cbn [repeatG]. now rewrite Hr. }
  rewrite E. f_equal. f_equal.
  change (32 :: b) with ([32] ++ b). now rewrite span_app.
Qed.

Lemma splitFrom_word x cur b r :
  forallb (fun c => negb (isSpace c)) x = true ->
  splitFrom reSpaces 0 cur b (x ++ r)
  = splitFrom reSpaces 0 (rev x ++ cur) (rev x ++ b) r.
Proof.
  revert cur b. induction x as [|c x IH]; intros cur b Hx; [reflexivity|].
  cbn [forallb] in Hx. apply andb_true_iff in Hx as [Hc Hx].
  apply negb_true_iff in Hc.
  cbn [app splitFrom]. rewrite (matchAt_reSpaces_no b c _ Hc).
  rewrite IH by assumption. cbn [rev]. now rewrite <- !app_assoc.
Qed.

Lemma join_head (x : str) l :
  x <> [] -> forallb (fun c => negb (isSpace c)) x = true ->
  headIsSpace (join (lit " ") (x :: l)) = false.
Proof.
  intros Hne Hx. destruct x as [|c x]; [now elim Hne|].
  cbn [forallb] in Hx. apply andb_true_iff in Hx as [Hc _].
  apply negb_true_iff in Hc. destruct l; cbn [join app headIsSpace]; exact Hc.
Qed.

Lemma splitFrom_join x l cur b :
  Forall (fun y => y <> [] /\ forallb (fun c => negb (isSpace c)) y = true) (x :: l) ->
  splitFrom reSpaces 0 cur b (join (lit " ") (x :: l)) = (rev cur ++ x) :: l.
Proof.
  revert x cur b. induction l as [|y l IH]; intros x cur b H.
  - apply Forall_cons_iff in H as [[_ Hx] _]. cbn [join].
    rewrite <- (app_nil_r x) at 1. rewrite splitFrom_word by assumption.
    cbn [splitFrom]. now rewrite rev_app_distr, rev_involutive.
  - apply Forall_cons_iff in H as [[_ Hx] H].
    change (join (lit " ") (x :: y :: l)) with (x ++ 32 :: join (lit " ") (y :: l)).
    rewrite splitFrom_word by assumption. cbn [splitFrom].
    pose proof H as H'. apply Forall_cons_iff in H' as [[Hy0 Hy] _].
    rewrite matchAt_reSpaces_one by now apply join_head.
    cbn [matched length]. rewrite IH by assumption.
    now rewrite rev_app_distr, rev_involutive.
Qed.

Lemma split_join_tags l :
  Forall (fun y => y <> [] /\ forallb (fun c => negb (isSpace c)) y = true) l ->
  filter (fun s => negb (str_eqb s [])) (split reSpaces (join (lit " ") l)) = l.
Proof.
  intros H. destruct l as [|x l]; [reflexivity|].
  assert (Hj : join (lit " ") (x :: l) <> []).
  { apply Forall_cons_iff in H as [[Hx _] _].
    destruct x; [now elim Hx|]. destruct l; discriminate. }
  unfold split. destruct (join (lit " ") (x :: l)) as [|c j] eqn:E; [now elim Hj|].
  rewrite <- E, splitFrom_join by assumption. cbn [rev app].
  apply filter_all. eapply Forall_impl; [|exact H]. cbn beta.
  intros y [Hy _]. apply negb_true_iff.
  destruct (str_eqb y []) eqn:Ey; [|reflexivity]. now apply str_eqb_eq in Ey.
Qed.

Lemma stripPlus_plus n : stripPlus (43 :: n) = n.
Proof.
  unfold stripPlus, replace, rePlusPrefix. rewrite exec_bol. reflexivity.
Qed.

Lemma includesStr_In x a : includesStr x a = true <-> In x a.
Proof.
  unfold includesStr. rewrite existsb_exists. split.
  - intros (y & Hy & E). apply str_eqb_eq in E. now subst.
  - intros H. exists x. split; [assumption | apply str_eqb_refl].
Qed.

(** The tag list of a parsed task holds the names of the tags of its
    text. *)
Lemma tagListOf_parsed (model : Model) t n :
  In t (parseTasks (Some model)) ->
  In n (tagListOf t) <-> In (43 :: n) (matchAll reTag (text t)).
Proof.
  intros Ht. apply parseLoop_In in Ht as (j & line & lh & lc & m & _ & _ & _ & ->).
  unfold tagListOf. cbn [taskOfMatch tags text].
  set (tg := matchAll reTag (group 3 m)).
  assert (Hshape : forall x, In x tg ->
            exists name, x = 43 :: name /\ name <> [] /\
                         forallb isWordOrHyphen name = true)
    by (intros x; apply tag_shape).
  rewrite split_join_tags.
  - rewrite in_map_iff. split.
    + intros (x & E & Hx). destruct (Hshape x Hx) as (name & -> & _).
      rewrite stripPlus_plus in E. now subst.
    + intros H. exists (43 :: n). split; [apply stripPlus_plus | assumption].
  - apply Forall_forall. intros x Hx. destruct (Hshape x Hx) as (name & -> & _ & Hn).
    split; [discriminate|]. cbn [forallb]. change (isSpace 43) with false. cbn [negb andb].
    rewrite forallb_forall in *. intros c Hc. apply negb_true_iff.
    apply wordOrHyphen_not_space. now apply Hn.
Qed.

Lemma parsed_status (model : Model) t :
  In t (parseTasks (Some model)) -> In (status t) statusNames.
Proof.
  intros H. apply parseLoop_In in H as (j & line & lh & lc & m & _ & _ & _ & ->).
  rewrite status_taskOfMatch. apply statusOfChar_name.
Qed.

Lemma parsed_priority (model : Model) t p :
  In t (parseTasks (Some model)) -> priority t = Some p ->
  In p [lit "a"; lit "b"; lit "c"].
Proof.
  intros H. apply parseLoop_In in H as (j & line & lh & lc & m & _ & _ & _ & ->).
  cbn [taskOfMatch priority]. intros Hp.
  destruct (exec rePrio (group 3 m)) as [pm|] eqn:E; [|discriminate].
  exact (exec_rePrio_sound _ _ _ E Hp).
Qed.

Lemma asciiLower_lower s :
  forallb (fun c => (97 <=? c) && (c <=? 122)) s = true -> asciiLower s = s.
Proof.
  induction s as [|c s IH]; [reflexivity|]. cbn [forallb asciiLower map].
  intros H. apply andb_true_iff in H as [Hc H]. fold (asciiLower s). rewrite (IH H).
  apply andb_true_iff in Hc as [Hc _]. apply N.leb_le in Hc.
  replace (c <=? 90) with false by (symmetry; apply N.leb_gt; lia).
  now rewrite andb_false_r.
Qed.

(** X19: which tasks the filtered board shows.  A parsed task is shown
    exactly when its status is among the chosen statuses, its priority is
    among the chosen priorities, and for every chosen tag the text of the
    task holds that tag, written with a plus sign; a leading plus sign of a
    chosen tag is ignored, and an empty choice does not filter.  The
    priority part assumes what holds in use: lower-case letters are kept by
    [toLowerCase] and no chosen priority is empty. *)
Theorem kanban_filter_shows (toLowerCase : str -> str) (f : KanbanFilters)
    (model : Model) (t : Task) :
  (forall s, forallb (fun c => (97 <=? c) && (c <=? 122)) s = true ->
             toLowerCase s = s) ->
  ~ In [] (fPriorities f) ->
  (In t (applyFilters toLowerCase f (parseTasks (Some model))) <->
   In t (parseTasks (Some model)) /\
   (fStatuses f = [] \/ In (status t) (fStatuses f)) /\
   (fPriorities f = [] \/ exists p, priority t = Some p /\ In p (fPriorities f)) /\
   (forall g, In g (fTags f) -> In (43 :: stripPlus g) (matchAll reTag (text t)))).
Proof.
  intros Hlow Hne. unfold applyFilters.
  set (P := parseTasks (Some model)).
  assert (Hs : forall l,
            In t (match fStatuses f with
                  | [] => l
                  | _ :: _ => filter (fun t => includesStr (status t) (fStatuses f)) l
                  end)
            <-> In t l /\ (fStatuses f = [] \/ In (status t) (fStatuses f))).
  { intros l. destruct (fStatuses f) as [|s0 ss] eqn:E.
    - split; [intros H; split; [assumption | now left] | now intros [H _]].
    - rewrite filter_In, includesStr_In. split; intros [H1 H2]; split; try assumption.
      + now right.
      + destruct H2 as [H2|H2]; [discriminate | assumption]. }
  assert (Hp : forall l,
            (forall u, In u l -> In u P) ->
            In t (match fPriorities f with
                  | [] => l
                  | _ :: _ =>
                      filter (fun t => includesStr
                                         (toLowerCase (match priority t with
                                                       | Some p => p
                                                       | None => []
                                                       end))
                                         (fPriorities f)) l
                  end)
            <-> In t l /\ (fPriorities f = [] \/
                           exists p, priority t = Some p /\ In p (fPriorities f))).
  { intros l Hl. destruct (fPriorities f) as [|p0 ps] eqn:E.
    - split; [intros H; split; [assumption | now left] | now intros [H _]].
    - rewrite filter_In, includesStr_In. split; intros [H1 H2]; split; try assumption.
      + right. destruct (priority t) as [p|] eqn:Ep.
        * exists p. split; [reflexivity|].
          assert (Hin : In p [lit "a"; lit "b"; lit "c"])
            by (apply (parsed_priority model t p); [now apply Hl | assumption]).
          rewrite Hlow in H2; [assumption|].
          destruct Hin as [<-|[<-|[<-|[]]]]; reflexivity.
        * rewrite Hlow in H2 by reflexivity. now elim Hne.
      + destruct H2 as [H2|(p & Ep & H2)]; [discriminate|]. rewrite Ep.
        assert (Hin : In p [lit "a"; lit "b"; lit "c"])
          by (apply (parsed_priority model t p); [now apply Hl | assumption]).
        rewrite Hlow; [assumption|].
        destruct Hin as [<-|[<-|[<-|[]]]]; reflexivity. }
  assert (Hsub : forall u,
            In u (match fStatuses f with
                  | [] => P
                  | _ :: _ => filter (fun t => includesStr (status t) (fStatuses f)) P
                  end) -> In u P).
  { intros u. destruct (fStatuses f); [easy|]. rewrite filter_In. now intros [H _]. }
  destruct (fTags f) as [|g0 gs] eqn:Eg.
  - rewrite (Hp _ Hsub), Hs. split.
    + intros [[H1 H2] H3]. repeat split; try assumption. intros g [].
    + intros (H1 & H2 & H3 & _). now repeat split.
  - rewrite filter_In, (Hp _ Hsub), Hs, forallb_forall. split.
    + intros [[[H1 H2] H3] H4]. repeat split; try assumption.
      intros g Hg. apply (tagListOf_parsed model t _ H1), includesStr_In. now apply H4.
    + intros (H1 & H2 & H3 & H4). repeat split; try assumption.
      intros g Hg. apply includesStr_In, (tagListOf_parsed model t _ H1). now apply H4.
Qed.

Lemma kanban_filter_shows_witness :
  In demoTask
     (applyFilters asciiLower (mkKanbanFilters [lit "+doc"] [lit "b"; lit "c"] [])
                   (parseTasks (Some demoModel))) <->
  In demoTask (parseTasks (Some demoModel)) /\
  (fStatuses (mkKanbanFilters [lit "+doc"] [lit "b"; lit "c"] []) = [] \/
   In (status demoTask) (fStatuses (mkKanbanFilters [lit "+doc"] [lit "b"; lit "c"] []))) /\
  (fPriorities (mkKanbanFilters [lit "+doc"] [lit "b"; lit "c"] []) = [] \/
   exists p, priority demoTask = Some p /\
             In p (fPriorities (mkKanbanFilters [lit "+doc"] [lit "b"; lit "c"] []))) /\
  (forall g, In g (fTags (mkKanbanFilters [lit "+doc"] [lit "b"; lit "c"] [])) ->
             In (43 :: stripPlus g) (matchAll reTag (text demoTask))).
Proof.
  apply (kanban_filter_shows asciiLower
           (mkKanbanFilters [lit "+doc"] [lit "b"; lit "c"] []) demoModel demoTask).
  - exact asciiLower_lower.
  - cbn. intros [H|[H|[]]]; discriminate H.
Defined.

Lemma applyFilters_incl toLowerCase f l t :
  In t (applyFilters toLowerCase f l) -> In t l.
Proof.
  unfold applyFilters.
  destruct (fTags f); [|rewrite filter_In; intros [H _]; revert H];
    (destruct (fPriorities f); [|rewrite filter_In; intros [H _]; revert H]);
    (destruct (fStatuses f); [|rewrite filter_In; intros [H _]; revert H]); auto.
Qed.

Lemma columns_length (l : list Task) :
  Forall (fun t => In (status t) statusNames) l ->
  (length (filter (fun t => str_eqb (status t) (lit "backlog")) l)
   + length (filter (fun t => str_eqb (status t) (lit "inprogress")) l)
   + length (filter (fun t => str_eqb (status t) (lit "done")) l))%nat = length l.
Proof.
  induction 1 as [|t l Ht _ IH]; [reflexivity|]. cbn [filter length].
  destruct Ht as [<-|[<-|[<-|[]]]];
    repeat match goal with
           | |- context [str_eqb ?a ?b] =>
               let v := eval vm_compute in (str_eqb a b) in
               change (str_eqb a b) with v
           end;
    cbn [length]; lia.
Qed.

(** X20: the three columns of the board share out the shown tasks by
    status: each column holds, in document order, the shown tasks of its
    status, so every shown task has exactly one card, and a zone with
    another name gets no card. *)
Theorem kanban_columns (toLowerCase : str -> str) (f : KanbanFilters)
    (model : Model) (zone : str) :
  (In zone statusNames ->
   renderKanban toLowerCase f (Some model) zone
   = filter (fun t => str_eqb (status t) zone)
            (applyFilters toLowerCase f (parseTasks (Some model)))) /\
  (~ In zone statusNames -> renderKanban toLowerCase f (Some model) zone = []) /\
  (length (renderKanban toLowerCase f (Some model) (lit "backlog"))
   + length (renderKanban toLowerCase f (Some model) (lit "inprogress"))
   + length (renderKanban toLowerCase f (Some model) (lit "done")))%nat
  = length (applyFilters toLowerCase f (parseTasks (Some model))).
Proof.
  unfold renderKanban.
  set (shown := applyFilters toLowerCase f (parseTasks (Some model))).
  assert (Hst : Forall (fun t => In (status t) statusNames) shown).
  { apply Forall_forall. intros t Ht. apply applyFilters_incl in Ht.
    now apply (parsed_status model). }
  assert (Hzone : forall z, filter (fun t => str_eqb (zoneOf t) z) shown
                            = filter (fun t => str_eqb (status t) z) shown).
  { intros z. apply filter_ext_in. intros t Ht. rewrite Forall_forall in Hst.
    unfold zoneOf. apply Hst, includesStr_In in Ht. now rewrite Ht. }
  rewrite !Hzone. split; [reflexivity|]. split.
  - intros Hz. apply filter_none. eapply Forall_impl; [|exact Hst]. cbn beta.
    intros t Ht. destruct (str_eqb (status t) zone) eqn:E; [|reflexivity].
    apply str_eqb_eq in E. subst zone. now elim Hz.
  - now apply columns_length.
Qed.

Lemma kanban_columns_witness :
  renderKanban asciiLower (mkKanbanFilters [] [] []) (Some demoModel) (lit "backlog")
  = filter (fun t => str_eqb (status t) (lit "backlog"))
           (applyFilters asciiLower (mkKanbanFilters [] [] [])
                         (parseTasks (Some demoModel))).
Proof.
  apply (proj1 (kanban_columns asciiLower (mkKanbanFilters [] [] []) demoModel
                  (lit "backlog"))).
  cbn. auto.
Defined.

(** ** Writing dates back from the Gantt view *)

Lemma exec_reFieldB_front name X post :
  headIsWord name = true -> isDate X = true -> headIsWord post = false ->
  exec (reFieldB name) (name ++ X ++ post) = Some (mkMatch [] (name ++ X) post []).
Proof.
  intros Hn HX Hp. unfold exec.
  pose proof (matchAt_reFieldB_complete name [] X post eq_refl Hn HX Hp) as E.
  cbn [rev] in E. destruct (name ++ X ++ post); cbn [search]; now rewrite E.
Qed.

Lemma dropWhile_app_idem p (a b : str) :
  dropWhile p (a ++ b) = dropWhile p (dropWhile p a ++ b).
Proof.
  induction a as [|c a IH]; [reflexivity|]. cbn [app dropWhile].
  destruct (p c) eqn:E; [exact IH|]. cbn [app dropWhile]. now rewrite E.
Qed.

Lemma orElse_idem a b : orElse (orElse a b) b = orElse a b.
Proof. destruct a; [destruct b |]; reflexivity. Qed.

(** Replacing a task line by another task line changes the record of that
    line and nothing else in the parse. *)
Lemma parseLoop_replace_task lines i lh lc j line line' m m' :
  nth_error lines j = Some line ->
  exec reHeading line = None -> exec reTask line = Some m ->
  exec reHeading line' = None -> exec reTask line' = Some m' ->
  parseLoop i lh lc (setNth j line' lines)
  = map (fun u => if (lineNumber u =? i + j + 1)%nat
                  then taskOfMatch (i + j) (heading u) (color u) m' else u)
        (parseLoop i lh lc lines).
Proof.
  intros Hn Hh Hm Hh' Hm'. revert i lh lc j Hn.
  induction lines as [|l lines IH]; intros i lh lc j Hn; [now destruct j|].
  destruct j as [|j]; cbn [nth_error setNth] in *.
  - injection Hn as ->. cbn [parseLoop]. rewrite Hh, Hm, Hh', Hm'. cbn [map].
    rewrite lineNumber_taskOfMatch, Nat.add_0_r, Nat.eqb_refl. f_equal.
    + unfold taskOfMatch. cbn [heading color]. now rewrite orElse_idem.
    + rewrite <- (map_id (parseLoop (S i) lh lc lines)) at 1.
      apply map_ext_in. intros u Hu.
      pose proof (parseLoop_lower (S i) lh lc lines) as L.
      rewrite Forall_forall in L. specialize (L u Hu).
      destruct (Nat.eqb_spec (lineNumber u) (i + 1)); [lia | reflexivity].
  - cbn [parseLoop]. replace (i + S j + 1)%nat with (S i + j + 1)%nat by lia.
    replace (i + S j)%nat with (S i + j)%nat by lia.
    destruct (exec reHeading l); [now apply (IH (S i))|].
    destruct (exec reTask l) as [m0|]; [|now apply (IH (S i))].
    cbn [map]. rewrite lineNumber_taskOfMatch.
    destruct (Nat.eqb_spec (i + 1) (S i + j + 1)); [lia|].
    f_equal. now apply (IH (S i)).
Qed.

Lemma start_date_no_due s :
  isDate s = true -> includes (lit "due:") (lit "start:" ++ s) = false.
Proof.
  intros Hs. change (lit "due:") with (100 :: lit "ue:").
  apply includes_no_head. intros x Hx. apply in_app_or in Hx as [Hx|Hx].
  - cbn in Hx. repeat destruct Hx as [<-|Hx]; try discriminate. destruct Hx.
  - now apply (dateText_not 100 s x eq_refl eq_refl (isDate_dateText _ Hs)).
Qed.

Lemma date_not_endsWith_space u s :
  isDate s = true -> endsWith (lit " ") (u ++ s) = false.
Proof.
  intros Hs. unfold endsWith. rewrite rev_app_distr.
  do 10 (destruct s as [|? s]; [discriminate|]). destruct s; [|discriminate].
  cbn [isDate] in Hs. apply andb_true_iff in Hs as [_ Hs].
  cbn [rev app]. change (rev (lit " ")) with [32]. cbn [startsWith].
  destruct (32 =? n8) eqn:E; [|reflexivity].
  apply N.eqb_eq in E. subst n8. discriminate Hs.
Qed.

(** The two fields read from a text that ends with the two dated fields
    written by [updateTaskDatesAtLine]. *)
Lemma fields_after_text u0 s d :
  includes (lit "start:") u0 = false -> includes (lit "due:") u0 = false ->
  isDate s = true -> isDate d = true ->
  option_map matched
    (exec reStartB (u0 ++ 32 :: lit "start:" ++ s ++ lit " due:" ++ d))
  = Some (lit "start:" ++ s) /\
  option_map matched
    (exec reDueB (u0 ++ 32 :: lit "start:" ++ s ++ lit " due:" ++ d))
  = Some (lit "due:" ++ d).
Proof.
  intros Hst Hdu Hs Hd.
  assert (Hstart_sp : ~ In 32 (lit "start:"))
    by (intros H; cbn in H; repeat destruct H as [H|H]; try discriminate H; exact H).
  assert (Hdue_sp : ~ In 32 (lit "due:"))
    by (intros H; cbn in H; repeat destruct H as [H|H]; try discriminate H; exact H).
  change reStartB with (reFieldB (lit "start:")).
  change reDueB with (reFieldB (lit "due:")). split.
  - now rewrite exec_reFieldB_appended.
  - replace (u0 ++ 32 :: lit "start:" ++ s ++ lit " due:" ++ d)
      with ((u0 ++ 32 :: lit "start:" ++ s) ++ 32 :: lit "due:" ++ d ++ [])
      by (rewrite app_nil_r, <- app_assoc; cbn [app]; now rewrite <- app_assoc).
    rewrite exec_reFieldB_appended; try assumption; try reflexivity.
    apply includes_app_space; try assumption; [discriminate|].
    now apply start_date_no_due.
Qed.

Lemma fields_at_front s d :
  isDate s = true -> isDate d = true ->
  option_map matched (exec reStartB (lit "start:" ++ s ++ lit " due:" ++ d))
  = Some (lit "start:" ++ s) /\
  option_map matched (exec reDueB (lit "start:" ++ s ++ lit " due:" ++ d))
  = Some (lit "due:" ++ d).
Proof.
  intros Hs Hd.
  change reStartB with (reFieldB (lit "start:")).
  change reDueB with (reFieldB (lit "due:")). split.
  - now rewrite exec_reFieldB_front.
  - replace (lit "start:" ++ s ++ lit " due:" ++ d)
      with ((lit "start:" ++ s) ++ 32 :: lit "due:" ++ d ++ [])
      by (rewrite app_nil_r, <- app_assoc; reflexivity).
    rewrite exec_reFieldB_appended; try assumption; try reflexivity.
    + intros H; cbn in H; repeat destruct H as [H|H]; try discriminate H; exact H.
    + now apply start_date_no_due.
Qed.

Lemma dates_appended line s d :
  includes (lit "start:") line = false -> includes (lit "due:") line = false ->
  isDate s = true -> isDate d = true ->
  setDue d (setStart s line)
  = line ++ (if endsWith (lit " ") line then [] else lit " ")
         ++ lit "start:" ++ s ++ lit " due:" ++ d.
Proof.
  intros Hst Hdu Hs Hd.
  assert (E1 : setStart s line
               = line ++ (if endsWith (lit " ") line then [] else lit " ")
                      ++ lit "start:" ++ s).
  { unfold setStart, test. change reStartB with (reFieldB (lit "start:")).
    now rewrite exec_reFieldB_none. }
  rewrite E1. unfold setDue, test. change reDueB with (reFieldB (lit "due:")).
  rewrite exec_reFieldB_none.
  - replace (line ++ (if endsWith (lit " ") line then [] else lit " ") ++ lit "start:" ++ s)
      with ((line ++ (if endsWith (lit " ") line then [] else lit " ") ++ lit "start:") ++ s)
      by (now rewrite <- !app_assoc).
    rewrite date_not_endsWith_space by assumption.
    rewrite <- !app_assoc. reflexivity.
  - assert (Hsp : ~ In 32 (lit "due:"))
      by (intros H; cbn in H; repeat destruct H as [H|H]; try discriminate H; exact H).
    destruct (endsWith (lit " ") line) eqn:E.
    + apply endsWith_space_split in E as [l ->]. rewrite <- app_assoc. cbn [app].
      apply includes_app_space; try assumption; [discriminate | |].
      * now apply includes_false_app_l in Hdu.
      * now apply start_date_no_due.
    + change (lit " " ++ ?x) with (32 :: x).
      apply includes_app_space; try assumption; [discriminate|].
      now apply start_date_no_due.
Qed.

(** The task line with the two dates appended is a task line again; its
    text is the old text followed by the dates, read back as the two
    fields. *)
Lemma dated_line_task line ind bul ws st rest s d :
  checkboxPrefix isBullet line = Some (ind, bul, ws, st, rest) ->
  forallb isDot (dropWhile isSpace rest) = true ->
  includes (lit "start:") line = false -> includes (lit "due:") line = false ->
  isDate s = true -> isDate d = true ->
  exec reHeading (setDue d (setStart s line)) = None /\
  exists m',
    exec reTask (setDue d (setStart s line)) = Some m' /\
    group 2 m' = [st] /\
    group 3 m'
    = trimStart (dropWhile isSpace rest
                 ++ (if endsWith (lit " ") line then [] else lit " ")
                 ++ lit "start:" ++ s ++ lit " due:" ++ d) /\
    option_map matched (exec reStartB (group 3 m')) = Some (lit "start:" ++ s) /\
    option_map matched (exec reDueB (group 3 m')) = Some (lit "due:" ++ d).
Proof.
  intros Hp Hdot Hst Hdu Hs Hd.
  rewrite dates_appended by assumption.
  set (sep := if endsWith (lit " ") line then [] else lit " ").
  set (F := lit "start:" ++ s ++ lit " due:" ++ d).
  pose proof (checkboxPrefix_shape isBullet line ind bul ws st rest Hp)
    as (Hl & Hi & Hb & Hw & Hsc).
  assert (Hl' : line ++ sep ++ F = ind ++ bul :: ws ++ 91 :: st :: 93 :: (rest ++ sep ++ F)).
  { rewrite Hl at 1. rewrite <- !app_assoc. cbn [app]. now rewrite <- !app_assoc. }
  rewrite Hl'.
  pose proof (checkboxPrefix_intro isBullet space_not_bullet ind bul ws st
                (rest ++ sep ++ F) Hi Hb Hw Hsc) as Hp'.
  split; [exact (checkbox_not_heading _ _ Hp')|].
  assert (HF : forallb isDot F = true).
  { unfold F. rewrite !forallb_app.
    rewrite (dateText_isDot s (isDate_dateText _ Hs)).
    now rewrite (dateText_isDot d (isDate_dateText _ Hd)). }
  assert (Hsep : forallb isDot sep = true) by (unfold sep; now destruct (endsWith _ _)).
  assert (Hsepsp : forallb isSpace sep = true)
    by (unfold sep; now destruct (endsWith _ _)).
  assert (HdF : dropWhile isSpace F = F) by reflexivity.
  rewrite exec_reTask_exact, Hp'.
  rewrite (dropWhile_app_idem isSpace rest).
  set (R0 := dropWhile isSpace rest) in *.
  assert (Hall : forallb isDot (dropWhile isSpace (R0 ++ sep ++ F)) = true).
  { apply forallb_dropWhile. now rewrite !forallb_app, Hdot, Hsep, HF. }
  rewrite Hall. eexists. split; [reflexivity|].
  unfold group. cbn [groups cap Nat.eqb].
  split; [reflexivity|]. split; [now rewrite trimStart_dropWhile|].
  destruct R0 as [|c R0'] eqn:ER.
  - (* no text: the fields open the text *)
    cbn [app]. rewrite (dropWhile_app_idem isSpace sep), (dropWhile_all isSpace sep Hsepsp).
    cbn [app]. rewrite HdF. now apply fields_at_front.
  - assert (Hc : isSpace c = false).
    { unfold R0 in ER. clear -ER. induction rest as [|x rest IH]; [discriminate|].
      cbn [dropWhile] in ER. destruct (isSpace x) eqn:E; [now apply IH|].
      injection ER as <- _. exact E. }
    cbn [app dropWhile]. rewrite Hc.
    assert (Hsuf : exists P, line = P ++ c :: R0').
    { exists (ind ++ bul :: ws ++ 91 :: st :: 93 :: takeWhile isSpace rest).
      rewrite Hl at 1. rewrite <- (takeWhile_dropWhile isSpace rest) at 1.
      fold R0. rewrite ER. rewrite <- !app_assoc. cbn [app]. now rewrite <- !app_assoc. }
    destruct Hsuf as (P & HP).
    assert (HstR : includes (lit "start:") (c :: R0') = false)
      by (rewrite HP in Hst; now apply includes_suffix in Hst).
    assert (HduR : includes (lit "due:") (c :: R0') = false)
      by (rewrite HP in Hdu; now apply includes_suffix in Hdu).
    assert (HU : exists u0, c :: R0' ++ sep = u0 ++ [32] /\
                            includes (lit "start:") u0 = false /\
                            includes (lit "due:") u0 = false).
    { unfold sep. destruct (endsWith (lit " ") line) eqn:E.
      - apply endsWith_space_split in E as [l El]. rewrite app_nil_r.
        destruct (exists_last (l := c :: R0')) as (u0 & x & Eu); [discriminate|].
        exists u0. rewrite Eu in HP. rewrite El, app_assoc in HP.
        apply app_inj_tail in HP as [_ <-]. rewrite Eu in HstR, HduR. rewrite Eu.
        repeat split.
        + now apply includes_false_app_l in HstR.
        + now apply includes_false_app_l in HduR.
      - exists (c :: R0'). now repeat split. }
    destruct HU as (u0 & Eu & Hu1 & Hu2).
    replace (c :: R0' ++ sep ++ F) with ((c :: R0' ++ sep) ++ F)
      by (cbn [app]; now rewrite <- app_assoc).
    rewrite Eu, <- app_assoc. cbn [app]. now apply fields_after_text.
Qed.

Lemma sorted_key_inj {A} (f : A -> nat) (l : list A) a b :
  StronglySorted lt (map f l) -> In a l -> In b l -> f a = f b -> a = b.
Proof.
  induction l as [|x l IH]; cbn [map]; intros Hs Ha Hb E; [easy|].
  apply StronglySorted_inv in Hs as [Hs Hx]. rewrite Forall_map, Forall_forall in Hx.
  destruct Ha as [<-|Ha]; destruct Hb as [<-|Hb].
  - reflexivity.
  - specialize (Hx _ Hb). lia.
  - specialize (Hx _ Ha). lia.
  - now apply IH.
Qed.

(** X21: dragging the bar of a task that has no dates yet.  When the line
    of a parsed task holds neither "start:" nor "due:",
    [updateTaskDatesAtLine] appends both fields to it, and a fresh parse
    shows the same tasks with one change: the record of that line has the
    two dates as its start and due fields and the appended fields at the
    end of its text; its id, line, status, heading and colour stay. *)
Theorem dates_writeback_then_parse (model : Model) (t : Task) (line s d : str) :
  In t (parseTasks (Some model)) ->
  getLineContent model (lineNumber t) = Some line ->
  includes (lit "start:") line = false -> includes (lit "due:") line = false ->
  isDate s = true -> isDate d = true ->
  exists model' t',
    updateTaskDatesAtLine model (lineNumber t) s d = Some model' /\
    parseTasks (Some model')
    = map (fun u => if (lineNumber u =? lineNumber t)%nat then t' else u)
          (parseTasks (Some model)) /\
    id t' = id t /\ lineNumber t' = lineNumber t /\ status t' = status t /\
    heading t' = heading t /\ color t' = color t /\
    text t'
    = trimStart (text t ++ (if endsWith (lit " ") line then [] else lit " ")
                        ++ lit "start:" ++ s ++ lit " due:" ++ d) /\
    start t' = Some (lit "start:" ++ s) /\ due t' = Some (lit "due:" ++ d).
Proof.
  intros Ht Hline Hst Hdu Hs Hd.
  pose proof Ht as Ht0.
  apply parseTasks_In in Ht
    as (j & line0 & m & ind & bul & ws & st & rest & lh & lc
        & Hln & Hj & Hh & Hm & Et & Hp & Hstat).
  rewrite Hln in *. rewrite getLineContent_succ, Hj in Hline. injection Hline as ->.
  pose proof Hm as Hm0. rewrite exec_reTask_exact, Hp in Hm0.
  destruct (forallb isDot (dropWhile isSpace rest)) eqn:Hdot; [|discriminate].
  injection Hm0 as Em.
  destruct (dated_line_task line ind bul ws st rest s d Hp Hdot Hst Hdu Hs Hd)
    as (Hh' & m' & Hm' & G2 & G3 & Fs & Fd).
  exists (setNth j (setDue d (setStart s line)) model),
         (taskOfMatch j (heading t) (color t) m').
  split.
  { unfold updateTaskDatesAtLine. rewrite getLineContent_succ, Hj.
    now replace (j + 1)%nat with (S j) by lia. }
  split.
  { unfold parseTasks.
    rewrite (parseLoop_replace_task model 0 None defaultColor j line _ m m'
               Hj Hh Hm Hh' Hm').
    apply map_ext_in. intros u Hu. cbn [Nat.add].
    destruct (Nat.eqb_spec (lineNumber u) (j + 1)) as [E|E]; [|reflexivity].
    assert (u = t); [|now subst u].
    apply (sorted_key_inj lineNumber (parseTasks (Some model))); try assumption.
    - apply parseLoop_sorted.
    - now rewrite Hln. }
  rewrite Et. cbn [taskOfMatch id lineNumber status heading color text start due].
  repeat split.
  - now rewrite G2, <- Em.
  - apply orElse_idem.
  - rewrite G3. now rewrite <- Em.
  - exact Fs.
  - exact Fd.
Qed.

Lemma dates_writeback_then_parse_witness :
  exists model' t',
    updateTaskDatesAtLine demoModel (lineNumber demoPending)
                          (lit "2025-01-02") (lit "2025-01-20") = Some model' /\
    parseTasks (Some model')
    = map (fun u => if (lineNumber u =? lineNumber demoPending)%nat then t' else u)
          (parseTasks (Some demoModel)) /\
    id t' = id demoPending /\ lineNumber t' = lineNumber demoPending /\
    status t' = status demoPending /\
    heading t' = heading demoPending /\ color t' = color demoPending /\
    text t'
    = trimStart (text demoPending
                 ++ (if endsWith (lit " ") (lit "- [ ] call Bob") then [] else lit " ")
                 ++ lit "start:" ++ lit "2025-01-02" ++ lit " due:" ++ lit "2025-01-20") /\
    start t' = Some (lit "start:" ++ lit "2025-01-02") /\
    due t' = Some (lit "due:" ++ lit "2025-01-20").
Proof.
  apply (dates_writeback_then_parse demoModel demoPending (lit "- [ ] call Bob")
           (lit "2025-01-02") (lit "2025-01-20")).
  - vm_compute. auto.
  - reflexivity.
  - reflexivity.
  - reflexivity.
  - reflexivity.
  - reflexivity.
Defined.

(** ** A new task at the end of the document *)

Lemma exec_reHeading_nil : exec reHeading [] = None.
Proof. reflexivity. Qed.

Lemma exec_reTask_nil : exec reTask [] = None.
Proof. reflexivity. Qed.

(** An empty last line adds nothing to the parse. *)
Lemma parse_trailing_blank (pre : Model) :
  parseTasks (Some (pre ++ [[]])) = parseTasks (Some pre).
Proof.
  unfold parseTasks.
  pose proof (parseLoop_app [] pre [[]]) as H.
  cbn [app rev length nearestHeading nearestColor] in H. rewrite H.
  cbn [parseLoop]. rewrite exec_reHeading_nil, exec_reTask_nil. apply app_nil_r.
Qed.

Lemma model_last_line (model : Model) l :
  getLineContent model (length model) = Some l ->
  model = removelast model ++ [l] /\ last model [] = l.
Proof.
  destruct model as [|x pre] using rev_ind; [discriminate|].
  rewrite length_app, Nat.add_1_r. cbn [length getLineContent].
  rewrite nth_error_app2, Nat.sub_diag by lia. cbn [nth_error].
  intros H; injection H as ->. now rewrite removelast_last, last_last.
Qed.

Lemma setNth_last (pre : Model) l x : setNth (length pre) x (pre ++ [l]) = pre ++ [x].
Proof.
  induction pre as [|y pre IH]; [reflexivity|]. cbn [length app setNth]. now rewrite IH.
Qed.

Lemma dropWhile_app_stop p (a b : str) c :
  p c = false -> dropWhile p (a ++ c :: b) = dropWhile p a ++ c :: b.
Proof.
  intros Hc. induction a as [|x a IH]; cbn [app dropWhile].
  - now rewrite Hc.
  - destruct (p x); [exact IH | reflexivity].
Qed.

(** The line the dialog writes holds no line terminator. *)
Lemma dialog_line_isDot txt s d :
  forallb isDot txt = true ->
  (s = [] \/ isDate s = true) -> (d = [] \/ isDate d = true) ->
  forallb isDot (newTaskLineText txt s d) = true.
Proof.
  intros Hdot Hs Hd. rewrite newTaskLineText_body. unfold dialogBody.
  assert (HdotS : forallb isDot s = true).
  { destruct Hs as [->|Hs]; [reflexivity|]. now apply dateText_isDot, isDate_dateText. }
  assert (HdotD : forallb isDot d = true).
  { destruct Hd as [->|Hd]; [reflexivity|]. now apply dateText_isDot, isDate_dateText. }
  assert (Hopt : forall sep x : str,
            forallb isDot sep = true -> forallb isDot x = true ->
            forallb isDot (match x with [] => [] | _ :: _ => sep ++ x end) = true).
  { intros sep x H1 H2. destruct x; [reflexivity|].
    now rewrite forallb_app, H1, H2. }
  rewrite !forallb_app, Hdot.
  rewrite !Hopt by (assumption || reflexivity). reflexivity.
Qed.

(** A task line with a text appended that holds no line terminator and
    starts with a character other than whitespace: still a task line, with
    the text appended to the text of the task. *)
Lemma task_line_glued line m x c r :
  exec reTask line = Some m -> x = c :: r -> isSpace c = false ->
  forallb isDot x = true ->
  exec reHeading (line ++ x) = None /\
  exists m', exec reTask (line ++ x) = Some m' /\
             group 2 m' = group 2 m /\ group 3 m' = group 3 m ++ x.
Proof.
  intros Hm -> Hc Hx. rewrite exec_reTask_exact in Hm.
  destruct (checkboxPrefix isBullet line) as [[[[[ind bul] ws] st] rest]|] eqn:Hp;
    [|discriminate].
  destruct (forallb isDot (dropWhile isSpace rest)) eqn:Hd; [|discriminate].
  injection Hm as <-.
  apply checkboxPrefix_shape in Hp as (Hl & Hind & Hbul & Hws & Hst).
  assert (Hp' : checkboxPrefix isBullet (line ++ c :: r)
                = Some (ind, bul, ws, st, rest ++ c :: r)).
  { rewrite Hl.
    replace ((ind ++ bul :: ws ++ 91 :: st :: 93 :: rest) ++ c :: r)
      with (ind ++ bul :: ws ++ 91 :: st :: 93 :: (rest ++ c :: r))
      by (rewrite <- !app_assoc; cbn [app]; rewrite <- !app_assoc; reflexivity).
    apply (checkboxPrefix_intro isBullet space_not_bullet); assumption. }
  split; [exact (checkbox_not_heading _ _ Hp')|].
  rewrite exec_reTask_exact, Hp', (dropWhile_app_stop isSpace rest r c Hc).
  rewrite forallb_app, Hd, Hx. eexists. split; [reflexivity|].
  split; reflexivity.
Qed.

(** The heading in force at a line of the section of a heading: that
    heading, or a deeper one between it and the line. *)
Lemma section_heading_above (model : Model) j hl h k :
  nth_error model j = Some hl -> exec reHeading hl = Some h ->
  (j < k)%nat ->
  (forall k0 line l, (S j + k0 < k)%nat -> nth_error (skipn (S j) model) k0 = Some line ->
                     headingLevelOf line = Some l -> (hashRun hl < l)%nat) ->
  nearestHeading (rev (firstn k model)) = Some (trim (group 2 h)) \/
  exists e', In e' (collectHeadings model) /\
             (j + 1 < hLine e' < k + 1)%nat /\
             (length (group 1 h) < hLevel e')%nat /\
             nearestHeading (rev (firstn k model)) = Some (trim (hTitle e')).
Proof.
  intros Hn Hh Hjk Hin.
  destruct (exec_reHeading_level _ _ Hh) as (Hg & Hl).
  assert (Hn1 : nth_error (firstn k model) j = Some hl).
  { rewrite nth_error_firstn. destruct (Nat.ltb_spec j k); [assumption | lia]. }
  destruct (nearestHeading_last _ _ _ _ Hn1 Hh) as (j' & line' & h' & Hb' & Hn' & Hh' & ->).
  rewrite length_firstn in Hb'.
  rewrite nth_error_firstn in Hn'.
  destruct (Nat.ltb_spec j' k) as [Hj'|]; [|lia].
  destruct (Nat.eq_dec j' j) as [->|Hneq].
  - left. rewrite Hn in Hn'. injection Hn' as <-. rewrite Hh in Hh'.
    injection Hh' as <-. reflexivity.
  - right.
    exists (mkHeadingEntry (0 + j' + 1) (length (group 1 h')) (group 2 h')).
    split; [now apply (collectLoop_complete 0 model j' line' h')|].
    cbn [hLine hLevel hTitle Nat.add]. split; [lia|]. split; [|reflexivity].
    destruct (exec_reHeading_level _ _ Hh') as (Hg' & Hl').
    rewrite Hg, Hg'. fold (hashRun hl) (hashRun line').
    apply (Hin (j' - S j)%nat line' (hashRun line')); [lia | | assumption].
    rewrite nth_error_skipn. now replace (S j + (j' - S j))%nat with j' by lia.
Qed.

(** X10: a task created by the dialog under a heading whose section runs
    to the end of the document.  The edit is then placed one below the last
    line, where the editor appends the text to the last line.  When the
    last line is empty, the usual case of a text that ends with a line
    break, the new line takes its place: the old tasks are as before and
    after them stands the new task, in the backlog, with the text typed and
    the dates chosen, under the chosen heading or a deeper heading of its
    section.  When the last line is a task line, no task is added: the
    line written is glued to that line, whose task keeps its place, status,
    heading and colour and gets the written line, checkbox included,
    appended to its text; every other task is as before.  This holds for a
    typed text without line terminators that does not itself hold "start:"
    or "due:". *)
Theorem dialog_task_at_document_end (model : Model) (e : HeadingEntry)
    (rawText metaStart metaDue : str) (line : str) :
  In e (collectHeadings model) ->
  createTaskFromDialog model (Some (hLine e)) rawText metaStart metaDue
  = Some ((length model + 1)%nat, line) ->
  forallb isDot rawText = true ->
  includes (lit "start:") (trim rawText) = false ->
  includes (lit "due:") (trim rawText) = false ->
  metaStart = [] \/ isDate metaStart = true ->
  metaDue = [] \/ isDate metaDue = true ->
  (getLineContent model (length model) = Some [] ->
   exists t,
     parseTasks (Some (insertLineBefore model (length model + 1) line))
     = parseTasks (Some model) ++ [t] /\
     lineNumber t = length model /\
     status t = lit "backlog" /\
     text t = dialogBody (trim rawText) metaStart metaDue /\
     start t = fieldOf (lit "start:") metaStart /\
     due t = fieldOf (lit "due:") metaDue /\
     (heading t = Some (trim (hTitle e)) \/
      exists e', In e' (collectHeadings model) /\
                 (hLine e < hLine e' < length model)%nat /\
                 (hLevel e < hLevel e')%nat /\
                 heading t = Some (trim (hTitle e')))) /\
  (forall u, In u (parseTasks (Some model)) -> lineNumber u = length model ->
   exists u',
     parseTasks (Some (insertLineBefore model (length model + 1) line))
     = map (fun v => if (lineNumber v =? length model)%nat then u' else v)
           (parseTasks (Some model)) /\
     id u' = id u /\ lineNumber u' = lineNumber u /\ status u' = status u /\
     heading u' = heading u /\ color u' = color u /\
     text u' = text u ++ line).
Proof.
  intros He Hc Hdot Hst Hdu Hs Hd.
  apply collectLoop_In in He as (j & hl & h & Hn & Hh & ->).
  cbn [hLine hLevel hTitle Nat.add] in *.
  destruct (exec_reHeading_level _ _ Hh) as (Hg & Hl).
  unfold createTaskFromDialog in Hc.
  destruct (trim rawText) as [|c0 x] eqn:Et; [discriminate|]. rewrite <- Et in *.
  assert (Hne : trim rawText <> []) by (rewrite Et; discriminate).
  replace (j + 1)%nat with (S j) in * by lia.
  unfold insertTaskUnderHeading in Hc. cbn [getLineContent] in Hc.
  rewrite Hn, Hl in Hc. injection Hc as Hat <-.
  change (findInsertAt (hashRun hl) (S j + 1) (skipn (S j) model)
          = (length model + 1)%nat) in Hat.
  destruct (findInsertAt_spec (hashRun hl) (S j + 1) (skipn (S j) model))
    as (_ & Hin & _).
  rewrite Hat in Hin.
  destruct (dialog_line_task (trim rawText) metaStart metaDue Hne (trim_fixed rawText)
              (forallb_trim isDot rawText Hdot) Hst Hdu Hs Hd) as (Hlh & m & Hm & Hf).
  pose proof (dialog_line_isDot (trim rawText) metaStart metaDue
                (forallb_trim isDot rawText Hdot) Hs Hd) as Hld.
  set (line := newTaskLineText (trim rawText) metaStart metaDue) in *.
  assert (Hedit : insertLineBefore model (length model + 1) line
                  = removelast model ++ [last model [] ++ line; []]).
  { unfold insertLineBefore.
    destruct (Nat.leb_spec (length model + 1) (length model)); [lia | reflexivity]. }
  rewrite Hedit. split.
  - (* the last line is empty *)
    intros Hlast. apply model_last_line in Hlast as (Hmodel & ->).
    remember (removelast model) as pre eqn:Epre. clear Epre. subst model.
    cbn [app]. rewrite length_app in *. cbn [length] in *.
    exists (taskOfMatch (length pre) (nearestHeading (rev pre)) (nearestColor (rev pre)) m).
    split.
    { rewrite parse_trailing_blank. unfold parseTasks.
      pose proof (parseLoop_app [] pre [line; []]) as H.
      cbn [app rev length nearestHeading nearestColor] in H. rewrite H.
      cbn [parseLoop]. now rewrite Hlh, Hm, exec_reHeading_nil, exec_reTask_nil. }
    split; [reflexivity|].
    destruct (Hf (length pre) (nearestHeading (rev pre)) (nearestColor (rev pre)))
      as (F1 & F2 & F3 & F4).
    repeat (split; [assumption|]).
    cbn [taskOfMatch heading].
    assert (Hpre : pre = firstn (length pre) (pre ++ [[]]))
      by now rewrite firstn_app, Nat.sub_diag, firstn_all, app_nil_r.
    assert (Hj : (j < length (pre ++ [[]]))%nat) by (apply nth_error_Some; congruence).
    rewrite length_app in Hj. cbn [length] in Hj.
    assert (Hjk : (j < length pre)%nat).
    { destruct (Nat.eq_dec j (length pre)) as [->|]; [|lia].
      rewrite nth_error_app2, Nat.sub_diag in Hn by lia.
      cbn [nth_error] in Hn. injection Hn as <-.
      rewrite exec_reHeading_nil in Hh. discriminate. }
    destruct (section_heading_above (pre ++ [[]]) j hl h (length pre) Hn Hh Hjk) as [E|E].
    + intros k0 l0 lv Hk0. apply Hin. lia.
    + left. now rewrite Hpre at 1.
    + right. destruct E as (e' & He' & Hb & Hlv & E). exists e'.
      split; [assumption|]. split; [lia|]. split; [assumption|].
      now rewrite Hpre at 1.
  - (* the last line is a task line *)
    intros u Hu Hline.
    pose proof Hu as Hu0.
    apply parseTasks_In in Hu
      as (j' & l & mu & ind & bul & ws & st & rest & lh & lc
          & Hln & Hj' & Hhu & Hmu & Eu & _ & _).
    assert (Hlen : length model = (j' + 1)%nat) by congruence.
    assert (Hlast : getLineContent model (length model) = Some l)
      by (rewrite Hlen; now rewrite getLineContent_succ).
    apply model_last_line in Hlast as (Hmodel & ->).
    remember (removelast model) as pre eqn:Epre. clear Epre. subst model.
    rewrite length_app in *. cbn [length] in *.
    assert (Hpre : length pre = j') by lia.
    assert (Eline : exists c r, line = c :: r /\ isSpace c = false).
    { unfold line. rewrite newTaskLineText_body. now eexists _, _. }
    destruct Eline as (c & r & Eline & Hc).
    destruct (task_line_glued l mu line c r Hmu Eline Hc Hld) as (Hh' & m' & Hm' & G2 & G3).
    exists (taskOfMatch j' (heading u) (color u) m').
    split.
    { replace (pre ++ [l ++ line; []]) with ((pre ++ [l ++ line]) ++ [[]])
        by now rewrite <- app_assoc.
      rewrite parse_trailing_blank, <- (setNth_last pre l (l ++ line)), Hpre.
      unfold parseTasks.
      rewrite (parseLoop_replace_task (pre ++ [l]) 0 None defaultColor j' l _ mu m'
                 Hj' Hhu Hmu Hh' Hm').
      apply map_ext_in. intros v Hv. cbn [Nat.add].
      destruct (Nat.eqb_spec (lineNumber v) (j' + 1)) as [E|E]; [|reflexivity].
      assert (v = u); [|now subst v].
      apply (sorted_key_inj lineNumber (parseTasks (Some (pre ++ [l])))); try assumption.
      - apply parseLoop_sorted.
      - now rewrite Hln. }
    rewrite Eu.
    cbn [taskOfMatch id lineNumber status heading color text].
    repeat split.
    + now rewrite G2.
    + apply orElse_idem.
    + exact G3.
Qed.

Lemma dialog_task_at_document_end_witness :
  (exists t,
     parseTasks (Some (insertLineBefore [lit "# Home"; lit "- [x] call"; []]
                         (length [lit "# Home"; lit "- [x] call"; []] + 1)
                         (lit "- [ ] buy milk +home due:2025-01-20")))
     = parseTasks (Some [lit "# Home"; lit "- [x] call"; []]) ++ [t] /\
     lineNumber t = length [lit "# Home"; lit "- [x] call"; []] /\
     status t = lit "backlog" /\
     text t = dialogBody (trim (lit "  buy milk +home ")) [] (lit "2025-01-20") /\
     start t = fieldOf (lit "start:") [] /\
     due t = fieldOf (lit "due:") (lit "2025-01-20") /\
     (heading t = Some (trim (hTitle (mkHeadingEntry 1 1 (lit "Home")))) \/
      exists e', In e' (collectHeadings [lit "# Home"; lit "- [x] call"; []]) /\
                 (hLine (mkHeadingEntry 1 1 (lit "Home")) < hLine e'
                  < length [lit "# Home"; lit "- [x] call"; []])%nat /\
                 (hLevel (mkHeadingEntry 1 1 (lit "Home")) < hLevel e')%nat /\
                 heading t = Some (trim (hTitle e')))) /\
  (exists u',
     parseTasks (Some (insertLineBefore [lit "# Home"; lit "- [x] call"]
                         (length [lit "# Home"; lit "- [x] call"] + 1)
                         (lit "- [ ] buy milk +home due:2025-01-20")))
     = map (fun v => if (lineNumber v =? length [lit "# Home"; lit "- [x] call"])%nat
                     then u' else v)
           (parseTasks (Some [lit "# Home"; lit "- [x] call"])) /\
     id u' = id (taskOfMatch 1 (Some (lit "Home")) defaultColor
                   (mkMatch [] (lit "- [x] call") []
                      [(3%nat, lit "call"); (2%nat, lit "x"); (1%nat, [])])) /\
     lineNumber u' = 2%nat /\ status u' = lit "done" /\
     heading u' = Some (lit "Home") /\ color u' = defaultColor /\
     text u' = lit "call" ++ lit "- [ ] buy milk +home due:2025-01-20").
Proof.
  split.
  - apply (proj1 (dialog_task_at_document_end [lit "# Home"; lit "- [x] call"; []]
                   (mkHeadingEntry 1 1 (lit "Home")) (lit "  buy milk +home ") []
                   (lit "2025-01-20") (lit "- [ ] buy milk +home due:2025-01-20")
                   (or_introl eq_refl) eq_refl eq_refl eq_refl eq_refl
                   (or_introl eq_refl) (or_intror eq_refl))).
    reflexivity.
  - apply (proj2 (dialog_task_at_document_end [lit "# Home"; lit "- [x] call"]
                   (mkHeadingEntry 1 1 (lit "Home")) (lit "  buy milk +home ") []
                   (lit "2025-01-20") (lit "- [ ] buy milk +home due:2025-01-20")
                   (or_introl eq_refl) eq_refl eq_refl eq_refl eq_refl
                   (or_introl eq_refl) (or_intror eq_refl))
             (taskOfMatch 1 (Some (lit "Home")) defaultColor
                (mkMatch [] (lit "- [x] call") []
                   [(3%nat, lit "call"); (2%nat, lit "x"); (1%nat, [])]))).
    + vm_compute. left; reflexivity.
    + reflexivity.
Defined.

(** ** The completion provider *)










(** ** Priority decorations *)

Lemma indexOfFrom_spec p s i k :
  indexOfFrom p s i = Some k ->
  (i <= k)%nat /\ startsWith p (skipn (k - i) s) = true /\
  forall j, (j < k - i)%nat -> startsWith p (skipn j s) = false.
Proof.
  revert i. induction s as [|c s IH]; intros i; cbn [indexOfFrom].
  - destruct (startsWith p []) eqn:E; [|discriminate]. intros H; injection H as <-.
    rewrite Nat.sub_diag. split; [lia|]. split; [assumption|]. intros j Hj. lia.
  - destruct (startsWith p (c :: s)) eqn:E.
    + intros H; injection H as <-. rewrite Nat.sub_diag.
      split; [lia|]. split; [assumption|]. intros j Hj. lia.
    + intros H. destruct (IH _ H) as (Hb & Hs & Hn).
      replace (k - i)%nat with (S (k - S i)) by lia. cbn [skipn].
      split; [lia|]. split; [assumption|].
      intros j Hj. destruct j as [|j]; [exact E|]. cbn [skipn]. apply Hn. lia.
Qed.

Lemma indexOf_includes p s :
  includes p s = true -> exists k, indexOf p s = Some k.
Proof.
  unfold indexOf. generalize 0%nat. induction s as [|c s IH]; intros i H.
  - cbn [includes] in H. cbn [indexOfFrom].
    destruct (startsWith p []); [now exists i | discriminate H].
  - cbn [includes] in H. cbn [indexOfFrom].
    destruct (startsWith p (c :: s)); [now exists i|]. now apply IH.
Qed.

Lemma priorityLoop_In i lines dc :
  In dc (priorityLoop i lines) <->
  exists j line k,
    nth_error lines j = Some line /\ decLine dc = (i + j + 1)%nat /\
    decStart dc = (k + 1)%nat /\ decEnd dc = (k + 4)%nat /\
    ((indexOf (lit "(b)") line = Some k /\ decClass dc = lit "prio-b") \/
     (indexOf (lit "(c)") line = Some k /\ decClass dc = lit "prio-c")).
Proof.
  revert i. induction lines as [|l lines IH]; intros i; cbn [priorityLoop].
  - split; [easy | now intros ([|j] & ? & ? & ? & _)].
  - rewrite !in_app_iff, IH. split.
    + intros [H|[H|(j & line & k & Hn & Hl & H)]].
      * destruct (indexOf (lit "(b)") l) as [k|] eqn:E; [|easy].
        destruct H as [<-|[]]. exists 0%nat, l, k. cbn.
        repeat split; try lia. now left.
      * destruct (indexOf (lit "(c)") l) as [k|] eqn:E; [|easy].
        destruct H as [<-|[]]. exists 0%nat, l, k. cbn.
        repeat split; try lia. now right.
      * exists (S j), line, k. cbn [nth_error]. split; [assumption|].
        split; [lia | exact H].
    + intros ([|j] & line & k & Hn & Hl & Hs & He & H); cbn [nth_error] in Hn.
      * injection Hn as ->. destruct dc as [dl ds de dcl].
        cbn [decLine decStart decEnd decClass] in *. subst dl ds de.
        destruct H as [[E ->]|[E ->]]; rewrite E.
        -- left. left. f_equal. lia.
        -- right. left. left. f_equal. lia.
      * right. right. exists j, line, k. repeat split; try assumption. lia.
Qed.

Lemma exec_rePrio_includes s pm p :
  exec rePrio s = Some pm -> cap 1 (groups pm) = Some p ->
  includes (40 :: p ++ [41]) s = true.
Proof.
  intros H. apply search_first in H as (u & v & -> & H & _).
  unfold matchAt, rePrio, Chr in H. cbn [run] in H.
  destruct v as [|c1 [|c2 [|c3 v]]]; try discriminate;
    destruct (40 =? c1) eqn:E1; try discriminate;
    destruct (isPrio c2) eqn:P; try discriminate.
  destruct (41 =? c3) eqn:E3; [|discriminate].
  apply N.eqb_eq in E1, E3. subst c1 c3.
  injection H as <-. cbn [groups cap Nat.eqb].
  change (c2 :: 40 :: ?x) with ([c2] ++ 40 :: x). rewrite span_app.
  intros E; injection E as <-. cbn [rev app].
  apply includes_app. cbn [startsWith]. now rewrite !N.eqb_refl.
Qed.

(** X23: the priority decorations agree with the parse.  Every decoration
    lies on a line of the document and covers exactly the text "(b)", with
    the class prio-b, or "(c)", with the class prio-c; and the line of
    every parsed task of priority b or c carries the decoration of that
    priority.  Priority a is never decorated. *)
Theorem priority_decorations (model : Model) :
  (forall dc, In dc (applyPriorityDecorations (Some model)) ->
     exists line,
       getLineContent model (decLine dc) = Some line /\
       ((decClass dc = lit "prio-b" /\ decorated line dc = lit "(b)") \/
        (decClass dc = lit "prio-c" /\ decorated line dc = lit "(c)"))) /\
  (forall t p, In t (parseTasks (Some model)) -> priority t = Some p ->
     p = lit "b" \/ p = lit "c" ->
     exists dc, In dc (applyPriorityDecorations (Some model)) /\
                decLine dc = lineNumber t /\ decClass dc = lit "prio-" ++ p).
Proof.
  split.
  - intros dc H. apply priorityLoop_In in H as (j & line & k & Hn & Hl & Hs & He & H).
    exists line. rewrite Hl. cbn [Nat.add]. rewrite getLineContent_succ.
    split; [assumption|]. unfold decorated. rewrite Hs, He.
    replace (k + 4 - (k + 1))%nat with 3%nat by lia.
    replace (k + 1 - 1)%nat with k by lia.
    destruct H as [[E ->]|[E ->]]; [left | right]; (split; [reflexivity|]);
      apply indexOfFrom_spec in E as (_ & E & _); rewrite Nat.sub_0_r in E;
      apply startsWith_split in E; rewrite E; reflexivity.
  - intros t p Ht Hp Hbc.
    apply parseTasks_In in Ht
      as (j & line & m & ind & bul & ws & st & rest & lh & lc
          & Hln & Hj & Hh & Hm & Et & Hpre & Hstat).
    rewrite Et in Hp. cbn [taskOfMatch priority] in Hp.
    destruct (exec rePrio (group 3 m)) as [pm|] eqn:E; [|discriminate].
    pose proof (exec_rePrio_includes _ _ _ E Hp) as Hinc.
    rewrite exec_reTask_exact, Hpre in Hm.
    destruct (forallb isDot (dropWhile isSpace rest)); [|discriminate].
    injection Hm as <-. unfold group in Hinc. cbn [groups cap Nat.eqb] in Hinc.
    apply checkboxPrefix_shape in Hpre as (Hl & _).
    assert (Hline : includes (40 :: p ++ [41]) line = true).
    { destruct (includes (40 :: p ++ [41]) line) eqn:Ei; [reflexivity|]. exfalso.
      rewrite Hl in Ei. rewrite <- (takeWhile_dropWhile isSpace rest) in Ei.
      replace (ind ++ bul :: ws ++ 91 :: st :: 93
                   :: takeWhile isSpace rest ++ dropWhile isSpace rest)
        with ((ind ++ bul :: ws ++ 91 :: st :: 93 :: takeWhile isSpace rest)
              ++ dropWhile isSpace rest) in Ei
        by (rewrite <- !app_assoc; cbn [app]; now rewrite <- !app_assoc).
      apply includes_suffix in Ei. congruence. }
    apply indexOf_includes in Hline as [k Hk].
    exists (mkDecoration (j + 1) (k + 1) (k + 4) (lit "prio-" ++ p)).
    split; [|split; [now rewrite Hln | reflexivity]].
    apply priorityLoop_In. exists j, line, k. cbn [decLine decStart decEnd decClass].
    repeat split; try assumption.
    destruct Hbc as [->| ->]; [left | right]; now split.
Qed.

Lemma priority_decorations_witness :
  exists dc,
    In dc (applyPriorityDecorations
             (Some [lit "# A"; lit "- [ ] pay rent (b) +home"])) /\
    decLine dc = 2%nat /\ decClass dc = lit "prio-" ++ lit "b".
Proof.
  destruct (priority_decorations [lit "# A"; lit "- [ ] pay rent (b) +home"]) as [_ H].
  destruct (exec reTask (lit "- [ ] pay rent (b) +home")) as [m|] eqn:E;
    [|vm_compute in E; discriminate].
  apply (H (taskOfMatch 1 (Some (lit "A")) defaultColor m) (lit "b")).
  - vm_compute in E. injection E as <-. vm_compute. left; reflexivity.
  - vm_compute in E. injection E as <-. reflexivity.
  - now left.
Defined.

(** ** Dropping a card *)

Lemma zoneOf_status u : In (status u) statusNames -> zoneOf u = status u.
Proof. intros H. unfold zoneOf. apply includesStr_In in H. now rewrite H. Qed.

(** X24: dropping a card on a column of the unfiltered board.  The
    document is edited and the board drawn again from a fresh parse: the
    dropped task now has its card in the target column, with the target
    status and otherwise unchanged, no other column holds a card of its
    line, and every other card is in the column it was in. *)
Theorem drop_moves_card (toLowerCase : str -> str) (model : Model) (t : Task)
    (target : str) :
  In t (parseTasks (Some model)) -> In target statusNames ->
  exists model',
    dropOnZone model (lineNumber t) target = Some model' /\
    In (withStatus target t) (renderKanban toLowerCase noFilters (Some model') target) /\
    (forall zone u,
        In u (renderKanban toLowerCase noFilters (Some model') zone) ->
        lineNumber u = lineNumber t -> zone = target) /\
    (forall zone u,
        lineNumber u <> lineNumber t ->
        (In u (renderKanban toLowerCase noFilters (Some model') zone) <->
         In u (renderKanban toLowerCase noFilters (Some model) zone))).
Proof.
  intros H Ht. pose proof H as H0.
  apply parseTasks_In in H
    as (j & line & m & ind & bul & ws & st & rest & lh & lc
        & Hln & Hj & _ & _ & _ & Hp & _).
  destruct (statusOfChar_mapped target Ht) as (c & Hc & Hs & Hback).
  set (model' := setNth j (ind ++ bul :: ws ++ 91 :: c :: 93 :: rest) model).
  assert (Hparse : parseTasks (Some model')
                   = restatus (lineNumber t) target (parseTasks (Some model))).
  { unfold parseTasks, model'.
    rewrite (parseLoop_status_edit model 0 None defaultColor j line
               ind bul ws st rest c Hj Hp Hs).
    now rewrite Hback, Hln. }
  exists model'. split.
  { unfold dropOnZone. rewrite Hln. replace (j + 1)%nat with (S j) by lia.
    assert (target <> []) by (destruct Ht as [<-|[<-|[<-|[]]]]; discriminate).
    destruct target as [|c0 tg]; [congruence|].
    unfold updateTaskStatusAtLine. cbn [getLineContent].
    rewrite Hj, (replace_reUpdate _ _ _ _ _ _ _ Hp), Hc.
    cbn [app]. destruct (str_eqb _ line) eqn:E; cbn [negb].
    - apply str_eqb_eq in E. unfold model'. rewrite E.
      now rewrite (setNth_same _ _ _ Hj).
    - reflexivity. }
  assert (Hrender : forall md zone u,
            In u (renderKanban toLowerCase noFilters (Some md) zone)
            <-> In u (parseTasks (Some md)) /\ status u = zone).
  { intros md zone u. unfold renderKanban.
    change (applyFilters toLowerCase noFilters ?l) with l.
    rewrite filter_In. split; intros [Hu Hz]; split; try assumption.
    - apply str_eqb_eq in Hz. rewrite <- Hz. symmetry.
      apply zoneOf_status. now apply (parsed_status md).
    - apply str_eqb_eq. rewrite <- Hz. apply zoneOf_status.
      now apply (parsed_status md). }
  assert (Hre : forall u,
            In u (parseTasks (Some model')) <->
            exists u0, In u0 (parseTasks (Some model)) /\
                       u = if (lineNumber u0 =? lineNumber t)%nat
                           then withStatus target u0 else u0).
  { intros u. rewrite Hparse. unfold restatus. rewrite in_map_iff.
    split; intros (u0 & A & B); exists u0; [now split | now split]. }
  split; [|split].
  - apply Hrender. split; [|reflexivity]. apply Hre. exists t.
    split; [assumption|]. now rewrite Nat.eqb_refl.
  - intros zone u Hu Hl. apply Hrender in Hu as [Hu <-].
    apply Hre in Hu as (u0 & Hu0 & ->).
    destruct (Nat.eqb_spec (lineNumber u0) (lineNumber t)) as [E|E]; [reflexivity|].
    now elim E.
  - intros zone u Hl. rewrite !Hrender. split; intros [Hu Hz]; split; try assumption.
    + apply Hre in Hu as (u0 & Hu0 & ->).
      destruct (Nat.eqb_spec (lineNumber u0) (lineNumber t)) as [E|E]; [|assumption].
      now elim Hl.
    + apply Hre. exists u. split; [assumption|].
      destruct (Nat.eqb_spec (lineNumber u) (lineNumber t)) as [E|E]; [now elim Hl|].
      reflexivity.
Qed.

Lemma drop_moves_card_witness :
  exists model',
    dropOnZone demoModel (lineNumber demoTask) (lit "done") = Some model' /\
    In (withStatus (lit "done") demoTask)
       (renderKanban asciiLower noFilters (Some model') (lit "done")) /\
    (forall zone u,
        In u (renderKanban asciiLower noFilters (Some model') zone) ->
        lineNumber u = lineNumber demoTask -> zone = lit "done") /\
    (forall zone u,
        lineNumber u <> lineNumber demoTask ->
        (In u (renderKanban asciiLower noFilters (Some model') zone) <->
         In u (renderKanban asciiLower noFilters (Some demoModel) zone))).
Proof.
  apply (drop_moves_card asciiLower demoModel demoTask (lit "done")).
  - vm_compute; auto.
  - vm_compute; auto.
Defined.

(** ** Heading colours *)

(** A match of the decoration regex that holds a colour: the line ends
    with whitespace and the colour, a hash and six hex digits, and the
    title stands somewhere before them. *)
Lemma exec_reHeadingColor_sound line m c :
  exec reHeadingColor line = Some m -> cap 2 (groups m) = Some c ->
  isColor c = true /\ matched m = line /\
  exists front w, line = front ++ group 1 m ++ w ++ c /\ w <> [].
Proof.
  unfold reHeadingColor. rewrite exec_bol. unfold matchAt, plus, lazyStar, times.
  cbn [run].
  destruct (repeatG isHash 1 (Some 3%nat) _ [] line []) as [[[b' r'] cs]|] eqn:R;
    [|discriminate].
  intros H; injection H as <-. cbn [groups matched].
  apply repeatG_sound in R as (u1 & v1 & -> & _ & _ & R).
  apply repeatG_sound in R as (u2 & v2 & -> & _ & _ & R).
  apply repeatL_sound in R as (u3 & v3 & -> & R).
  match type of R with
  | match ?X with _ => _ end = _ => destruct X as [y|] eqn:R4
  end.
  - injection R as ->.
    apply repeatG_sound in R4 as (u4 & v4 & -> & _ & L4 & R4).
    destruct v4 as [|c0 r4]; [discriminate|].
    destruct (isHash c0) eqn:Hc0; [|discriminate].
    rewrite repeatG_exact in R4.
    destruct (6 <=? length r4)%nat eqn:L6; [|discriminate].
    destruct (forallb isHex (firstn 6 r4)) eqn:Hx; [|discriminate].
    cbn [andb] in R4.
    destruct (skipn 6 r4) as [|z zs] eqn:Sk; [|discriminate].
    assert (E6 : firstn 6 r4 = r4).
    { rewrite <- (firstn_skipn 6 r4) at 2. now rewrite Sk, app_nil_r. }
    assert (Len : length r4 = 6%nat).
    { rewrite <- E6. apply firstn_length_le. now apply Nat.leb_le. }
    rewrite E6 in R4, Hx. clear E6 Sk L6.
    unfold accept in R4. injection R4 as <- <- <-. cbn [cap Nat.eqb].
    replace (rev r4 ++ c0 :: rev u4 ++ rev u3 ++ rev u2 ++ rev u1 ++ [])
      with (rev (c0 :: r4) ++ rev u4 ++ rev u3 ++ rev u2 ++ rev u1 ++ [])
      by (cbn [rev]; now rewrite <- app_assoc).
    rewrite span_app, rev_involutive.
    intros E; injection E as <-.
    split; [|split].
    + cbn [isColor]. now rewrite Hc0, Hx, Len.
    + rewrite span_nil. now list_norm.
    + unfold group. cbn [groups cap Nat.eqb].
      rewrite span_app, rev_involutive.
      exists (u1 ++ u2), u4. split; [now rewrite <- !app_assoc|].
      intros ->. cbn in L4. lia.
  - destruct v3 as [|z zs]; [|discriminate]. unfold accept in R.
    injection R as <- <- <-. cbn [cap Nat.eqb]. discriminate.
Qed.

(** The same match, part by part: the hashes, the whitespace after them,
    the title (group 1), the whitespace before the colour, the colour. *)
Lemma exec_reHeadingColor_shape line m c :
  exec reHeadingColor line = Some m -> cap 2 (groups m) = Some c ->
  exists hashes ws w,
    line = hashes ++ ws ++ group 1 m ++ w ++ c /\
    forallb isHash hashes = true /\ hashes <> [] /\
    forallb isSpace ws = true /\ ws <> [] /\
    forallb isSpace w = true /\ w <> [].
Proof.
  unfold reHeadingColor. rewrite exec_bol. unfold matchAt, plus, lazyStar, times.
  cbn [run].
  destruct (repeatG isHash 1 (Some 3%nat) _ [] line []) as [[[b' r'] cs]|] eqn:R;
    [|discriminate].
  intros H; injection H as <-. cbn [groups matched].
  apply repeatG_sound in R as (u1 & v1 & -> & H1 & L1 & R).
  apply repeatG_sound in R as (u2 & v2 & -> & H2 & L2 & R).
  apply repeatL_sound in R as (u3 & v3 & -> & R).
  match type of R with
  | match ?X with _ => _ end = _ => destruct X as [y|] eqn:R4
  end.
  - injection R as ->.
    apply repeatG_sound in R4 as (u4 & v4 & -> & H4 & L4 & R4).
    destruct v4 as [|c0 r4]; [discriminate|].
    destruct (isHash c0) eqn:Hc0; [|discriminate].
    rewrite repeatG_exact in R4.
    destruct (6 <=? length r4)%nat eqn:L6; [|discriminate].
    destruct (forallb isHex (firstn 6 r4)) eqn:Hx; [|discriminate].
    cbn [andb] in R4.
    destruct (skipn 6 r4) as [|z zs] eqn:Sk; [|discriminate].
    assert (E6 : firstn 6 r4 = r4).
    { rewrite <- (firstn_skipn 6 r4) at 2. now rewrite Sk, app_nil_r. }
    rewrite E6 in R4. clear E6 Sk L6 Hx.
    unfold accept in R4. injection R4 as <- <- <-. cbn [cap Nat.eqb].
    replace (rev r4 ++ c0 :: rev u4 ++ rev u3 ++ rev u2 ++ rev u1 ++ [])
      with (rev (c0 :: r4) ++ rev u4 ++ rev u3 ++ rev u2 ++ rev u1 ++ [])
      by (cbn [rev]; now rewrite <- app_assoc).
    rewrite span_app, rev_involutive.
    intros E; injection E as <-.
    unfold group. cbn [groups cap Nat.eqb].
    rewrite span_app, rev_involutive.
    exists u1, u2, u4.
    split; [now rewrite <- ?app_assoc|].
    split; [assumption|]. split; [intros ->; cbn in L1; lia|].
    split; [assumption|]. split; [intros ->; cbn in L2; lia|].
    split; [assumption|]. intros ->. cbn in L4. lia.
  - destruct v3 as [|z zs]; [|discriminate]. unfold accept in R.
    injection R as <- <- <-. cbn [cap Nat.eqb]. discriminate.
Qed.

Lemma setAdd_In x s y : In y (setAdd x s) <-> y = x \/ In y s.
Proof.
  unfold setAdd. destruct (includesStr x s) eqn:E.
  - apply includesStr_In in E. split; [now right | now intros [->|]].
  - rewrite in_app_iff. cbn [In]. split; [intros [H|[<-|[]]] | intros [->|H]]; auto.
Qed.

Lemma setAdd_NoDup x s : NoDup s -> NoDup (setAdd x s).
Proof.
  intros H. unfold setAdd. destruct (includesStr x s) eqn:E; [assumption|].
  apply NoDup_app; [assumption | repeat constructor; easy |].
  intros y Hy [<-|[]]. apply includesStr_In in Hy. congruence.
Qed.

Lemma headingColorLoop_spec i lines colors :
  (forall dc, In dc (fst (headingColorLoop i lines colors)) <->
     exists j line c, nth_error lines j = Some line /\
                      headingDecoration (i + j) line = Some (dc, c)) /\
  (forall c, In c (snd (headingColorLoop i lines colors)) <->
     In c colors \/
     exists j line dc, nth_error lines j = Some line /\
                       headingDecoration (i + j) line = Some (dc, c)) /\
  (NoDup colors -> NoDup (snd (headingColorLoop i lines colors))).
Proof.
  revert i colors. induction lines as [|l lines IH]; intros i colors.
  - cbn [headingColorLoop fst snd]. repeat split.
    + easy.
    + now intros ([|j] & ? & ? & ? & _).
    + now left.
    + intros [H|([|j] & ? & ? & ? & _)]; easy.
    + easy.
  - cbn [headingColorLoop].
    destruct (headingDecoration i l) as [[dc0 c0]|] eqn:E.
    + destruct (IH (S i) (setAdd c0 colors)) as (IH1 & IH2 & IH3).
      destruct (headingColorLoop (S i) lines (setAdd c0 colors)) as [ds cs].
      cbn [fst snd] in *. repeat split.
      * intros [<-|H].
        -- exists 0%nat, l, c0. now rewrite Nat.add_0_r.
        -- apply IH1 in H as (j & line & c & Hn & Hd). exists (S j), line, c.
           now rewrite Nat.add_succ_r.
      * intros ([|j] & line & c & Hn & Hd); cbn [nth_error] in Hn.
        -- injection Hn as <-. rewrite Nat.add_0_r, E in Hd. injection Hd as <- _.
           now left.
        -- right. apply IH1. exists j, line, c. now rewrite Nat.add_succ_r in Hd.
      * intros H. apply IH2 in H as [H|(j & line & dc & Hn & Hd)].
        -- apply setAdd_In in H as [->|H]; [|now left].
           right. exists 0%nat, l, dc0. now rewrite Nat.add_0_r.
        -- right. exists (S j), line, dc. now rewrite Nat.add_succ_r.
      * intros [H|([|j] & line & dc & Hn & Hd)]; apply IH2.
        -- left. apply setAdd_In. now right.
        -- cbn [nth_error] in Hn. injection Hn as <-.
           rewrite Nat.add_0_r, E in Hd. injection Hd as _ <-.
           left. apply setAdd_In. now left.
        -- right. exists j, line, dc. cbn [nth_error] in Hn.
           now rewrite Nat.add_succ_r in Hd.
      * intros H. now apply IH3, setAdd_NoDup.
    + destruct (IH (S i) colors) as (IH1 & IH2 & IH3). repeat split.
      * intros H. apply IH1 in H as (j & line & c & Hn & Hd). exists (S j), line, c.
        now rewrite Nat.add_succ_r.
      * intros ([|j] & line & c & Hn & Hd); cbn [nth_error] in Hn.
        -- injection Hn as <-. rewrite Nat.add_0_r, E in Hd. discriminate.
        -- apply IH1. exists j, line, c. now rewrite Nat.add_succ_r in Hd.
      * intros H. apply IH2 in H as [H|(j & line & dc & Hn & Hd)]; [now left|].
        right. exists (S j), line, dc. now rewrite Nat.add_succ_r.
      * intros [H|([|j] & line & dc & Hn & Hd)]; apply IH2; [now left | |].
        -- cbn [nth_error] in Hn. injection Hn as <-.
           rewrite Nat.add_0_r, E in Hd. discriminate.
        -- right. exists j, line, dc. cbn [nth_error] in Hn.
           now rewrite Nat.add_succ_r in Hd.
      * exact IH3.
Qed.

(** What one decoration is: the colour the line is decorated with, the
    class made from it, and a range over the title and the character after
    it. *)
Lemma headingDecoration_spec i line dc c :
  headingDecoration i line = Some (dc, c) ->
  decoratedColor line = Some c /\ isColor c = true /\
  decLine dc = (i + 1)%nat /\ decClass dc = lit "heading-color-" ++ skipn 1 c /\
  exists title x, decorated line dc = title ++ [x] /\
                  includes title line = true /\
                  (decEnd dc - 1 <= length line)%nat.
Proof.
  unfold headingDecoration, decoratedColor.
  destruct (exec reHeadingColor line) as [m|] eqn:E; [|discriminate].
  destruct (cap 2 (groups m)) as [[|c0 c']|] eqn:C; try discriminate.
  intros H; injection H as <- <-.
  destruct (exec_reHeadingColor_sound line m _ E C)
    as (Hcol & Hm & front & w & Hl & Hw).
  split; [reflexivity|]. split; [assumption|].
  cbn [decLine decClass]. split; [reflexivity|]. split; [reflexivity|].
  rewrite Hm. set (title := group 1 m) in *.
  assert (Hinc : includes title line = true).
  { rewrite Hl. apply includes_app. apply startsWith_app. }
  destruct (indexOf_includes _ _ Hinc) as [k Hk]. rewrite Hk.
  apply indexOfFrom_spec in Hk as (_ & Hs & Hmin). rewrite Nat.sub_0_r in *.
  assert (Hk : (k <= length front)%nat).
  { destruct (Nat.le_gt_cases k (length front)) as [L|L]; [assumption|].
    specialize (Hmin _ L). rewrite Hl, skipn_app, Nat.sub_diag, skipn_all in Hmin.
    cbn [skipn app] in Hmin. now rewrite startsWith_app in Hmin. }
  pose proof (startsWith_split _ _ Hs) as Hsplit.
  assert (Hlen : (length line = length front + length title + length w + length (c0 :: c'))%nat).
  { rewrite Hl at 1. rewrite !length_app. lia. }
  assert (Hw1 : (1 <= length w)%nat) by (destruct w; [now elim Hw | cbn; lia]).
  assert (Hrest : (1 <= length (skipn (length title) (skipn k line)))%nat).
  { rewrite !length_skipn. cbn [length] in Hlen. lia. }
  destruct (skipn (length title) (skipn k line)) as [|x rest'] eqn:Er;
    [cbn in Hrest; lia|].
  exists title, x. unfold decorated. cbn [decStart decEnd].
  replace (k + 1 + length title + 1 - (k + 1))%nat with (length title + 1)%nat by lia.
  replace (k + 1 - 1)%nat with k by lia.
  split; [|split; [assumption|]].
  - rewrite Hsplit. rewrite firstn_app, firstn_all2 by lia.
    replace (length title + 1 - length title)%nat with 1%nat by lia. reflexivity.
  - cbn [length] in Hlen. lia.
Qed.

(** Where the range of a decoration lies: it starts at the first
    occurrence of the title text in the line, which is at the title or to
    its left, and ends one character behind that occurrence.  A title that
    starts with a character other than a hash and whitespace occurs first
    at its own place. *)
Lemma headingDecoration_range i line dc c :
  headingDecoration i line = Some (dc, c) ->
  exists m hashes ws w x,
    exec reHeadingColor line = Some m /\
    line = hashes ++ ws ++ group 1 m ++ w ++ c /\
    forallb isHash hashes = true /\ hashes <> [] /\
    forallb isSpace ws = true /\ ws <> [] /\
    forallb isSpace w = true /\ w <> [] /\
    (1 <= decStart dc)%nat /\
    indexOf (group 1 m) line = Some (decStart dc - 1)%nat /\
    (decStart dc - 1 <= length hashes + length ws)%nat /\
    (forall c0 r, group 1 m = c0 :: r -> isHash c0 = false -> isSpace c0 = false ->
                  (decStart dc - 1 = length hashes + length ws)%nat) /\
    decEnd dc = (decStart dc + length (group 1 m) + 1)%nat /\
    decorated line dc = group 1 m ++ [x].
Proof.
  unfold headingDecoration.
  destruct (exec reHeadingColor line) as [m|] eqn:E; [|discriminate].
  destruct (cap 2 (groups m)) as [[|c0 c']|] eqn:C; try discriminate.
  intros H; injection H as <- <-.
  destruct (exec_reHeadingColor_sound line m _ E C) as (_ & Hm & _).
  destruct (exec_reHeadingColor_shape line m _ E C)
    as (hashes & ws & w & Hl & Hh & Hh0 & Hs & Hs0 & Hw & Hw0).
  rewrite Hm. set (title := group 1 m) in *.
  assert (Hinc : includes title line = true).
  { rewrite Hl, app_assoc. apply includes_app. apply startsWith_app. }
  destruct (indexOf_includes _ _ Hinc) as [k Hk]. rewrite Hk.
  pose proof Hk as Hk0.
  apply indexOfFrom_spec in Hk as (_ & Hst & Hmin). rewrite Nat.sub_0_r in *.
  assert (Hfront : (k <= length hashes + length ws)%nat).
  { destruct (Nat.le_gt_cases k (length hashes + length ws)) as [L|L]; [assumption|].
    specialize (Hmin _ L). rewrite Hl, app_assoc in Hmin.
    rewrite <- length_app in Hmin.
    rewrite skipn_app, Nat.sub_diag, skipn_all in Hmin.
    cbn [skipn app] in Hmin. now rewrite startsWith_app in Hmin. }
  pose proof (startsWith_split _ _ Hst) as Hsplit.
  assert (Hlen : (length line = length hashes + length ws + length title
                                + length w + length (c0 :: c'))%nat).
  { rewrite Hl at 1. rewrite !length_app. lia. }
  assert (Hw1 : (1 <= length w)%nat) by (destruct w; [now elim Hw0 | cbn; lia]).
  assert (Hrest : (1 <= length (skipn (length title) (skipn k line)))%nat).
  { rewrite !length_skipn. cbn [length] in Hlen. lia. }
  destruct (skipn (length title) (skipn k line)) as [|x rest'] eqn:Er;
    [cbn in Hrest; lia|].
  exists m, hashes, ws, w, x. cbn [decStart decEnd]. fold title.
  replace (k + 1 - 1)%nat with k by lia.
  split; [reflexivity|]. split; [assumption|].
  repeat (split; [assumption|]).
  split; [lia|]. split; [assumption|]. split; [assumption|].
  split; [|split; [lia|]].
  - intros d r Et Hd1 Hd2.
    destruct (Nat.eq_dec k (length hashes + length ws)) as [|Hneq]; [assumption|].
    exfalso. assert (Hlt : (k < length (hashes ++ ws))%nat) by (rewrite length_app; lia).
    rewrite Et in Hst. cbn [startsWith] in Hst.
    destruct (skipn k line) as [|y ys] eqn:Sk; [discriminate|].
    apply andb_true_iff in Hst as [Hy _]. apply N.eqb_eq in Hy. subst y.
    assert (Hnth : nth_error line k = Some d).
    { rewrite <- (firstn_skipn k line), Sk.
      rewrite nth_error_app2 by (rewrite length_firstn; lia).
      rewrite length_firstn.
      replace (k - Nat.min k (length line))%nat with 0%nat by lia. reflexivity. }
    rewrite Hl, app_assoc, nth_error_app1 in Hnth by assumption.
    apply nth_error_In, in_app_or in Hnth as [Hin|Hin].
    + rewrite forallb_forall in Hh. apply Hh in Hin. congruence.
    + rewrite forallb_forall in Hs. apply Hs in Hin. congruence.
  - unfold decorated. cbn [decStart decEnd].
    replace (k + 1 + length title + 1 - (k + 1))%nat with (length title + 1)%nat by lia.
    replace (k + 1 - 1)%nat with k by lia.
    rewrite Hsplit. rewrite firstn_app, firstn_all2 by lia.
    replace (length title + 1 - length title)%nat with 1%nat by lia.
    reflexivity.
Qed.

(** X25: the heading colours.  Every rule of the style sheet sets a colour
    that is a hash and six hex digits, for the class named after those
    digits, and some decoration uses it; no colour has two rules.  Every
    decoration lies on a line that the decoration regex matches with a
    colour: the line is hashes, whitespace, the title (group 1 of the
    match), whitespace and the colour.  The decoration has the class of
    that colour, for which there is a rule.  Its range starts at the first
    occurrence of the title text in the line and ends one character behind
    that occurrence, so it covers the title text and the next character.
    The first occurrence is at the title or to its left, and it is the
    title itself when the title starts with a character that is neither a
    hash nor whitespace. *)
Theorem heading_colors (model : Model) :
  (forall cls color, In (cls, color) (snd (applyHeadingColors (Some model))) ->
     isColor color = true /\ cls = lit "heading-color-" ++ skipn 1 color /\
     exists dc, In dc (fst (applyHeadingColors (Some model))) /\ decClass dc = cls) /\
  NoDup (map snd (snd (applyHeadingColors (Some model)))) /\
  (forall dc, In dc (fst (applyHeadingColors (Some model))) ->
     exists line color m hashes ws w x,
       getLineContent model (decLine dc) = Some line /\
       exec reHeadingColor line = Some m /\
       decoratedColor line = Some color /\
       In (decClass dc, color) (snd (applyHeadingColors (Some model))) /\
       line = hashes ++ ws ++ group 1 m ++ w ++ color /\
       forallb isHash hashes = true /\ hashes <> [] /\
       forallb isSpace ws = true /\ ws <> [] /\
       forallb isSpace w = true /\ w <> [] /\
       (1 <= decStart dc)%nat /\
       indexOf (group 1 m) line = Some (decStart dc - 1)%nat /\
       (decStart dc - 1 <= length hashes + length ws)%nat /\
       (forall c0 r, group 1 m = c0 :: r -> isHash c0 = false -> isSpace c0 = false ->
                     (decStart dc - 1 = length hashes + length ws)%nat) /\
       decEnd dc = (decStart dc + length (group 1 m) + 1)%nat /\
       decorated line dc = group 1 m ++ [x]).
Proof.
  unfold applyHeadingColors.
  destruct (headingColorLoop_spec 0 model []) as (Hd & Hc & Hn).
  destruct (headingColorLoop 0 model []) as [ds cs]. cbn [fst snd] in *.
  split; [|split].
  - intros cls color H. apply in_map_iff in H as (c & E & H). injection E as <- <-.
    apply Hc in H as [[]|(j & line & dc & Hj & Hdc)].
    destruct (headingDecoration_spec _ _ _ _ Hdc) as (_ & Hcol & _ & Hcls & _).
    split; [assumption|]. split; [reflexivity|].
    exists dc. split; [|assumption]. apply Hd. now exists j, line, c.
  - rewrite map_map. cbn [snd]. rewrite map_id. apply Hn. constructor.
  - intros dc H. apply Hd in H as (j & line & c & Hj & Hdc).
    destruct (headingDecoration_spec _ _ _ _ Hdc) as (Hdec & _ & Hline & Hcls & _).
    destruct (headingDecoration_range _ _ _ _ Hdc)
      as (m & hashes & ws & w & x & Hm & Hrest).
    exists line, c, m, hashes, ws, w, x. rewrite Hline. cbn [Nat.add].
    rewrite getLineContent_succ.
    split; [assumption|]. split; [assumption|]. split; [assumption|].
    split; [|exact Hrest].
    rewrite Hcls. apply in_map_iff. exists c. split; [reflexivity|].
    apply Hc. right. now exists j, line, dc.
Qed.

Lemma heading_colors_witness :
  exists line color m hashes ws w x,
    getLineContent [lit "## Home #00ff00"; lit "- [ ] x"]
                   (decLine (mkDecoration 1 4 9 (lit "heading-color-00ff00")))
    = Some line /\
    exec reHeadingColor line = Some m /\
    decoratedColor line = Some color /\
    In (decClass (mkDecoration 1 4 9 (lit "heading-color-00ff00")), color)
       (snd (applyHeadingColors (Some [lit "## Home #00ff00"; lit "- [ ] x"]))) /\
    line = hashes ++ ws ++ group 1 m ++ w ++ color /\
    forallb isHash hashes = true /\ hashes <> [] /\
    forallb isSpace ws = true /\ ws <> [] /\
    forallb isSpace w = true /\ w <> [] /\
    (1 <= decStart (mkDecoration 1 4 9 (lit "heading-color-00ff00")))%nat /\
    indexOf (group 1 m) line
    = Some (decStart (mkDecoration 1 4 9 (lit "heading-color-00ff00")) - 1)%nat /\
    (decStart (mkDecoration 1 4 9 (lit "heading-color-00ff00")) - 1
     <= length hashes + length ws)%nat /\
    (forall c0 r, group 1 m = c0 :: r -> isHash c0 = false -> isSpace c0 = false ->
                  (decStart (mkDecoration 1 4 9 (lit "heading-color-00ff00")) - 1
                   = length hashes + length ws)%nat) /\
    decEnd (mkDecoration 1 4 9 (lit "heading-color-00ff00"))
    = (decStart (mkDecoration 1 4 9 (lit "heading-color-00ff00"))
       + length (group 1 m) + 1)%nat /\
    decorated line (mkDecoration 1 4 9 (lit "heading-color-00ff00")) = group 1 m ++ [x].
Proof.
  apply (proj2 (proj2 (heading_colors [lit "## Home #00ff00"; lit "- [ ] x"]))).
  vm_compute. left; reflexivity.
Defined.
